(** * Plum: request context, handler chain, router groups and dispatch

    A shallow embedding of the request pipeline of go-plum/plum:
    - the per-request [Context] (reset, Copy, Set, Header, Abort, IsAborted, Next),
    - the handler type and the middleware composition of [Router]
      (Group, Use, withMiddlewares, Handle),
    - the server ([New], [Recover], the two ServeHTTP entry points).

    Go values keep their shape: [int8] is a [Z] wrapped by hand, slices are
    headers (backing array, offset, length, capacity) into a store of arrays,
    maps are references into a store of [gmap]s, nil is [None].  What the
    standard library does (the mux, header canonicalisation, the stack
    dump) is a parameter, gathered in the class [Platform]. *)

From stdpp Require Import gmap strings list pretty.
From Stdlib Require Import ZArith Ascii.

(** ** Machine integers *)

Module Int8.

Definition MaxInt8 : Z := 127.
Definition MinInt8 : Z := -128.

(** Two's complement wrap-around of an arbitrary integer into [-128, 127]:
    what Go does on [int8] overflow and on the conversion [int8(n)]. *)
Definition wrap (z : Z) : Z := ((z + 128) `mod` 256 - 128)%Z.


End Int8.

(** [const abortIndex int8 = math.MaxInt8 >> 1] *)
Definition abortIndex : Z := Z.shiftr Int8.MaxInt8 1.

(** ** Slices

    A slice header: [sbase] names the backing array in the store ([None] for
    the nil slice), [soff] is where the slice starts in it. *)

Record slice := Slice { sbase : option nat; soff : nat; slen : nat; scap : nat }.

Definition nil_slice : slice := Slice None 0 0 0.

(** [m] and [u] do not share an array. *)
Definition apart (m u : slice) : Prop := sbase m = None ∨ sbase u ≠ sbase m.

Section Slices.
Context {A : Type}.

(** The elements a slice shows, read from the store [h]. *)
Definition slice_elems (h : list (list A)) (s : slice) : list A :=
  match sbase s with
  | None => []
  | Some a => take (slen s) (drop (soff s) (default [] (h !! a)))
  end.

(** The header describes a part of an array that exists in [h]. *)
Definition slice_ok (h : list (list A)) (s : slice) : Prop :=
  match sbase s with
  | None => slen s = 0
  | Some a => ∃ arr, h !! a = Some arr ∧ soff s + slen s ≤ length arr
  end.

(** [s[:0]]: same array, same offset, same capacity, length 0. *)
Definition reslice0 (s : slice) : slice :=
  Slice (sbase s) (soff s) 0 (scap s).

(** [make([]T, n)]: a new array of [n] zero values at a fresh address. *)
Definition make_slice (zero : A) (n : nat) (h : list (list A)) : list (list A) * slice :=
  (h ++ [replicate n zero], Slice (Some (length h)) 0 n n).

(** Overwrite the window of the slice [s] with [xs] (as many as fit). *)
Definition slice_store (h : list (list A)) (s : slice) (xs : list A) : list (list A) :=
  match sbase s with
  | None => h
  | Some a =>
      match h !! a with
      | None => h
      | Some arr =>
          let n := length xs `min` slen s in
          <[a := take (soff s) arr ++ take n xs ++ drop (soff s + n) arr]> h
      end
  end.

(** [copy(dst, src)]: copies [min(len(dst), len(src))] elements. *)
Definition copy_slice (h : list (list A)) (dst src : slice) : list (list A) :=
  slice_store h dst (slice_elems h src).

(** [slices.Reverse(s)]: reverses the elements in place. *)
Definition slices_Reverse (h : list (list A)) (s : slice) : list (list A) :=
  slice_store h s (reverse (slice_elems h s)).

(** [slices.Concat(s1, s2)]: always a new array; nil when the total is 0
    ([Grow(nil, 0)] followed by empty appends stays nil). *)
Definition slices_Concat (h : list (list A)) (s1 s2 : slice) : list (list A) * slice :=
  let xs := slice_elems h s1 ++ slice_elems h s2 in
  match xs with
  | [] => (h, nil_slice)
  | _ => (h ++ [xs], Slice (Some (length h)) 0 (length xs) (length xs))
  end.

End Slices.

(** ** Requests, responses, values *)

(** The fields of [http.Request] this package reads. *)
Record http_Request := {
  Method : string;
  RequestURI : string;
  URLPath : string;
  ProtoMajor : Z;
  ProtoMinor : Z;
}.

(** [r.ProtoAtLeast(major, minor)] *)
Definition ProtoAtLeast (r : http_Request) (major minor : Z) : bool :=
  (major <? ProtoMajor r)%Z || ((ProtoMajor r =? major)%Z && (minor <=? ProtoMinor r)%Z).

(** An [http.ResponseWriter], as the record of what was done to it: the
    header map and the calls of WriteHeader and Write that returned,
    oldest first, the superfluous ones included. *)
Inductive wcall := WriteHeader (code : Z) | Write (data : string).

Record http_ResponseWriter := {
  rw_header : gmap string (list string);
  rw_calls : list wcall;
}.

Definition fresh_response : http_ResponseWriter :=
  {| rw_header := ∅; rw_calls := [] |}.

(** [checkWriteHeaderCode] of net/http: [WriteHeader(code)] of the writer
    the server hands to a handler panics on a code outside 100..999,
    unless the header is out already, in which case the call is
    superfluous and does nothing more. *)
Definition checkWriteHeaderCode (code : Z) : bool :=
  (100 <=? code)%Z && (code <=? 999)%Z.

(** Whether a call puts the header out, on the HTTP/1 writer of the server:
    a write to the body does (it sends status 200 first when no status was
    written), and so does a status that is not informational; 101
    Switching Protocols counts as final there, the other codes from 100 to
    199 are sent and leave the header open. *)
Definition sends_header (call : wcall) : bool :=
  match call with
  | Write _ => true
  | WriteHeader code =>
      negb ((100 <=? code)%Z && (code <=? 199)%Z && negb (code =? 101)%Z)
  end.

(** Whether the header is out. *)
Definition wroteHeader (w : http_ResponseWriter) : bool :=
  existsb sends_header (rw_calls w).


(** [fmt.Sprintf("invalid WriteHeader code %v", code)], the value of that
    panic. *)
Definition invalid_WriteHeader_code (code : Z) : string :=
  "invalid WriteHeader code " +:+ pretty code.

(** Values of type [any] kept in the key/value bag. *)
Inductive any := AnyString (s : string) | AnyInt (z : Z) | AnyBool (b : bool).

Record Param := { Key : string; Value : string }.

(** ** Handlers

    A [HandlerFunc] is Go code that receives the context.  What matters of
    it here is what it does to the context and in which order, so a body is
    the tree of the calls it makes and of its assignments to the exported
    fields of the context, each with the code that follows it (a call that
    returns a value is followed by a continuation that takes it).
    A middleware is any function from handlers to handlers: it may put code
    before and after the handler it wraps, or leave the handler out. *)

Inductive stream := Stdout | Stderr.

Inductive Prog : Type :=
| PDone                                           (** the function returns *)
| PNext (k : Prog)                                (** [c.Next()] *)
| PAbort (k : Prog)                               (** [c.Abort()] *)
| PIsAborted (k : bool → Prog)                    (** [c.IsAborted()] *)
| PStatus (code : Z) (k : Prog)                   (** [c.Status(code)] *)
| PHeader (key value : string) (k : Prog)         (** [c.Header(key, value)] *)
| PSet (key : string) (value : any) (k : Prog)    (** [c.Set(key, value)] *)
| PGet (key : string) (k : option any → Prog)     (** [c.Get(key)] *)
| PRequest (k : option http_Request → Prog)       (** reading [c.Request] *)
| PStack (bufsize : Z) (k : string → Prog)
    (** [buf := make([]byte, bufsize); buf = buf[:runtime.Stack(buf, false)]] *)
| PPrint (out : stream) (msg : string) (k : Prog) (** printing a line *)
| PPanic (err : string)                           (** [panic(err)] *)
| PDeferRecover (body : Prog) (onpanic : string → Prog) (k : Prog)
    (** a function whose body runs under a deferred [recover()]: when the
        body panics, [onpanic] runs with the recovered value and the
        function returns normally to the code [k] of its caller *)
| PSetWriter (w : option http_ResponseWriter) (k : Prog)
    (** [c.Writer = w]: nil, or another writer, in the state [w] *)
| PSetRequest (r : option http_Request) (k : Prog)
    (** [c.Request = r] *)
| PSetParams (ps : list Param) (k : Prog)
    (** [c.Params = ps], a slice of the handler's own *)
| PSetKeys (m : option (gmap string any)) (k : Prog)
    (** [c.Keys = m]: nil, or a map of the handler's own *)
| PWrite (data : string) (k : Prog).
    (** [c.Writer.Write(data)], the results dropped *)

Definition HandlerFunc : Type := Prog.
Definition Middleware : Type := HandlerFunc → HandlerFunc.


(** What an execution leaves behind, oldest first. *)
Inductive event :=
| EvNext
| EvEnter (j : Z)
| EvAbort
| EvIsAborted (b : bool)
| EvOverflow
| EvPrint (out : stream) (msg : string)
| EvSetWriter (old : option http_ResponseWriter).
    (** [c.Writer] was assigned; [old] is the writer it held *)

(** ** Collaborators outside the repository

    The standard library pieces the package calls.  Nothing is assumed about
    them beyond their types. *)

Record RouterHandler := { rh_h : HandlerFunc; rh_engine : option unit }.

Inductive http_Handler :=
| HRoute (rh : RouterHandler)
| HNotFound
| HOther (code : Z).

Class Platform := {
  (** [textproto.CanonicalMIMEHeaderKey] *)
  CanonicalMIMEHeaderKey : string → string;
  (** the text [runtime.Stack] would write with an unbounded buffer *)
  goroutine_stack : list event → string;
  (** [httputil.DumpRequest(req, body)]: the text, the empty string on
      error; [None] when the call panics, which it does on a request that
      has neither a request URI nor a URL, and which no request of the
      server is *)
  DumpRequest : http_Request → bool → option string;
  (** whether [ServeMux.Handle] takes a pattern, given those registered *)
  mux_accepts : list string → string → bool;
  (** [ServeMux.Handler(req)]: the handler and the pattern that matched,
      the pattern being empty when none did *)
  mux_Handler : list (string * RouterHandler) → http_Request → http_Handler * string;
  (** [joinPaths], the helper of the package that joins a base path and a
      relative one *)
  joinPaths : string → string → string;
  (** the handlers of net/http/pprof, by name *)
  pprof_handler : string → HandlerFunc;
}.

(** ** Context *)

Record Context := {
  Request : option http_Request;
  Writer : option http_ResponseWriter;
  Params : slice;
  handlers : list HandlerFunc;
  index : Z;
  engine : option unit;
  Keys : option nat;
  sameSite : Z;
}.

(** The stores behind a context's references. *)
Record Heap := {
  hmaps : list (gmap string any);
  hparams : list (list Param);
}.

Definition zero_Context : Context :=
  {| Request := None; Writer := None; Params := nil_slice; handlers := [];
     index := 0; engine := None; Keys := None; sameSite := 0 |}.

Definition zero_Param : Param := {| Key := ""; Value := "" |}.

Definition set_index (i : Z) (c : Context) : Context :=
  {| Request := Request c; Writer := Writer c; Params := Params c;
     handlers := handlers c; index := i; engine := engine c;
     Keys := Keys c; sameSite := sameSite c |}.

Definition set_Writer (w : option http_ResponseWriter) (c : Context) : Context :=
  {| Request := Request c; Writer := w; Params := Params c;
     handlers := handlers c; index := index c; engine := engine c;
     Keys := Keys c; sameSite := sameSite c |}.

Definition set_Keys (k : option nat) (c : Context) : Context :=
  {| Request := Request c; Writer := Writer c; Params := Params c;
     handlers := handlers c; index := index c; engine := engine c;
     Keys := k; sameSite := sameSite c |}.

Definition set_Request (r : option http_Request) (c : Context) : Context :=
  {| Request := r; Writer := Writer c; Params := Params c;
     handlers := handlers c; index := index c; engine := engine c;
     Keys := Keys c; sameSite := sameSite c |}.

Definition set_Params (ps : slice) (c : Context) : Context :=
  {| Request := Request c; Writer := Writer c; Params := ps;
     handlers := handlers c; index := index c; engine := engine c;
     Keys := Keys c; sameSite := sameSite c |}.

(** [func (c *Context) reset()] *)
Definition reset (c : Context) : Context :=
  {| Request := Request c; Writer := Writer c;
     Params := reslice0 (Params c);
     handlers := [];
     index := -1;
     engine := engine c;
     Keys := None;
     sameSite := 0 |}.

(** The map a [Keys] reference shows; a nil map reads as empty. *)
Definition keys_of (h : Heap) (k : option nat) : gmap string any :=
  match k with
  | None => ∅
  | Some a => default ∅ (hmaps h !! a)
  end.

(** [for k, v := range src { dst[k] = v }] into the map at [dst]. *)
Definition range_assign (src : gmap string any) (dst : gmap string any) : gmap string any :=
  map_fold (λ k v acc, <[k := v]> acc) dst src.

(** [func (c *Context) Copy() *Context] *)
Definition Copy (h : Heap) (c : Context) : Heap * Context :=
  let cKeys := keys_of h (Keys c) in
  let keys_addr := length (hmaps h) in
  let maps1 := hmaps h ++ [range_assign cKeys ∅] in
  let cParams := Params c in
  let '(arrs1, ps) := make_slice zero_Param (slen cParams) (hparams h) in
  let arrs2 := copy_slice arrs1 ps cParams in
  ({| hmaps := maps1; hparams := arrs2 |},
   {| Request := Request c; Writer := None; Params := ps; handlers := [];
      index := abortIndex; engine := engine c; Keys := Some keys_addr;
      sameSite := 0 |}).

(** [func (c *Context) IsAborted() bool] *)
Definition IsAborted (c : Context) : bool := (abortIndex <=? index c)%Z.

(** [func (c *Context) Abort()] *)
Definition Abort (c : Context) : Context := set_index abortIndex c.

Definition nil_deref : string := "invalid memory address or nil pointer dereference".

(** [func (c *Context) Status(code int)]; [None] is a panic: the nil
    dereference of a context without a writer, or the writer's refusal of
    the code. *)
Definition Status (code : Z) (c : Context) : option Context :=
  match Writer c with
  | None => None
  | Some w =>
      if wroteHeader w || checkWriteHeaderCode code then
        Some (set_Writer (Some {| rw_header := rw_header w;
                                  rw_calls := rw_calls w ++ [WriteHeader code] |}) c)
      else None
  end.

(** The value [c.Status(code)] panics with, when it does. *)
Definition Status_panic (code : Z) (c : Context) : string :=
  match Writer c with
  | None => nil_deref
  | Some _ => invalid_WriteHeader_code code
  end.

(** [c.Writer.Write(data)]: the writer records the call; [None] is the nil
    dereference of a context without a writer. *)
Definition Writer_Write (data : string) (c : Context) : option Context :=
  match Writer c with
  | None => None
  | Some w =>
      Some (set_Writer (Some {| rw_header := rw_header w;
                                rw_calls := rw_calls w ++ [Write data] |}) c)
  end.

(** [func (c *Context) AbortWithStatus(code int)] *)
Definition AbortWithStatus (code : Z) (c : Context) : option Context :=
  match Status code c with
  | None => None
  | Some c' => Some (Abort c')
  end.

(** [func (c *Context) Header(key, value string)] *)
Definition Header `{Platform} (key value : string) (c : Context) : option Context :=
  match Writer c with
  | None => None
  | Some w =>
      let hd :=
        if decide (value = "") then delete (CanonicalMIMEHeaderKey key) (rw_header w)
        else <[CanonicalMIMEHeaderKey key := [value]]> (rw_header w) in
      Some (set_Writer (Some {| rw_header := hd; rw_calls := rw_calls w |}) c)
  end.

(** [if c.Keys == nil { c.Keys = make(map[string]any) }] *)
Definition Keys_init (h : Heap) (c : Context) : Heap * Context :=
  match Keys c with
  | None =>
      ({| hmaps := hmaps h ++ [∅]; hparams := hparams h |},
       set_Keys (Some (length (hmaps h))) c)
  | Some _ => (h, c)
  end.

(** [m[key] = value] on the map behind the reference [k]. *)
Definition map_assign (key : string) (value : any) (h : Heap) (k : option nat) : Heap :=
  match k with
  | None => h
  | Some a =>
      {| hmaps := alter (λ m, <[key := value]> m) a (hmaps h); hparams := hparams h |}
  end.

(** [func (c *Context) Set(key string, value any)] *)
Definition Set_ (key : string) (value : any) (h : Heap) (c : Context) : Heap * Context :=
  let '(h1, c1) := Keys_init h c in
  (map_assign key value h1 (Keys c1), c1).

(** [func (c *Context) Get(key string) (value any, exists bool)] *)
Definition Get (key : string) (h : Heap) (c : Context) : option any :=
  keys_of h (Keys c) !! key.

(** [c.Params = ps] for a slice of the handler's own showing [ps]. *)
Definition assign_Params (ps : list Param) (h : Heap) (c : Context) : Heap * Context :=
  match ps with
  | [] => (h, set_Params nil_slice c)
  | _ =>
      ({| hmaps := hmaps h; hparams := hparams h ++ [ps] |},
       set_Params (Slice (Some (length (hparams h))) 0 (length ps) (length ps)) c)
  end.

(** [c.Keys = m] for nil or for a map of the handler's own holding [m]. *)
Definition assign_Keys (m : option (gmap string any)) (h : Heap) (c : Context)
  : Heap * Context :=
  match m with
  | None => (h, set_Keys None c)
  | Some m =>
      ({| hmaps := hmaps h ++ [m]; hparams := hparams h |},
       set_Keys (Some (length (hmaps h))) c)
  end.

(** ** Executing handlers *)

(** The machine: the context a handler was given, the stores, and the
    record of what happened so far. *)
Record State := { ctx : Context; heap : Heap; trace : list event }.

Inductive outcome :=
| Finished (s : State)
| Panicked (err : string) (s : State)
| OutOfFuel (s : State).

Definition panicked (o : outcome) : Prop :=
  match o with
  | Panicked _ _ => True
  | _ => False
  end.

(** The execution stopped by itself: it returned or it panicked. *)
Definition stopped (o : outcome) : Prop :=
  match o with
  | OutOfFuel _ => False
  | _ => True
  end.

Definition bind (o : outcome) (f : State → outcome) : outcome :=
  match o with
  | Finished s => f s
  | _ => o
  end.

Definition emit (e : event) (s : State) : State :=
  {| ctx := ctx s; heap := heap s; trace := trace s ++ [e] |}.

Definition with_ctx (c : Context) (s : State) : State :=
  {| ctx := c; heap := heap s; trace := trace s |}.

(** [c.index++] on an [int8]. *)
Definition incr_index (s : State) : State :=
  let i := index (ctx s) in
  let s' := with_ctx (set_index (Int8.wrap (i + 1)) (ctx s)) s in
  if (i =? Int8.MaxInt8)%Z then emit EvOverflow s' else s'.

(** [int8(len(c.handlers))] *)
Definition int8_len (hs : list HandlerFunc) : Z := Int8.wrap (Z.of_nat (length hs)).

(** [c.handlers[c.index]]: a negative or too large index panics. *)
Definition handler_at (hs : list HandlerFunc) (i : Z) : option HandlerFunc :=
  if (i <? 0)%Z then None else hs !! Z.to_nat i.

(** The first [n] bytes of a text. *)
Fixpoint string_take (n : Z) (s : string) : string :=
  match s with
  | EmptyString => EmptyString
  | String a r => if (n <=? 0)%Z then EmptyString else String a (string_take (n - 1) r)
  end.

Definition index_out_of_range : string := "index out of range".

Definition lift (o : option Context) (s : State) (k : State → outcome) : outcome :=
  match o with
  | None => Panicked nil_deref s
  | Some c => k (with_ctx c s)
  end.

Section Exec.
Context `{Platform}.

(** [run fuel p s] executes the body [p] from [s]; [Next_loop] is the
    [for] loop of [func (c *Context) Next()], entered after its first
    [c.index++]. *)
Fixpoint run (fuel : nat) (p : Prog) (s : State) {struct fuel} : outcome :=
  match fuel with
  | O => OutOfFuel s
  | S n =>
      match p with
      | PDone => Finished s
      | PNext k => bind (Next_loop n (incr_index (emit EvNext s))) (run n k)
      | PAbort k => run n k (emit EvAbort (with_ctx (Abort (ctx s)) s))
      | PIsAborted k =>
          run n (k (IsAborted (ctx s))) (emit (EvIsAborted (IsAborted (ctx s))) s)
      | PStatus code k =>
          match Status code (ctx s) with
          | Some c => run n k (with_ctx c s)
          | None => Panicked (Status_panic code (ctx s)) s
          end
      | PHeader key value k => lift (Header key value (ctx s)) s (run n k)
      | PSet key value k =>
          let '(h, c) := Set_ key value (heap s) (ctx s) in
          run n k {| ctx := c; heap := h; trace := trace s |}
      | PGet key k => run n (k (Get key (heap s) (ctx s))) s
      | PRequest k => run n (k (Request (ctx s))) s
      | PStack bufsize k => run n (k (string_take bufsize (goroutine_stack (trace s)))) s
      | PPrint out msg k => run n k (emit (EvPrint out msg) s)
      | PPanic err => Panicked err s
      | PDeferRecover body onpanic k =>
          match run n body s with
          | Finished s' => run n k s'
          | Panicked err s' => bind (run n (onpanic err) s') (run n k)
          | OutOfFuel s' => OutOfFuel s'
          end
      | PSetWriter w k =>
          run n k (emit (EvSetWriter (Writer (ctx s))) (with_ctx (set_Writer w (ctx s)) s))
      | PSetRequest r k => run n k (with_ctx (set_Request r (ctx s)) s)
      | PSetParams ps k =>
          let '(h, c) := assign_Params ps (heap s) (ctx s) in
          run n k {| ctx := c; heap := h; trace := trace s |}
      | PSetKeys m k =>
          let '(h, c) := assign_Keys m (heap s) (ctx s) in
          run n k {| ctx := c; heap := h; trace := trace s |}
      | PWrite data k => lift (Writer_Write data (ctx s)) s (run n k)
      end
  end
with Next_loop (fuel : nat) (s : State) {struct fuel} : outcome :=
  match fuel with
  | O => OutOfFuel s
  | S n =>
      let c := ctx s in
      if (index c <? int8_len (handlers c))%Z then
        match handler_at (handlers c) (index c) with
        | None => Panicked index_out_of_range s
        | Some h =>
            bind (run n h (emit (EvEnter (index c)) s))
                 (λ s', Next_loop n (incr_index s'))
        end
      else Finished s
  end.

(** [func (c *Context) Next()] *)
Definition Next (fuel : nat) (s : State) : outcome :=
  Next_loop fuel (incr_index (emit EvNext s)).

End Exec.

(** ** Recovery middleware *)

Definition nl : string := String (Ascii.ascii_of_nat 10) EmptyString.

(** [c.AbortWithStatus(code)] inside a body: [c.Status(code)], then [c.Abort()]. *)
Definition PAbortWithStatus (code : Z) (k : Prog) : Prog :=
  PStatus code (PAbort k).

(** [64 << 10], the size of the stack buffer. *)
Definition stack_bufsize : Z := Z.shiftl 64 10.

(** [http.StatusInternalServerError] and friends *)
Definition StatusInternalServerError : Z := 500.
Definition StatusBadRequest : Z := 400.
Definition StatusNotFound : Z := 404.

(** The line [Recover] prints: [fmt.Fprintf(os.Stderr,
    "Plum call recovery panic: %s\n%v\n%s\n", string(rawReq), err, buf)]. *)
Definition recovery_line (rawReq err buf : string) : string :=
  "Plum call recovery panic: " +:+ rawReq +:+ nl +:+ err +:+ nl +:+ buf +:+ nl.

Section Recovery.
Context `{Platform}.

(** [if ctx.Request != nil { rawReq, _ = httputil.DumpRequest(ctx.Request,
    false) }]: the dump, empty for a context without request; [None] when
    the call panics. *)
Definition dump_of (req : option http_Request) : option string :=
  match req with
  | Some r => DumpRequest r false
  | None => Some ""
  end.

(** The deferred function of [Recover], entered with the recovered value. *)
Definition Recover_deferred (err : string) : Prog :=
  PStack stack_bufsize (λ buf,
  PRequest (λ req,
    match dump_of req with
    | Some rawReq =>
        PPrint Stderr (recovery_line rawReq err buf)
          (PAbortWithStatus StatusInternalServerError PDone)
    | None => PPanic nil_deref
    end)).

(** [func Recover(handler HandlerFunc) HandlerFunc] *)
Definition Recover : Middleware :=
  λ handler, PDeferRecover handler Recover_deferred PDone.

End Recovery.

(** ** Router *)

Record Router := {
  scope : string;
  basePath : string;
  Router_engine : option unit;
  middlewares : slice;
}.

(** The server object with everything it reaches: the router objects by
    address (address 0 is the embedded [p.Router]), the backing arrays of
    the middleware slices, the patterns and handlers given to the mux, the
    context pool, and what was printed on standard output. *)
Record World := {
  routers : list Router;
  mstore : list (list Middleware);
  mux : list (string * RouterHandler);
  pool : list Context;
  stdout : list string;
}.

Definition set_mstore (st : list (list Middleware)) (w : World) : World :=
  {| routers := routers w; mstore := st; mux := mux w; pool := pool w;
     stdout := stdout w |}.

Definition set_routers (rs : list Router) (w : World) : World :=
  {| routers := rs; mstore := mstore w; mux := mux w; pool := pool w;
     stdout := stdout w |}.

Definition set_middlewares (s : slice) (R : Router) : Router :=
  {| scope := scope R; basePath := basePath R; Router_engine := Router_engine R;
     middlewares := s |}.

Definition set_Router_engine (e : option unit) (R : Router) : Router :=
  {| scope := scope R; basePath := basePath R; Router_engine := e;
     middlewares := middlewares R |}.

(** [strings.HasSuffix(s, suffix)] *)
Definition HasSuffix (s suffix : string) : bool :=
  (String.length suffix <=? String.length s)
  && String.eqb (String.substring (String.length s - String.length suffix)
                           (String.length suffix) s) suffix.

(** The slice a variadic call passes: nil without arguments, a new array
    holding the arguments otherwise. *)
Definition variadic (xs : list Middleware) (w : World) : World * slice :=
  match xs with
  | [] => (w, nil_slice)
  | _ => (set_mstore (mstore w ++ [xs]) w,
          Slice (Some (length (mstore w))) 0 (length xs) (length xs))
  end.

Section Routing.
Context `{Platform}.

(** [func (r *Router) Group(relativePath string, m ...Middleware) *Router],
    on the router at address [r], [m] being the slice the call passes.
    The result is the new world and the address of the new router;
    [None] when [r] is not a router. *)
Definition Group (w : World) (r : nat) (relativePath : string) (m : slice)
  : option (World * nat) :=
  R ← routers w !! r;
  let newScope := scope R +:+ relativePath in
  let newRouter :=
    {| scope := newScope;
       basePath := joinPaths (basePath R) relativePath;
       Router_engine := Router_engine R;
       middlewares := middlewares R |} in
  let '(st, newRouter) :=
    if 0 <? slen m then
      let st1 := slices_Reverse (mstore w) m in
      let '(st2, s) := slices_Concat st1 m (middlewares newRouter) in
      (st2, set_middlewares s newRouter)
    else (mstore w, newRouter) in
  Some (set_routers (routers w ++ [newRouter]) (set_mstore st w),
        length (routers w)).

(** [func (r *Router) Use(m ...Middleware)] *)
Definition Use (w : World) (r : nat) (m : slice) : option World :=
  R ← routers w !! r;
  let st1 := slices_Reverse (mstore w) m in
  let '(st2, s) := slices_Concat st1 m (middlewares R) in
  Some (set_routers (<[r := set_middlewares s R]> (routers w)) (set_mstore st2 w)).

(** [r.Group(relativePath, xs...)] and [r.Use(xs...)] with the middleware
    written out as arguments. *)
Definition Group_args (w : World) (r : nat) (relativePath : string)
  (xs : list Middleware) : option (World * nat) :=
  let '(w1, m) := variadic xs w in Group w1 r relativePath m.

Definition Use_args (w : World) (r : nat) (xs : list Middleware) : option World :=
  let '(w1, m) := variadic xs w in Use w1 r m.

(** [func (r *Router) withMiddlewares(handler HandlerFunc) HandlerFunc] *)
Definition withMiddlewares (w : World) (R : Router) (handler : HandlerFunc)
  : HandlerFunc :=
  foldl (λ handler middleware, middleware handler) handler
        (slice_elems (mstore w) (middlewares R)).

(** The pattern [Handle] builds from its arguments. *)
Definition Handle_pattern (R : Router) (method route : string) : string :=
  let route := if HasSuffix route "/" then route +:+ "{$}" else route in
  method +:+ " " +:+ scope R +:+ route.

(** [mux.Handle(pattern, rh)]: the registration, or the panic of the mux. *)
Definition mux_Handle (w : World) (pattern : string) (rh : RouterHandler)
  : option World :=
  if mux_accepts (mux w).*1 pattern then
    Some {| routers := routers w; mstore := mstore w;
            mux := mux w ++ [(pattern, rh)]; pool := pool w;
            stdout := stdout w |}
  else None.

Definition Println (line : string) (w : World) : World :=
  {| routers := routers w; mstore := mstore w; mux := mux w; pool := pool w;
     stdout := stdout w ++ [line] |}.

(** [func (r *Router) Handle(method, route string, handler HandlerFunc)];
    [None] when the call panics (no router at [r], a nil engine, or a
    pattern the mux refuses). *)
Definition Handle (w : World) (r : nat) (method route : string)
  (handler : HandlerFunc) : option World :=
  R ← routers w !! r;
  let rh := {| rh_engine := Router_engine R; rh_h := withMiddlewares w R handler |} in
  let w1 := Println (Handle_pattern R method route) w in
  match Router_engine R with
  | None => None
  | Some _ => mux_Handle w1 (Handle_pattern R method route) rh
  end.

Definition GET (w : World) (r : nat) (route : string) (handler : HandlerFunc) :=
  Handle w r "GET" route handler.

Definition POST (w : World) (r : nat) (route : string) (handler : HandlerFunc) :=
  Handle w r "POST" route handler.

(** ** pprof routes *)

Definition DefaultPrefix : string := "/debug/pprof".

Definition getPrefix (prefixOptions : list string) : string :=
  match prefixOptions with
  | p :: _ => p
  | [] => DefaultPrefix
  end.

(** [func RoutePerf(rg *Router, prefixOptions ...string)] *)
Definition RoutePerf (w : World) (rg : nat) (prefixOptions : list string)
  : option World :=
  let prefix := getPrefix prefixOptions in
  '(w, prefixRouter) ← Group w rg prefix nil_slice;
  w ← GET w prefixRouter "/" (pprof_handler "Index");
  w ← GET w prefixRouter "/cmdline" (pprof_handler "Cmdline");
  w ← GET w prefixRouter "/profile" (pprof_handler "Profile");
  w ← POST w prefixRouter "/symbol" (pprof_handler "Symbol");
  w ← GET w prefixRouter "/symbol" (pprof_handler "Symbol");
  w ← GET w prefixRouter "/trace" (pprof_handler "Trace");
  w ← GET w prefixRouter "/allocs" (pprof_handler "allocs");
  w ← GET w prefixRouter "/block" (pprof_handler "block");
  w ← GET w prefixRouter "/goroutine" (pprof_handler "goroutine");
  w ← GET w prefixRouter "/heap" (pprof_handler "heap");
  w ← GET w prefixRouter "/mutex" (pprof_handler "mutex");
  GET w prefixRouter "/threadcreate" (pprof_handler "threadcreate").

(** ** Server *)

(** [func New(opt ...ServerOption) *Plum]; the options only fill [opts],
    which the pipeline below does not read. *)
Definition New : option World :=
  let p :=
    {| routers := [ {| scope := ""; basePath := "/"; Router_engine := None;
                       middlewares := nil_slice |} ];
       mstore := []; mux := []; pool := []; stdout := [] |} in
  p ← Use_args p 0 [Recover];
  let p := set_routers (alter (set_Router_engine (Some ())) 0 (routers p)) p in
  RoutePerf p 0 [].

(** [p.pool.Get()]: a context put back earlier, or a new one from
    [allocateContext]. *)
Definition pool_Get (pl : list Context) : Context * list Context :=
  match pl with
  | c :: rest => (c, rest)
  | [] => (zero_Context, [])
  end.

Definition pool_Put (c : Context) (pl : list Context) : list Context := c :: pl.

(** What a call of a ServeHTTP method leaves: how the handler ended, and
    the pool. *)
Record Served := { sv_outcome : outcome; sv_pool : list Context }.

(** The context [RouterHandler.ServeHTTP] hands to the handler: the one
    taken from the pool, with writer, request and engine assigned, after
    [reset]. *)
Definition served_Context (r : RouterHandler) (c : Context)
  (w : http_ResponseWriter) (req : http_Request) : Context :=
  reset {| Request := Some req; Writer := Some w; Params := Params c;
           handlers := handlers c; index := index c; engine := rh_engine r;
           Keys := Keys c; sameSite := sameSite c |}.

(** [func (r *RouterHandler) ServeHTTP(w http.ResponseWriter, req *http.Request)];
    without an engine the first line is a nil dereference. *)
Definition RouterHandler_ServeHTTP (fuel : nat) (r : RouterHandler)
  (pl : list Context) (hp : Heap) (w : http_ResponseWriter) (req : http_Request)
  : Served :=
  match rh_engine r with
  | None =>
      {| sv_outcome := Panicked nil_deref {| ctx := zero_Context; heap := hp; trace := [] |};
         sv_pool := pl |}
  | Some _ =>
      let '(c, pl1) := pool_Get pl in
      let c := served_Context r c w req in
      match run fuel (rh_h r) {| ctx := c; heap := hp; trace := [] |} with
      | Finished s => {| sv_outcome := Finished s; sv_pool := pool_Put (ctx s) pl1 |}
      | o => {| sv_outcome := o; sv_pool := pl1 |}
      end
  end.

(** The state an execution was in when it returned, panicked or was cut
    off. *)
Definition last_state (o : outcome) : State :=
  match o with
  | Finished s | Panicked _ s | OutOfFuel s => s
  end.

(** The writer the context was given, as it was when the handler first
    assigned [c.Writer], if it did. *)
Definition first_detached (tr : list event) : option (option http_ResponseWriter) :=
  head (omap (λ e, match e with EvSetWriter old => Some old | _ => None end) tr).

(** The response a served request ends with: what was done to the writer
    of the call, which the context holds until the handler assigns
    [c.Writer]. *)
Definition response_of (res : http_ResponseWriter) (o : outcome) : http_ResponseWriter :=
  match first_detached (trace (last_state o)) with
  | Some old => default res old
  | None => default res (Writer (ctx (last_state o)))
  end.

(** The lines printed on standard output, in order. *)
Definition stdout_lines (tr : list event) : list string :=
  omap (λ e, match e with EvPrint Stdout msg => Some msg | _ => None end) tr.

(** [http.NotFound] and the other replies the mux answers by itself. *)
Definition http_Error (code : Z) (body : string) (res : http_ResponseWriter)
  : http_ResponseWriter :=
  {| rw_header :=
       <["X-Content-Type-Options" := ["nosniff"]]>
         (<["Content-Type" := ["text/plain; charset=utf-8"]]> (rw_header res));
     rw_calls := rw_calls res ++ [WriteHeader code; Write body] |}.

(** [h.ServeHTTP(res, req)] for the handler the mux returned. *)
Definition http_Handler_ServeHTTP (fuel : nat) (h : http_Handler)
  (pl : list Context) (hp : Heap) (res : http_ResponseWriter) (req : http_Request)
  : http_ResponseWriter * Served :=
  match h with
  | HRoute rh =>
      let sv := RouterHandler_ServeHTTP fuel rh pl hp res req in
      (response_of res (sv_outcome sv), sv)
  | HNotFound =>
      (http_Error StatusNotFound ("404 page not found" +:+ nl) res,
       {| sv_outcome := Finished {| ctx := zero_Context; heap := hp; trace := [] |};
          sv_pool := pl |})
  | HOther code =>
      (http_Error code "" res,
       {| sv_outcome := Finished {| ctx := zero_Context; heap := hp; trace := [] |};
          sv_pool := pl |})
  end.

(** What [Plum.ServeHTTP] leaves: the response, the lines printed on
    standard output during the call, the panic that left it, and the
    pool. *)
Record Reply := {
  reply_res : http_ResponseWriter;
  reply_stdout : list string;
  reply_panic : option string;
  reply_pool : list Context;
}.

(** [func (p *Plum) ServeHTTP(res http.ResponseWriter, req *http.Request)] *)
Definition ServeHTTP (fuel : nat) (p : World) (hp : Heap)
  (res : http_ResponseWriter) (req : http_Request) : Reply :=
  if String.eqb (RequestURI req) "*" then
    let res1 :=
      if ProtoAtLeast req 1 1 then
        {| rw_header := <[CanonicalMIMEHeaderKey "Connection" := ["close"]]> (rw_header res);
           rw_calls := rw_calls res |}
      else res in
    {| reply_res := {| rw_header := rw_header res1;
                       rw_calls := rw_calls res1 ++ [WriteHeader StatusBadRequest] |};
       reply_stdout := []; reply_panic := None; reply_pool := pool p |}
  else
    let '(h, pt) := mux_Handler (mux p) req in
    if String.eqb pt "" then
      {| reply_res := res; reply_stdout := ["not found "]; reply_panic := None;
         reply_pool := pool p |}
    else
      let '(res1, sv) := http_Handler_ServeHTTP fuel h (pool p) hp res req in
      {| reply_res := res1;
         reply_stdout := stdout_lines (trace (last_state (sv_outcome sv)));
         reply_panic := match sv_outcome sv with Panicked e _ => Some e | _ => None end;
         reply_pool := sv_pool sv |}.

End Routing.

(** ** A platform to evaluate on

    A mux that matches a request against the registered patterns letter by
    letter and refuses a pattern registered twice; the other collaborators
    are as small as their types allow. *)

Definition literal_Handler (regs : list (string * RouterHandler)) (req : http_Request)
  : http_Handler * string :=
  match list_find (λ e, e.1 = Method req +:+ " " +:+ URLPath req) regs with
  | Some (_, (pat, rh)) => (HRoute rh, pat)
  | None => (HNotFound, "")
  end.

Definition literal_platform : Platform :=
  {| CanonicalMIMEHeaderKey := id;
     goroutine_stack := λ _, "goroutine 1 [running]:";
     DumpRequest := λ r _, Some (Method r +:+ " " +:+ RequestURI r +:+ " HTTP/1.1");
     mux_accepts := λ pats pat, bool_decide (pat ∉ pats);
     mux_Handler := literal_Handler;
     joinPaths := λ a b, a +:+ b;
     pprof_handler := λ _, PDone |}.

Definition empty_Heap : Heap := {| hmaps := []; hparams := [] |}.

(** A handler that prints one line. *)
Definition say (line : string) : HandlerFunc := PPrint Stdout line PDone.

(** A middleware that prints one line before it calls the handler it wraps. *)
Definition announce (line : string) : Middleware := λ handler, PPrint Stdout line handler.



Definition get_request (path : string) : http_Request :=
  {| Method := "GET"; RequestURI := path; URLPath := path;
     ProtoMajor := 1; ProtoMinor := 1 |}.






(** The world [New()] returns on this platform. *)
Definition empty_World : World :=
  {| routers := []; mstore := []; mux := []; pool := []; stdout := [] |}.

Definition plum0 : World := default empty_World (New (H := literal_platform)).

(** A context whose response already carries a header. *)
Definition tagged_Context : Context :=
  {| Request := None;
     Writer := Some {| rw_header := {["X-Token" := ["abc"]]}; rw_calls := [] |};
     Params := nil_slice; handlers := []; index := 0; engine := None;
     Keys := None; sameSite := 0 |}.

(** A handler that answers 200 and prints a line. *)
Definition hello : HandlerFunc := PStatus 200 (PPrint Stdout "hello" PDone).

(** The routes of the README: [/hello] at the root, [/1/hello] under the
    group [/1], [/2/3/hello] under the groups [/2] and [/3]. *)
Definition readme_routes : option World :=
  let H := literal_platform in
  p ← New;
  p ← GET p 0 "/hello" hello;
  '(p, r1) ← Group_args p 0 "/1" [];
  p ← GET p r1 "/hello" hello;
  '(p, r2) ← Group_args p 0 "/2" [];
  '(p, r3) ← Group_args p r2 "/3" [];
  GET p r3 "/hello" hello.

Definition readme_World : World := default empty_World readme_routes.

(** A handler that panics after a line of output, and the world in which
    it is registered on the root router. *)
Definition boom : HandlerFunc := PPrint Stdout "working" (PPanic "boom").

Definition boom_World : World :=
  default empty_World (Handle (H := literal_platform) plum0 0 "GET" "/boom" boom).

Definition rh_boom : RouterHandler :=
  {| rh_h := Recover (H := literal_platform) boom; rh_engine := Some () |}.




(** A context in the middle of a request: two parameters in an array of
    four, a bag with one entry, a chain position. *)
Definition busy_Heap : Heap :=
  {| hmaps := [{["user" := AnyString "ada"]}];
     hparams := [[ {| Key := "id"; Value := "7" |}; {| Key := "tab"; Value := "x" |};
                   zero_Param; zero_Param ]] |}.

Definition busy_Context : Context :=
  {| Request := Some (get_request "/users/7/x");
     Writer := Some fresh_response;
     Params := Slice (Some 0) 0 2 4;
     handlers := [];
     index := 3;
     engine := Some ();
     Keys := Some 0;
     sameSite := 2 |}.

(** ** Properties of traces and of worlds *)

Global Instance stream_eq_dec : EqDecision stream.
Proof. solve_decision. Defined.

Global Instance wcall_eq_dec : EqDecision wcall.
Proof. solve_decision. Defined.

Global Instance http_ResponseWriter_eq_dec : EqDecision http_ResponseWriter.
Proof. solve_decision. Defined.

Global Instance event_eq_dec : EqDecision event.
Proof. solve_decision. Defined.

(** The positions of the handlers [Next] invoked, in order. *)
Definition entered (tr : list event) : list Z :=
  omap (λ e, match e with EvEnter j => Some j | _ => None end) tr.








(** [ends o P]: the state the execution was in when it returned, panicked
    or was cut off satisfies [P]. *)
Definition ends (o : outcome) (P : State → Prop) : Prop :=
  match o with
  | Finished s | Panicked _ s | OutOfFuel s => P s
  end.

Section Primitive.
Context `{Platform}.

(** One change of the machine state during an execution: what a call on
    the context does, or what the loop of [Next] does around a handler. *)
Inductive prim : State → State → Prop :=
| prim_Next s :
    prim s (incr_index (emit EvNext s))
| prim_enter s h :
    (index (ctx s) < int8_len (handlers (ctx s)))%Z →
    handler_at (handlers (ctx s)) (index (ctx s)) = Some h →
    prim s (emit (EvEnter (index (ctx s))) s)
| prim_leave s :
    handlers (ctx s) ≠ [] →
    prim s (incr_index s)
| prim_Abort s :
    prim s (emit EvAbort (with_ctx (Abort (ctx s)) s))
| prim_IsAborted s :
    prim s (emit (EvIsAborted (IsAborted (ctx s))) s)
| prim_Status s code c :
    Status code (ctx s) = Some c → prim s (with_ctx c s)
| prim_Header s key value c :
    Header key value (ctx s) = Some c → prim s (with_ctx c s)
| prim_Set s key value :
    prim s {| ctx := (Set_ key value (heap s) (ctx s)).2;
              heap := (Set_ key value (heap s) (ctx s)).1;
              trace := trace s |}
| prim_Print s out msg :
    prim s (emit (EvPrint out msg) s)
| prim_SetWriter s w :
    prim s (emit (EvSetWriter (Writer (ctx s))) (with_ctx (set_Writer w (ctx s)) s))
| prim_SetRequest s r :
    prim s (with_ctx (set_Request r (ctx s)) s)
| prim_SetParams s ps :
    prim s {| ctx := (assign_Params ps (heap s) (ctx s)).2;
              heap := (assign_Params ps (heap s) (ctx s)).1;
              trace := trace s |}
| prim_SetKeys s m :
    prim s {| ctx := (assign_Keys m (heap s) (ctx s)).2;
              heap := (assign_Keys m (heap s) (ctx s)).1;
              trace := trace s |}
| prim_Write s data c :
    Writer_Write data (ctx s) = Some c → prim s (with_ctx c s).

End Primitive.

Definition zero_Router : Router :=
  {| scope := ""; basePath := ""; Router_engine := None; middlewares := nil_slice |}.

(** Every router's middleware slice describes an array of the store. *)
Definition world_ok (w : World) : Prop :=
  ∀ Q, Q ∈ routers w → slice_ok (mstore w) (middlewares Q).

(** A slice held by client code: [middlewares] is not exported, so no
    router's list lives in the array of such a slice. *)
Definition caller_owned (w : World) (m : slice) : Prop :=
  ∀ Q, Q ∈ routers w → sbase m = None ∨ sbase (middlewares Q) ≠ sbase m.

(** A call of [r.Use] by client code: with the middleware written out as
    arguments, or with a slice of its own spread. *)
Definition Use_call (w : World) (r : nat) (w' : World) : Prop :=
  (∃ xs, Use_args w r xs = Some w')
  ∨ (∃ m, slice_ok (mstore w) m ∧ caller_owned w m ∧ Use w r m = Some w').

(** Client code writing an array of its own, or allocating one. *)
Definition store_put (a : nat) (arr : list Middleware) (st : list (list Middleware))
  : list (list Middleware) :=
  if decide (a = length st) then st ++ [arr] else <[a := arr]> st.

Definition set_pool (pl : list Context) (w : World) : World :=
  {| routers := routers w; mstore := mstore w; mux := mux w; pool := pl;
     stdout := stdout w |}.

Section Reachability.
Context `{Platform}.

(** What client code can do to a world through the exported interface:
    call Group, Use and Handle (with arguments written out or with a slice
    of its own), write and allocate arrays of its own, declare a router
    variable or copy a router value, serve requests. *)
Inductive step : World → World → Prop :=
| step_Group w r relativePath xs w' g :
    Group_args w r relativePath xs = Some (w', g) → step w w'
| step_Use w r xs w' :
    Use_args w r xs = Some w' → step w w'
| step_Group_slice w r relativePath m w' g :
    slice_ok (mstore w) m → caller_owned w m →
    Group w r relativePath m = Some (w', g) → step w w'
| step_Use_slice w r m w' :
    slice_ok (mstore w) m → caller_owned w m →
    Use w r m = Some w' → step w w'
| step_Handle w r method route handler w' :
    Handle w r method route handler = Some w' → step w w'
| step_caller_array w a arr :
    a ≤ length (mstore w) →
    (∀ Q, Q ∈ routers w → sbase (middlewares Q) ≠ Some a) →
    step w (set_mstore (store_put a arr (mstore w)) w)
| step_zero_Router w :
    step w (set_routers (routers w ++ [zero_Router]) w)
| step_copy_Router w q Q :
    routers w !! q = Some Q →
    step w (set_routers (routers w ++ [Q]) w)
| step_pool w pl :
    step w (set_pool pl w).

(** The worlds a program gets to from [New()]. *)
Definition reachable (w : World) : Prop :=
  ∃ w0, New = Some w0 ∧ rtc step w0 w.

(** Every router that has an engine ends its middleware list with
    [Recover], and every registered handler is [Recover] around the rest. *)
Definition recovering (w : World) : Prop :=
  (∀ Q, Q ∈ routers w → is_Some (Router_engine Q) →
        ∃ l, slice_elems (mstore w) (middlewares Q) = l ++ [Recover])
  ∧ (∀ pat rh, (pat, rh) ∈ mux w →
        rh_engine rh = Some () ∧ ∃ inner, rh_h rh = Recover inner).

Definition sound (w : World) : Prop := world_ok w ∧ recovering w.

End Reachability.

(** ** Further parts of the package: collaborators

    More of what the package calls and does not define. *)

(** What is handed to [json.Marshal]: a value, or an [error]. *)
Inductive json_arg := JSON_any (v : any) | JSON_error (err : string).

(** What the [Handler] of an [http.Server] is: this Plum, or something
    else; and the fields of the server the package sets. *)
Inductive handler_ref := ThePlum | OtherHandler (name : nat).

Record http_Server := {
  srv_Handler : option handler_ref;
  srv_Addr : string;
  srv_ReadHeaderTimeout : Z;
}.

Class Library := {
  (** [req.URL.Query()] *)
  req_Query : http_Request → gmap string (list string);
  (** [req.Header.Get(key)] *)
  req_Header_Get : http_Request → string → string;
  (** [req.Context().Value(key)] *)
  req_Context_Value : http_Request → any → option any;
  (** [json.Marshal(obj)]: the bytes, or the error *)
  json_Marshal : json_arg → string + string;
  (** [template.JSEscapeString] *)
  JSEscapeString : string → string;
  (** [writeContentType(w, value)], the helper of the render package *)
  writeContentType : http_ResponseWriter → list string → http_ResponseWriter;
  (** the error [w.Write(data)] returns, if any *)
  Write_error : http_ResponseWriter → string → option string;
  (** what the configured logger does with [Log.Error(format, err)] *)
  Log_Error : string → string → list event;
  (** the capacity [append] gives a new array, from the old capacity and
      the length needed *)
  append_cap : nat → nat → nat;
  (** [srv.ListenAndServe()], [srv.ListenAndServeTLS(cert, key)],
      [srv.Serve(lis)] and [srv.Shutdown(ctx)]: the error returned *)
  ListenAndServe : http_Server → option string;
  ListenAndServeTLS : http_Server → string → string → option string;
  Serve : http_Server → nat → option string;
  Shutdown_srv : http_Server → option string;
}.

(** ** Further parts of the package: the context *)

(** The reference [c.Keys] points into the store. *)
Definition keys_ok (h : Heap) (c : Context) : Prop :=
  match Keys c with
  | Some a => a < length (hmaps h)
  | None => True
  end.

(** A slice header whose whole capacity lies in its array. *)
Definition slice_room {A} (h : list (list A)) (s : slice) : Prop :=
  slen s ≤ scap s
  ∧ match sbase s with
    | None => scap s = 0
    | Some a => ∃ arr, h !! a = Some arr ∧ soff s + scap s ≤ length arr
    end.

(** [append(s, x)]: within the capacity the element is written into the
    array of [s]; beyond it a new array is allocated, of the capacity the
    runtime chooses (at least the length needed). *)
Definition append_slice {A} (newcap : nat → nat → nat) (zero : A)
  (h : list (list A)) (s : slice) (x : A) : list (list A) * slice :=
  if slen s <? scap s then
    match sbase s with
    | Some a =>
        (alter (λ arr, <[soff s + slen s := x]> arr) a h,
         Slice (Some a) (soff s) (S (slen s)) (scap s))
    | None => (h, s)  (* not reached: the nil slice has capacity 0 *)
    end
  else
    let c := S (slen s) `max` newcap (scap s) (S (slen s)) in
    (h ++ [slice_elems h s ++ x :: replicate (c - S (slen s)) zero],
     Slice (Some (length h)) 0 (S (slen s)) c).

(** [strings.IndexByte(s, c)]: where [c] first occurs in [s], or -1. *)
Fixpoint IndexByte (s : string) (c : Ascii.ascii) : Z :=
  match s with
  | EmptyString => -1
  | String a r =>
      if Ascii.eqb a c then 0
      else let i := IndexByte r c in if (i <? 0)%Z then -1 else (i + 1)%Z
  end.

(** [s[lo:hi]] and [s[lo:]] *)
Definition str_slice (s : string) (lo hi : Z) : string :=
  String.substring (Z.to_nat lo) (Z.to_nat (hi - lo)) s.

Definition str_from (s : string) (lo : Z) : string :=
  String.substring (Z.to_nat lo) (String.length s - Z.to_nat lo) s.

(** The body of the loop of [func (c *Context) get]: the name between the
    brackets of [k], when [k] is [key] followed by a bracketed name. *)
Definition key_sub (k key : string) : option string :=
  let i := IndexByte k "["%char in
  if (1 <=? i)%Z && String.eqb (str_slice k 0 i) key then
    let j := IndexByte (str_from k (i + 1)) "]"%char in
    if (1 <=? j)%Z then Some (str_slice (str_from k (i + 1)) 0 j) else None
  else None.

(** [func (c *Context) get(m map[string][]string, key string)], [m] given
    as the pairs in the order the [range] yields them; [None] is the
    panic of [v[0]] on an empty value list. *)
Fixpoint get_loop (m : list (string * list string)) (key : string)
  (dicts : gmap string string) (exist : bool) : option (gmap string string * bool) :=
  match m with
  | [] => Some (dicts, exist)
  | (k, v) :: rest =>
      match key_sub k key with
      | Some sub =>
          match v with
          | [] => None
          | v0 :: _ => get_loop rest key (<[sub := v0]> dicts) true
          end
      | None => get_loop rest key dicts exist
      end
  end.

Definition Context_get (m : list (string * list string)) (key : string)
  : option (gmap string string * bool) :=
  get_loop m key ∅ false.

(** [func filterFlags(content string) string]; the Go loop goes over the
    runes of the text, and the two bytes it looks for are runes of their
    own wherever they occur, so going over the bytes is the same. *)
Fixpoint filterFlags (content : string) : string :=
  match content with
  | EmptyString => EmptyString
  | String char rest =>
      if Ascii.eqb char " "%char || Ascii.eqb char ";"%char then EmptyString
      else String char (filterFlags rest)
  end.

(** [func bodyAllowedForStatus(status int) bool] *)
Definition bodyAllowedForStatus (status : Z) : bool :=
  if (100 <=? status)%Z && (status <=? 199)%Z then false
  else if (status =? 204)%Z then false
  else if (status =? 304)%Z then false
  else true.

(** A [render.Render]: its two methods, on the writer they are given.
    [r_Render] returns the error, if any. *)
Record render_Render := {
  r_WriteContentType : http_ResponseWriter → http_ResponseWriter;
  r_Render : http_ResponseWriter → http_ResponseWriter * option string;
}.

(** A [binding.Binding]: the error of [Bind(req, obj)], if any. *)
Record binding_Binding := {
  b_Name : string;
  b_Bind : option http_Request → option string;
}.

(** What [Context.Value] returns: the request pointer, a value, or nil. *)
Inductive Value_result :=
| Value_Request (r : option http_Request)
| Value_any (v : any)
| Value_nil.

Definition jsonContentType : list string := ["application/json; charset=utf-8"].
Definition jsonpContentType : list string := ["application/javascript; charset=utf-8"].

Section MoreContext.
Context `{Library}.

(** [func (c *Context) AddParam(key, value string)] *)
Definition AddParam (key value : string) (h : Heap) (c : Context) : Heap * Context :=
  let '(arrs, ps) :=
    append_slice append_cap zero_Param (hparams h) (Params c)
                 {| Key := key; Value := value |} in
  ({| hmaps := hmaps h; hparams := arrs |}, set_Params ps c).

(** [func (c *Context) urlQuery() map[string][]string] *)
Definition urlQuery (c : Context) : gmap string (list string) :=
  match Request c with
  | Some r => req_Query r
  | None => ∅
  end.

(** [func (c *Context) GetQueryArray(key string) (values []string, ok bool)] *)
Definition GetQueryArray (c : Context) (key : string) : list string * bool :=
  match urlQuery c !! key with
  | Some values => (values, true)
  | None => ([], false)
  end.

(** [func (c *Context) GetQuery(key string) (string, bool)]; [None] is
    the panic of [values[0]]. *)
Definition GetQuery (c : Context) (key : string) : option (string * bool) :=
  let '(values, ok) := GetQueryArray c key in
  if ok then
    match values with
    | v0 :: _ => Some (v0, ok)
    | [] => None
    end
  else Some ("", false).

(** [func (c *Context) Query(key string) (value string)] *)
Definition Query (c : Context) (key : string) : option string :=
  '(value, _) ← GetQuery c key; Some value.

(** [func (c *Context) DefaultQuery(key, defaultValue string) string] *)
Definition DefaultQuery (c : Context) (key defaultValue : string) : option string :=
  '(value, ok) ← GetQuery c key;
  if ok : bool then Some value else Some defaultValue.

(** [func (c *Context) QueryArray(key string) (values []string)] *)
Definition QueryArray (c : Context) (key : string) : list string :=
  (GetQueryArray c key).1.

(** [func (c *Context) requestHeader(key string) string]; [None] is the
    nil dereference of a context without request. *)
Definition requestHeader (c : Context) (key : string) : option string :=
  r ← Request c; Some (req_Header_Get r key).

(** [func (c *Context) ContentType() string] *)
Definition ContentType (c : Context) : option string :=
  filterFlags <$> requestHeader c "Content-Type".

(** [func (c *Context) hasRequestContext() bool]; the context of a
    request is never nil. *)
Definition hasRequestContext (c : Context) : bool :=
  match Request c with
  | Some _ => true
  | None => false
  end.

(** [func (c *Context) Value(key any) any] *)
Definition Context_Value (h : Heap) (c : Context) (key : any) : Value_result :=
  match key with
  | AnyInt 0 => Value_Request (Request c)
  | _ =>
      let found :=
        match key with
        | AnyString keyAsString => Get keyAsString h c
        | _ => None
        end in
      match found with
      | Some val => Value_any val
      | None =>
          if negb (hasRequestContext c) then Value_nil
          else
            match Request c with
            | None => Value_nil
            | Some r =>
                match req_Context_Value r key with
                | Some v => Value_any v
                | None => Value_nil
                end
            end
      end
  end.

(** [w.Write(data)]: the call, and its error. *)
Definition w_Write (w : http_ResponseWriter) (data : string)
  : http_ResponseWriter * option string :=
  ({| rw_header := rw_header w; rw_calls := rw_calls w ++ [Write data] |},
   Write_error w data).

(** [func WriteJSON(w http.ResponseWriter, obj any) error] *)
Definition WriteJSON (w : http_ResponseWriter) (obj : json_arg)
  : http_ResponseWriter * option string :=
  let w := writeContentType w jsonContentType in
  match json_Marshal obj with
  | inr err => (w, Some err)
  | inl jsonBytes => w_Write w jsonBytes
  end.

(** [render.JSON{Data: obj}] *)
Definition render_JSON (obj : json_arg) : render_Render :=
  {| r_WriteContentType := λ w, writeContentType w jsonContentType;
     r_Render := λ w, WriteJSON w obj |}.

(** [func (r JsonpJSON) Render(w http.ResponseWriter) (err error)] *)
Definition JsonpJSON_Render (Callback : string) (Data : json_arg)
  (w : http_ResponseWriter) : http_ResponseWriter * option string :=
  let w := writeContentType w jsonpContentType in
  match json_Marshal Data with
  | inr err => (w, Some err)
  | inl ret =>
      if decide (Callback = "") then w_Write w ret
      else
        let callback := JSEscapeString Callback in
        let '(w, err) := w_Write w callback in
        if err is Some e then (w, Some e) else
        let '(w, err) := w_Write w "(" in
        if err is Some e then (w, Some e) else
        let '(w, err) := w_Write w ret in
        if err is Some e then (w, Some e) else
        let '(w, err) := w_Write w ");" in
        if err is Some e then (w, Some e) else
        (w, None)
  end.

(** [render.JsonpJSON{Callback: callback, Data: obj}] *)
Definition render_JsonpJSON (Callback : string) (Data : json_arg) : render_Render :=
  {| r_WriteContentType := λ w, writeContentType w jsonpContentType;
     r_Render := JsonpJSON_Render Callback Data |}.

(** [func (c *Context) Render(code int, r render.Render)] *)
Definition Context_Render (code : Z) (r : render_Render) (s : State) : outcome :=
  match Status code (ctx s) with
  | None => Panicked (Status_panic code (ctx s)) s
  | Some c1 =>
    let s1 := with_ctx c1 s in
    match Writer (ctx s1) with
    | None => Panicked nil_deref s1
    | Some w1 =>
        if negb (bodyAllowedForStatus code) then
          Finished (with_ctx (set_Writer (Some (r_WriteContentType r w1)) (ctx s1)) s1)
        else
          let '(w2, err) := r_Render r w1 in
          let s2 := with_ctx (set_Writer (Some w2) (ctx s1)) s1 in
          match err with
          | None => Finished s2
          | Some e =>
              match engine (ctx s2) with
              | None => Panicked nil_deref s2
              | Some _ =>
                  let s3 :=
                    {| ctx := ctx s2; heap := heap s2;
                       trace := trace s2 ++ Log_Error "Render error %+v" e |} in
                  Finished (emit EvAbort (with_ctx (Abort (ctx s3)) s3))
              end
          end
    end
  end.

(** [func (c *Context) JSON(code int, obj any)] *)
Definition Context_JSON (code : Z) (obj : json_arg) (s : State) : outcome :=
  Context_Render code (render_JSON obj) s.

(** [func (c *Context) JSONP(code int, obj any)] *)
Definition Context_JSONP (code : Z) (obj : json_arg) (s : State) : outcome :=
  match DefaultQuery (ctx s) "callback" "" with
  | None => Panicked index_out_of_range s
  | Some callback =>
      if decide (callback = "") then Context_Render code (render_JSON obj) s
      else Context_Render code (render_JsonpJSON callback obj) s
  end.

(** [func (c *Context) Redirect(code int, location string)], for the
    [render.Redirect] value [r] built from the code, the location and the
    request. *)
Definition Context_Redirect (r : Z → string → option http_Request → render_Render)
  (code : Z) (location : string) (s : State) : outcome :=
  Context_Render (-1) (r code location (Request (ctx s))) s.

(** [func (c *Context) AbortWithStatusJSON(code int, jsonObj any)] *)
Definition AbortWithStatusJSON (code : Z) (jsonObj : json_arg) (s : State) : outcome :=
  Context_JSON code jsonObj (emit EvAbort (with_ctx (Abort (ctx s)) s)).

(** [func (c *Context) ShouldBindWith(obj any, b binding.Binding) error] *)
Definition ShouldBindWith (b : binding_Binding) (c : Context) : option string :=
  b_Bind b (Request c).

(** [func (c *Context) MustBindWith(obj any, b binding.Binding) error]:
    how the call ends, and in the state the error returned. *)
Definition MustBindWith (b : binding_Binding) (s : State) : outcome * option string :=
  match ShouldBindWith b (ctx s) with
  | Some err => (AbortWithStatusJSON StatusBadRequest (JSON_error err) s, Some err)
  | None => (Finished s, None)
  end.

End MoreContext.

(** ** Further parts of the package: options and life cycle *)

(** A [Logger] and an [HTMLRender] are objects the options only store:
    each is kept as the name of the object. *)
Definition Logger : Type := nat.
Definition HTMLRender_obj : Type := nat.

Record serverOptions := {
  Log : Logger;
  MaxMultipartMemory : Z;
  readHeaderTimeout : Z;
  HTMLRender : option HTMLRender_obj;
}.

(** [const defaultMultipartMemory = 32 << 20] *)
Definition defaultMultipartMemory : Z := Z.shiftl 32 20.

(** [time.Second], in nanoseconds *)
Definition time_Second : Z := 1000000000.

(** The logger built by [slog.New(...)] for the defaults. *)
Definition default_Logger : Logger := 0.

Definition defaultServerOptions : serverOptions :=
  {| Log := default_Logger;
     MaxMultipartMemory := defaultMultipartMemory;
     readHeaderTimeout := time_Second * 45;
     HTMLRender := None |}.

(** A [ServerOption] is a [funcServerOption]: the function it wraps. *)
Definition ServerOption : Type := serverOptions → serverOptions.

(** [func (fdo *funcServerOption) apply(do *serverOptions)] *)
Definition apply (fdo : ServerOption) (do : serverOptions) : serverOptions := fdo do.

(** [func ReadHeaderTimeout(d time.Duration) ServerOption] *)
Definition ReadHeaderTimeout (d : Z) : ServerOption :=
  λ o, {| Log := Log o; MaxMultipartMemory := MaxMultipartMemory o;
          readHeaderTimeout := d; HTMLRender := HTMLRender o |}.

(** [func HTMLRender(d render.HTMLRender) ServerOption] *)
Definition HTMLRender_option (d : HTMLRender_obj) : ServerOption :=
  λ o, {| Log := Log o; MaxMultipartMemory := MaxMultipartMemory o;
          readHeaderTimeout := readHeaderTimeout o; HTMLRender := Some d |}.

(** [func WithLogger(log Logger) ServerOption] *)
Definition WithLogger (log : Logger) : ServerOption :=
  λ o, {| Log := log; MaxMultipartMemory := MaxMultipartMemory o;
          readHeaderTimeout := readHeaderTimeout o; HTMLRender := HTMLRender o |}.

(** The options a caller can build: [apply] is not exported, so every
    [ServerOption] comes from one of the three constructors. *)
Inductive exported_option : ServerOption → Prop :=
| exported_ReadHeaderTimeout d : exported_option (ReadHeaderTimeout d)
| exported_HTMLRender d : exported_option (HTMLRender_option d)
| exported_WithLogger log : exported_option (WithLogger log).

(** The first lines of [New]:
    [opts := defaultServerOptions; for _, o := range opt { o.apply(&opts) }]. *)
Definition New_opts (opt : list ServerOption) : serverOptions :=
  foldl (λ opts o, apply o opts) defaultServerOptions opt.

(** The part of [Plum] the life cycle uses, with the server objects by
    address. *)
Record Lifecycle := {
  lc_opts : serverOptions;
  lc_srv : option nat;
  lc_servers : list http_Server;
}.

Definition no_server : string := "plum: no server".

Section Life.
Context `{Library}.

(** The three lines [Run] and [RunTLS] share: the server built for the
    address, replaced by the caller's when one is given. *)
Definition Run_srv (p : Lifecycle) (addr : string) (server : list (option nat))
  : Lifecycle :=
  let built :=
    {| srv_Handler := Some ThePlum; srv_Addr := addr;
       srv_ReadHeaderTimeout := readHeaderTimeout (lc_opts p) |} in
  let p1 :=
    {| lc_opts := lc_opts p; lc_srv := Some (length (lc_servers p));
       lc_servers := lc_servers p ++ [built] |} in
  match server with
  | [] => p1
  | s0 :: _ => {| lc_opts := lc_opts p1; lc_srv := s0; lc_servers := lc_servers p1 |}
  end.

(** [func (p *Plum) Run(addr string, server ...*http.Server) error];
    [None] is the nil dereference of a nil server. *)
Definition Run (p : Lifecycle) (addr : string) (server : list (option nat))
  : option (Lifecycle * option string) :=
  let p := Run_srv p addr server in
  a ← lc_srv p; S ← lc_servers p !! a;
  Some (p, ListenAndServe S).

(** [func (p *Plum) RunTLS(addr, certFile, keyFile string, server ...*http.Server) error] *)
Definition RunTLS (p : Lifecycle) (addr certFile keyFile : string)
  (server : list (option nat)) : option (Lifecycle * option string) :=
  let p := Run_srv p addr server in
  a ← lc_srv p; S ← lc_servers p !! a;
  Some (p, ListenAndServeTLS S certFile keyFile).

(** [func (p *Plum) RunServer(lis net.Listener, server *http.Server) error] *)
Definition RunServer (p : Lifecycle) (lis : nat) (server : option nat)
  : option (Lifecycle * option string) :=
  match server with
  | None => Some (p, Some no_server)
  | Some a =>
      S ← lc_servers p !! a;
      let S' := {| srv_Handler := Some ThePlum; srv_Addr := srv_Addr S;
                   srv_ReadHeaderTimeout := srv_ReadHeaderTimeout S |} in
      Some ({| lc_opts := lc_opts p; lc_srv := Some a;
               lc_servers := <[a := S']> (lc_servers p) |},
            Serve S' lis)
  end.

(** [func (p *Plum) Shutdown(ctx context.Context) error] *)
Definition Shutdown (p : Lifecycle) : option (option string) :=
  match lc_srv p with
  | None => Some (Some no_server)
  | Some a => S ← lc_servers p !! a; Some (Shutdown_srv S)
  end.

End Life.

(** ** Further parts of the package: concrete collaborators

    A query of two keys, the marshaller of encoding/json for the values
    of [any] and the escaping of html/template (both as they are on ASCII
    text: bytes above 127 are passed on as they are), a writer that never
    fails, a logger that prints, and an [append] that doubles the
    capacity. *)

Definition double_quote : string := String (ascii_of_nat 34) EmptyString.
Definition backslash : string := String (ascii_of_nat 92) EmptyString.

(** A backslash, [u00], and the two digits of the byte taken from [hex]. *)
Definition u00 (hex : string) (a : ascii) : string :=
  let digit i := from_option (λ d, String d EmptyString) EmptyString (String.get i hex) in
  backslash +:+ "u00" +:+ digit (nat_of_ascii a / 16) +:+ digit (nat_of_ascii a mod 16).

(** What encoding/json puts between the quotes for one byte: the quote and
    the backslash behind a backslash, the short escapes of backspace, form
    feed, newline, carriage return and tab, [u00XX] in lower case for the
    other control characters and for the angle brackets and the
    ampersand. *)
Definition json_escape_byte (a : ascii) : string :=
  let n := nat_of_ascii a in
  if (n =? 34) || (n =? 92) then backslash +:+ String a EmptyString
  else if n =? 8 then backslash +:+ "b"
  else if n =? 12 then backslash +:+ "f"
  else if n =? 10 then backslash +:+ "n"
  else if n =? 13 then backslash +:+ "r"
  else if n =? 9 then backslash +:+ "t"
  else if (n <? 32) || (n =? 60) || (n =? 62) || (n =? 38) then u00 "0123456789abcdef" a
  else String a EmptyString.

Fixpoint json_escape (s : string) : string :=
  match s with
  | EmptyString => EmptyString
  | String a r => json_escape_byte a +:+ json_escape r
  end.

(** [template.JSEscapeString] for one byte: the backslash and the two
    quotes behind a backslash, [u00XX] in upper case for the angle
    brackets, the ampersand, the equals sign and the control characters. *)
Definition js_escape_byte (a : ascii) : string :=
  let n := nat_of_ascii a in
  if (n =? 92) || (n =? 39) || (n =? 34) then backslash +:+ String a EmptyString
  else if (n <? 32) || (n =? 60) || (n =? 62) || (n =? 38) || (n =? 61)
  then u00 "0123456789ABCDEF" a
  else String a EmptyString.

Fixpoint literal_JSEscapeString (s : string) : string :=
  match s with
  | EmptyString => EmptyString
  | String a r => js_escape_byte a +:+ literal_JSEscapeString r
  end.

Definition json_quote (s : string) : string :=
  double_quote +:+ json_escape s +:+ double_quote.

Definition literal_Marshal (obj : json_arg) : string + string :=
  match obj with
  | JSON_any (AnyString s) => inl (json_quote s)
  | JSON_any (AnyInt z) => inl (pretty z)
  | JSON_any (AnyBool b) => inl (if b then "true" else "false")
  | JSON_error _ => inl "{}"
  end.

Definition literal_writeContentType (w : http_ResponseWriter) (value : list string)
  : http_ResponseWriter :=
  match rw_header w !! "Content-Type" with
  | Some (_ :: _) => w
  | _ => {| rw_header := <["Content-Type" := value]> (rw_header w);
            rw_calls := rw_calls w |}
  end.

Definition literal_library : Library :=
  {| req_Query := λ r, {["callback" := ["show"]; "path" := [URLPath r]]};
     req_Header_Get := λ r key,
       if decide (key = "Content-Type") then "text/plain; charset=utf-8" else "";
     req_Context_Value := λ _ _, None;
     json_Marshal := literal_Marshal;
     JSEscapeString := literal_JSEscapeString;
     writeContentType := literal_writeContentType;
     Write_error := λ _ _, None;
     Log_Error := λ format err, [EvPrint Stdout (format +:+ " " +:+ err)];
     append_cap := λ old _, 2 * old;
     ListenAndServe := λ _, Some "http: Server closed";
     ListenAndServeTLS := λ _ _ _, Some "http: Server closed";
     Serve := λ _ _, Some "http: Server closed";
     Shutdown_srv := λ _, None |}.

(** The state of a handler that was given [busy_Context]. *)
Definition busy_State : State :=
  {| ctx := busy_Context; heap := busy_Heap; trace := [] |}.

(** A new server with the profiling routes registered a second time,
    under [/perf]. *)
Definition perf_World : World :=
  default empty_World (RoutePerf (H := literal_platform) plum0 0 ["/perf"]).

(** The group [RoutePerf] makes on the router [R] for a prefix. *)
Definition prefix_group `{Platform} (R : Router) (prefix : string) : Router :=
  {| scope := scope R +:+ prefix; basePath := joinPaths (basePath R) prefix;
     Router_engine := Router_engine R; middlewares := middlewares R |}.

(** What a run of registrations has added to the mux of [w0], nothing else
    having changed. *)
Definition registered_since (w0 w : World) (es : list (string * RouterHandler)) : Prop :=
  routers w = routers w0 ∧ mstore w = mstore w0 ∧ pool w = pool w0
  ∧ mux w = mux w0 ++ es.

(** ** Facts about the integers and the slices *)




Lemma wrap_succ_max : Int8.wrap (Int8.MaxInt8 + 1) = Int8.MinInt8.
Proof. reflexivity. Qed.

Section SliceFacts.
Context {A : Type}.
Implicit Types (h : list (list A)) (s : slice).

Lemma slice_elems_nil h s : sbase s = None → slice_elems h s = [].
Proof. unfold slice_elems. by intros ->. Qed.

Lemma slice_ok_length h s : slice_ok h s → length (slice_elems h s) = slen s.
Proof.
  unfold slice_ok, slice_elems. destruct (sbase s) as [a|].
  - intros (arr & -> & Hlen). simpl. rewrite length_take, length_drop. lia.
  - intros ->. done.
Qed.

Lemma slice_ok_base h s a : slice_ok h s → sbase s = Some a → a < length h.
Proof.
  unfold slice_ok. intros Hok Hb. rewrite Hb in Hok.
  destruct Hok as (arr & Harr & _). by eapply lookup_lt_Some.
Qed.

(** Allocation at the end of the store does not change what a valid slice shows. *)
Lemma slice_elems_alloc h s arrs : slice_ok h s → slice_elems (h ++ arrs) s = slice_elems h s.
Proof.
  unfold slice_ok, slice_elems. destruct (sbase s) as [a|]; [|done].
  intros (arr & Harr & _). by rewrite (lookup_app_l_Some _ _ _ _ Harr), Harr.
Qed.

Lemma slice_ok_alloc h s arrs : slice_ok h s → slice_ok (h ++ arrs) s.
Proof.
  unfold slice_ok. destruct (sbase s) as [a|]; [|done].
  intros (arr & Harr & Hlen). exists arr. split; [|done].
  by apply lookup_app_l_Some.
Qed.

(** A store into one array leaves the slices of the other arrays alone. *)
Lemma slice_elems_store_other h s t xs :
  sbase t ≠ sbase s → slice_elems (slice_store h s xs) t = slice_elems h t.
Proof.
  intros Hne. unfold slice_store, slice_elems.
  destruct (sbase t) as [b|]; [|done].
  destruct (sbase s) as [a|]; [|done].
  destruct (h !! a) as [arr|]; [|done].
  rewrite list_lookup_insert_ne; [done|congruence].
Qed.

Lemma slice_ok_store_other h s t xs :
  sbase t ≠ sbase s → slice_ok h t → slice_ok (slice_store h s xs) t.
Proof.
  intros Hne. unfold slice_store, slice_ok.
  destruct (sbase t) as [b|]; [|done].
  destruct (sbase s) as [a|]; [|done].
  destruct (h !! a) as [arr|]; [|done].
  rewrite list_lookup_insert_ne; [done|congruence].
Qed.

Lemma length_slice_store h s xs : length (slice_store h s xs) = length h.
Proof.
  unfold slice_store. destruct (sbase s) as [a|]; [|done].
  destruct (h !! a); [|done]. by rewrite length_insert.
Qed.

(** Storing as many elements as the slice is long makes the slice show them. *)
Lemma slice_elems_store h s xs :
  slice_ok h s → length xs = slen s → slice_elems (slice_store h s xs) s = xs.
Proof.
  unfold slice_ok, slice_store, slice_elems. destruct (sbase s) as [a|].
  - intros (arr & Harr & Hlen) Hxs. rewrite Harr.
    rewrite list_lookup_insert_eq by (by eapply lookup_lt_Some). simpl.
    rewrite Hxs, Nat.min_id.
    rewrite drop_app_length' by (rewrite length_take; lia).
    rewrite take_app_length' by (rewrite length_take; lia).
    apply take_ge. lia.
  - intros Hl Hxs. rewrite Hl in Hxs. by destruct xs.
Qed.

Lemma slice_ok_store h s xs : slice_ok h s → slice_ok (slice_store h s xs) s.
Proof.
  unfold slice_ok, slice_store. destruct (sbase s) as [a|]; [|done].
  intros (arr & Harr & Hlen). rewrite Harr.
  eexists. split.
  - apply list_lookup_insert_eq. by eapply lookup_lt_Some.
  - rewrite !length_app, !length_take, length_drop. lia.
Qed.

Lemma slices_Reverse_elems h s :
  slice_ok h s → slice_elems (slices_Reverse h s) s = reverse (slice_elems h s).
Proof.
  intros Hok. unfold slices_Reverse. apply slice_elems_store; [done|].
  rewrite length_reverse. by apply slice_ok_length.
Qed.

(** A slice over the whole of a newly allocated array shows the array. *)
Lemma slice_elems_fresh h xs n c :
  length xs ≤ n → slice_elems (h ++ [xs]) (Slice (Some (length h)) 0 n c) = xs.
Proof.
  intros Hn. unfold slice_elems. simpl. rewrite list_lookup_middle by done.
  simpl. rewrite drop_0. by apply take_ge.
Qed.

(** [make] followed by [copy] from a valid slice of the same length. *)
Lemma make_copy_elems zero h src :
  slice_ok h src →
  let '(h1, dst) := make_slice zero (slen src) h in
  copy_slice h1 dst src = h ++ [slice_elems h src].
Proof.
  intros Hok. unfold make_slice, copy_slice.
  rewrite slice_elems_alloc by done.
  unfold slice_store. simpl.
  rewrite lookup_app_r, Nat.sub_diag by done. simpl.
  rewrite (slice_ok_length _ _ Hok), Nat.min_id.
  rewrite drop_ge by (rewrite length_replicate; lia).
  rewrite take_ge by (rewrite (slice_ok_length _ _ Hok); lia).
  rewrite app_nil_r.
  replace (length h) with (length h + 0) at 1 by lia.
  by rewrite insert_app_r.
Qed.

End SliceFacts.

(** ** The context between requests *)

Lemma range_assign_empty (src : gmap string any) : range_assign src ∅ = src.
Proof.
  unfold range_assign.
  apply (map_fold_weak_ind (λ acc m, acc = m)); [done|].
  intros k v m acc _ ->. done.
Qed.

Lemma alter_end {A} (f : A → A) (l : list A) (x : A) :
  alter f (length l) (l ++ [x]) = l ++ [f x].
Proof.
  replace (length l) with (length l + 0) at 1 by lia.
  by rewrite alter_app_r.
Qed.

(** C7: [reset] cuts the parameter list to length 0 on the same backing
    array with the same capacity, drops the handler chain, puts the index
    at -1, leaves the bag unset (no map at all, which an empty map is not:
    the first [Set] afterwards allocates a new map that holds only the
    entry set, a second [Set] reuses it), zeroes the same-site setting, and
    leaves the request and the writer as they were. *)
Theorem reset_clears_context (c : Context) :
  (slen (Params (reset c)) = 0
   ∧ sbase (Params (reset c)) = sbase (Params c)
   ∧ soff (Params (reset c)) = soff (Params c)
   ∧ scap (Params (reset c)) = scap (Params c)
   ∧ ∀ arrays : list (list Param), slice_elems arrays (Params (reset c)) = [])
  ∧ handlers (reset c) = []
  ∧ index (reset c) = (-1)%Z
  ∧ Keys (reset c) = None
  ∧ (∀ (h : Heap) key value,
       Keys (Set_ key value h (reset c)).2 = Some (length (hmaps h))
       ∧ hmaps (Set_ key value h (reset c)).1 = hmaps h ++ [{[key := value]}]
       ∧ ∀ key' value',
           let '(h1, c1) := Set_ key value h (reset c) in
           Keys (Set_ key' value' h1 c1).2 = Keys c1
           ∧ hmaps (Set_ key' value' h1 c1).1
             = hmaps h ++ [<[key' := value']> {[key := value]}])
  ∧ sameSite (reset c) = 0%Z
  ∧ Request (reset c) = Request c
  ∧ Writer (reset c) = Writer c.
Proof.
  repeat split; try done.
  - intros arrays. unfold slice_elems. simpl. by destruct (sbase (Params c)).
  - simpl. by rewrite alter_end.
  - simpl. by rewrite !alter_end.
Qed.

(** ** Executions as sequences of primitive steps *)

Lemma ends_mono (o : outcome) (P Q : State → Prop) :
  (∀ s, P s → Q s) → ends o P → ends o Q.
Proof. destruct o; simpl; auto. Qed.

Lemma ends_bind (o : outcome) (f : State → outcome) (P Q : State → Prop) :
  ends o P → (∀ s, P s → Q s) → (∀ s, P s → ends (f s) Q) → ends (bind o f) Q.
Proof. destruct o; simpl; auto. Qed.

Lemma handlers_incr_index (s : State) : handlers (ctx (incr_index s)) = handlers (ctx s).
Proof. unfold incr_index. by destruct (_ =? _)%Z. Qed.

Lemma Status_Some code c c' :
  Status code c = Some c' →
  ∃ w, Writer c = Some w
       ∧ c' = set_Writer (Some {| rw_header := rw_header w;
                                  rw_calls := rw_calls w ++ [WriteHeader code] |}) c.
Proof.
  unfold Status. destruct (Writer c) as [w|]; [|done].
  destruct (wroteHeader w || checkWriteHeaderCode code); [|done]. intros [= <-]. eauto.
Qed.

Lemma Writer_Write_Some data c c' :
  Writer_Write data c = Some c' →
  ∃ w, Writer c = Some w
       ∧ c' = set_Writer (Some {| rw_header := rw_header w;
                                  rw_calls := rw_calls w ++ [Write data] |}) c.
Proof. unfold Writer_Write. destruct (Writer c) as [w|]; [|done]. intros [= <-]. eauto. Qed.

Section RunFacts.
Context `{Platform}.

Lemma Header_Some key value c c' :
  Header key value c = Some c' →
  ∃ w hd, Writer c = Some w
          ∧ c' = set_Writer (Some {| rw_header := hd; rw_calls := rw_calls w |}) c.
Proof. unfold Header. destruct (Writer c) as [w|]; [|done]. intros [= <-]. eauto. Qed.

Lemma Set_ctx key value h c :
  ∃ k, (Set_ key value h c).2 = set_Keys k c.
Proof.
  unfold Set_, Keys_init. destruct c as [? ? ? ? ? ? [a|] ?]; simpl; eauto.
Qed.

Lemma assign_Params_ctx ps h c :
  ∃ sl, (assign_Params ps h c).2 = set_Params sl c.
Proof. unfold assign_Params. destruct ps; by eexists. Qed.

Lemma assign_Keys_ctx m h c :
  ∃ k, (assign_Keys m h c).2 = set_Keys k c.
Proof. unfold assign_Keys. destruct m; by eexists. Qed.

(** No primitive step touches the chain or the engine: the two fields are
    not exported, and no method of the context assigns them. *)
Lemma prim_frame s s' :
  prim s s' →
  handlers (ctx s') = handlers (ctx s)
  ∧ engine (ctx s') = engine (ctx s).
Proof.
  destruct 1 as [s|s h Hlt Hh|s Hne|s|s|s code c Hc|s key value c Hc|s key value|s out msg
                |s w|s r|s ps|s m|s data c Hc];
    simpl; try done.
  - unfold incr_index. by destruct (_ =? _)%Z.
  - unfold incr_index. by destruct (_ =? _)%Z.
  - by apply Status_Some in Hc as (w & Hw & ->).
  - by apply Header_Some in Hc as (w & hd & Hw & ->).
  - by destruct (Set_ctx key value (heap s) (ctx s)) as [k ->].
  - by destruct (assign_Params_ctx ps (heap s) (ctx s)) as [sl ->].
  - by destruct (assign_Keys_ctx m (heap s) (ctx s)) as [k ->].
  - by apply Writer_Write_Some in Hc as (w & Hw & ->).
Qed.

Lemma rtc_prim_frame s s' :
  rtc prim s s' →
  handlers (ctx s') = handlers (ctx s)
  ∧ engine (ctx s') = engine (ctx s).
Proof.
  induction 1 as [|s1 s2 s3 H12 _ IH]; [done|].
  apply prim_frame in H12 as (Hh & He). destruct IH as (Hh' & He').
  split; congruence.
Qed.

Lemma ends_after (o : outcome) (s s1 : State) :
  rtc prim s s1 → ends o (rtc prim s1) → ends o (rtc prim s).
Proof. intros Hs. apply ends_mono. intros s2. intros Hs2. by etrans. Qed.

Lemma handler_at_nonempty hs i h : handler_at hs i = Some h → hs ≠ [].
Proof. unfold handler_at. destruct (_ <? _)%Z; [done|]. by destruct hs. Qed.

(** Whatever state an execution stops in was reached by primitive steps. *)
Lemma run_prim (fuel : nat) :
  (∀ p s, ends (run fuel p s) (rtc prim s))
  ∧ (∀ s, ends (Next_loop fuel s) (rtc prim s)).
Proof.
  induction fuel as [|n [IHr IHl]]; [split; intros; by simpl|]. split.
  - intros p s. destruct p; simpl.
    + done.
    + apply ends_bind with (P := rtc prim s).
      * eapply ends_after; [|apply IHl]. apply rtc_once, prim_Next.
      * done.
      * intros s1 Hs1. eapply ends_after; [done|apply IHr].
    + eapply ends_after; [|apply IHr]. apply rtc_once, prim_Abort.
    + eapply ends_after; [|apply IHr]. apply rtc_once, prim_IsAborted.
    + destruct (Status code (ctx s)) as [c|] eqn:Hc; simpl; [|done].
      eapply ends_after; [|apply IHr]. eapply rtc_once, prim_Status, Hc.
    + unfold lift. destruct (Header key value (ctx s)) as [c|] eqn:Hc; simpl; [|done].
      eapply ends_after; [|apply IHr]. eapply rtc_once, prim_Header, Hc.
    + destruct (Set_ key value (heap s) (ctx s)) as [h c] eqn:Hs.
      eapply ends_after; [|apply IHr].
      apply rtc_once. pose proof (prim_Set s key value) as Hp. by rewrite Hs in Hp.
    + apply IHr.
    + apply IHr.
    + apply IHr.
    + eapply ends_after; [|apply IHr]. apply rtc_once, prim_Print.
    + done.
    + pose proof (IHr p1 s) as Hbody.
      destruct (run n p1 s) as [s1|err s1|s1]; simpl in *; [| |done].
      * eapply ends_after; [done|apply IHr].
      * apply ends_bind with (P := rtc prim s); [|done|].
        -- eapply ends_after; [done|apply IHr].
        -- intros s2 Hs2. eapply ends_after; [done|apply IHr].
    + eapply ends_after; [|apply IHr]. apply rtc_once, prim_SetWriter.
    + eapply ends_after; [|apply IHr]. apply rtc_once, prim_SetRequest.
    + destruct (assign_Params ps (heap s) (ctx s)) as [h c] eqn:Hs.
      eapply ends_after; [|apply IHr].
      apply rtc_once. pose proof (prim_SetParams s ps) as Hp. by rewrite Hs in Hp.
    + destruct (assign_Keys m (heap s) (ctx s)) as [h c] eqn:Hs.
      eapply ends_after; [|apply IHr].
      apply rtc_once. pose proof (prim_SetKeys s m) as Hp. by rewrite Hs in Hp.
    + unfold lift. destruct (Writer_Write data (ctx s)) as [c|] eqn:Hc; simpl; [|done].
      eapply ends_after; [|apply IHr]. eapply rtc_once, prim_Write, Hc.
  - intros s. simpl. destruct (_ <? _)%Z eqn:Hlt; [|by simpl].
    destruct (handler_at _ _) as [h|] eqn:Hh; [|by simpl].
    apply ends_bind with (P := λ s', rtc prim s s' ∧ handlers (ctx s') = handlers (ctx s)).
    + eapply ends_mono; [|apply IHr]. intros s1 Hs1. simpl in Hs1.
      split.
      * eapply rtc_l; [|done]. apply prim_enter with h; [lia|done].
      * by apply rtc_prim_frame in Hs1 as (-> & _).
    + by intros s1 [Hs1 _].
    + intros s1 [Hs1 Hhs]. eapply ends_after; [|apply IHl].
      eapply rtc_r; [done|]. apply prim_leave. rewrite Hhs.
      by eapply handler_at_nonempty.
Qed.

Lemma run_reaches fuel p s : ends (run fuel p s) (rtc prim s).
Proof. apply run_prim. Qed.

(** More fuel does not change an execution that had enough. *)
Lemma run_fuel_mono (fuel : nat) :
  (∀ p s m, stopped (run fuel p s) → fuel ≤ m → run m p s = run fuel p s)
  ∧ (∀ s m, stopped (Next_loop fuel s) → fuel ≤ m → Next_loop m s = Next_loop fuel s).
Proof.
  induction fuel as [|n [IHr IHl]]; [by split|].
  assert (Hbind : ∀ (X X' : outcome) (F F' : State → outcome),
            (stopped X → X' = X) →
            (∀ s, stopped (F s) → F' s = F s) →
            stopped (bind X F) → bind X' F' = bind X F).
  { intros X X' F F' HX HF Hne.
    destruct X as [s1|e s1|s1]; simpl in *; [| |done].
    - rewrite HX by done. simpl. by apply HF.
    - by rewrite HX. }
  split.
  - intros p s [|m] Hne Hle; [lia|]. assert (n ≤ m) by lia.
    destruct p; simpl in *; try done; try (by apply IHr).
    + apply Hbind; [intros; by apply IHl|intros; by apply IHr|done].
    + destruct (Status code (ctx s)); [by apply IHr|done].
    + unfold lift in *. destruct (Header key value (ctx s)); [by apply IHr|done].
    + destruct (Set_ key value (heap s) (ctx s)). by apply IHr.
    + destruct (run n p1 s) as [s1|e s1|s1] eqn:Hb; [| |done].
      * rewrite IHr, Hb by (done || by rewrite Hb). by apply IHr.
      * rewrite IHr, Hb by (done || by rewrite Hb).
        apply Hbind; [intros; by apply IHr|intros; by apply IHr|done].
    + destruct (assign_Params _ (heap s) (ctx s)). by apply IHr.
    + destruct (assign_Keys _ (heap s) (ctx s)). by apply IHr.
    + unfold lift in *. destruct (Writer_Write data (ctx s)); [by apply IHr|done].
  - intros s [|m] Hne Hle; [lia|]. assert (n ≤ m) by lia.
    simpl in *. destruct (_ <? _)%Z; [|done].
    destruct (handler_at _ _); [|done].
    apply Hbind; [intros; by apply IHr|intros; by apply IHl|done].
Qed.

Lemma run_more fuel m p s :
  stopped (run fuel p s) → fuel ≤ m → run m p s = run fuel p s.
Proof. intros. by apply run_fuel_mono. Qed.

End RunFacts.

(** ** Abort and the handler chain *)






Section AbortFacts.
Context `{Platform}.







End AbortFacts.




(** ** A dispatched request has no chain *)



Lemma entered_snoc tr e :
  entered (tr ++ [e]) = entered tr ++ match e with EvEnter j => [j] | _ => [] end.
Proof. unfold entered. rewrite omap_app. by destruct e. Qed.




Section ChainlessFacts.
Context `{Platform}.








End ChainlessFacts.



(** ** Copy *)

Section CopyFacts.
Context `{Platform}.

Lemma no_chain_prim s s' :
  handlers (ctx s) = [] → prim s s' → entered (trace s') = entered (trace s).
Proof.
  intros Hhs Hp.
  destruct Hp as [s|s h Hlt Hh|s Hne|s|s|s code c Hc|s key value c Hc|s key value|s out msg
                 |s w|s r|s ps|s m|s data c Hc'];
    simpl; rewrite ?entered_snoc, ?app_nil_r; try done.
  - unfold incr_index. destruct (_ =? _)%Z; simpl;
      by rewrite ?entered_snoc, ?app_nil_r.
  - by apply handler_at_nonempty in Hh.
Qed.

Lemma no_chain_rtc s s' :
  handlers (ctx s) = [] → rtc prim s s' → entered (trace s') = entered (trace s).
Proof.
  intros Hhs. revert s'. apply rtc_ind_r; [done|].
  intros s1 s2 Hs1 Hp IH. rewrite <-IH. apply no_chain_prim; [|done].
  apply rtc_prim_frame in Hs1 as (-> & _). done.
Qed.

Lemma Copy_unfold (h : Heap) (c : Context) :
  slice_ok (hparams h) (Params c) →
  Copy h c
  = ({| hmaps := hmaps h ++ [keys_of h (Keys c)];
        hparams := hparams h ++ [slice_elems (hparams h) (Params c)] |},
     {| Request := Request c; Writer := None;
        Params := Slice (Some (length (hparams h))) 0 (slen (Params c)) (slen (Params c));
        handlers := []; index := abortIndex; engine := engine c;
        Keys := Some (length (hmaps h)); sameSite := 0 |}).
Proof.
  intros Hok. unfold Copy.
  pose proof (make_copy_elems zero_Param (hparams h) (Params c) Hok) as Hcp.
  unfold make_slice in *. rewrite Hcp, range_assign_empty. done.
Qed.

End CopyFacts.

(** C6: [Copy] returns a context with the request of the original, a bag
    that is a new map holding the entries of the original's bag, a
    parameter slice on a new array holding the original's parameters, and
    the index at the abort sentinel: the copy reports itself aborted,
    nothing executed on it makes [Next] invoke a handler, and a call of
    [Next] on it only moves the index. *)
Theorem Copy_is_aborted_snapshot `{Platform} (h : Heap) (c : Context) :
  slice_ok (hparams h) (Params c) →
  Request (Copy h c).2 = Request c
  ∧ (Keys (Copy h c).2 = Some (length (hmaps h))
     ∧ hmaps (Copy h c).1 = hmaps h ++ [keys_of h (Keys c)]
     ∧ keys_of (Copy h c).1 (Keys (Copy h c).2) = keys_of h (Keys c))
  ∧ (sbase (Params (Copy h c).2) = Some (length (hparams h))
     ∧ hparams (Copy h c).1 = hparams h ++ [slice_elems (hparams h) (Params c)]
     ∧ slice_elems (hparams (Copy h c).1) (Params (Copy h c).2)
       = slice_elems (hparams h) (Params c))
  ∧ index (Copy h c).2 = abortIndex
  ∧ IsAborted (Copy h c).2 = true
  ∧ (∀ fuel p tr,
       ends (run fuel p {| ctx := (Copy h c).2; heap := (Copy h c).1; trace := tr |})
            (λ s', entered (trace s') = entered tr))
  ∧ (∀ fuel tr,
       Next (S fuel) {| ctx := (Copy h c).2; heap := (Copy h c).1; trace := tr |}
       = Finished {| ctx := set_index (abortIndex + 1) (Copy h c).2;
                     heap := (Copy h c).1; trace := tr ++ [EvNext] |}).
Proof.
  intros Hok. rewrite (Copy_unfold h c Hok). simpl. split_and!; try done.
  - unfold keys_of. simpl. by rewrite list_lookup_middle.
  - apply slice_elems_fresh. by rewrite (slice_ok_length _ _ Hok).
  - intros fuel p tr. eapply ends_mono; [|apply run_reaches].
    intros s' Hs'. by apply no_chain_rtc in Hs'.
Qed.

(** C6 on the context of a running request, with two parameters and one
    entry in its bag. *)
Lemma Copy_is_aborted_snapshot_witness :
  slice_ok (hparams busy_Heap) (Params busy_Context)
  ∧ Request (Copy busy_Heap busy_Context).2 = Some (get_request "/users/7/x")
  ∧ Keys (Copy busy_Heap busy_Context).2 = Some 1
  ∧ hmaps (Copy busy_Heap busy_Context).1
    = [{["user" := AnyString "ada"]}; {["user" := AnyString "ada"]}]
  ∧ slice_elems (hparams (Copy busy_Heap busy_Context).1)
                (Params (Copy busy_Heap busy_Context).2)
    = [ {| Key := "id"; Value := "7" |}; {| Key := "tab"; Value := "x" |} ]
  ∧ IsAborted (Copy busy_Heap busy_Context).2 = true.
Proof.
  assert (Hok : slice_ok (hparams busy_Heap) (Params busy_Context)).
  { eexists. split; [reflexivity|]. simpl. lia. }
  split; [exact Hok|].
  destruct (Copy_is_aborted_snapshot (H := literal_platform) busy_Heap busy_Context Hok)
    as (Hreq & (Hk & Hm & _) & (_ & _ & Hp) & _ & Hab & _).
  split_and!; [exact Hreq|exact Hk|exact Hm|exact Hp|exact Hab].
Defined.

(** ** Response headers *)

(** C10: on a context that has a response writer, [Header(key, value)] with
    a non-empty value leaves the header map with [value] as the only value
    under [key]; with the empty string it leaves the map without [key],
    not with an empty value under it.  Nothing else of the response or of
    the context changes. *)
Theorem Header_sets_or_deletes `{Platform} (c : Context) (w : http_ResponseWriter)
  (key value : string) :
  Writer c = Some w →
  ∃ hd,
    Header key value c
    = Some (set_Writer (Some {| rw_header := hd; rw_calls := rw_calls w |}) c)
    ∧ (value ≠ "" →
       hd = <[CanonicalMIMEHeaderKey key := [value]]> (rw_header w)
       ∧ hd !! CanonicalMIMEHeaderKey key = Some [value])
    ∧ (value = "" →
       hd = delete (CanonicalMIMEHeaderKey key) (rw_header w)
       ∧ hd !! CanonicalMIMEHeaderKey key = None)
    ∧ (∀ other, other ≠ CanonicalMIMEHeaderKey key → hd !! other = rw_header w !! other).
Proof.
  intros Hw. unfold Header. rewrite Hw.
  destruct (decide (value = "")) as [Hv|Hv]; eexists; (split; [reflexivity|]).
  - split_and!; [done| |].
    + intros _. split; [done|]. apply lookup_delete_eq.
    + intros other Hne. by apply lookup_delete_ne.
  - split_and!; [|done|].
    + intros _. split; [done|]. apply lookup_insert_eq.
    + intros other Hne. by apply lookup_insert_ne.
Qed.

(** C10 on a response that carries the header X-Token: a new value
    replaces it, the empty string removes it. *)
Lemma Header_sets_or_deletes_witness :
  Writer tagged_Context = Some {| rw_header := {["X-Token" := ["abc"]]}; rw_calls := [] |}
  ∧ (∃ c' w', Header (H := literal_platform) "X-Token" "xyz" tagged_Context = Some c'
              ∧ Writer c' = Some w'
              ∧ rw_header w' !! "X-Token" = Some ["xyz"])
  ∧ (∃ c' w', Header (H := literal_platform) "X-Token" "" tagged_Context = Some c'
              ∧ Writer c' = Some w'
              ∧ rw_header w' !! "X-Token" = None).
Proof.
  split; [reflexivity|]. split.
  - destruct (Header_sets_or_deletes (H := literal_platform) tagged_Context _
                "X-Token" "xyz" eq_refl) as (hd & Heq & Hset & _ & _).
    destruct Hset as [_ Hl]; [done|].
    eexists _, _. split; [exact Heq|]. split; [reflexivity|]. exact Hl.
  - destruct (Header_sets_or_deletes (H := literal_platform) tagged_Context _
                "X-Token" "" eq_refl) as (hd & Heq & _ & Hdel & _).
    destruct Hdel as [_ Hl]; [done|].
    eexists _, _. split; [exact Heq|]. split; [reflexivity|]. exact Hl.
Defined.

(** On the context [Copy] returns, which has no writer, [Header] is the
    nil dereference, with a value and with the empty string alike: no
    header is set and none is deleted. *)
Lemma Header_on_a_copy_is_nil_dereference :
  Writer (Copy busy_Heap busy_Context).2 = None
  ∧ Header (H := literal_platform) "X-Trace" "1" (Copy busy_Heap busy_Context).2 = None
  ∧ Header (H := literal_platform) "X-Trace" "" (Copy busy_Heap busy_Context).2 = None
  ∧ run (H := literal_platform) 2 (PHeader "X-Trace" "1" PDone)
        {| ctx := (Copy busy_Heap busy_Context).2;
           heap := (Copy busy_Heap busy_Context).1; trace := [] |}
    = Panicked nil_deref
        {| ctx := (Copy busy_Heap busy_Context).2;
           heap := (Copy busy_Heap busy_Context).1; trace := [] |}.
Proof. split_and!; reflexivity. Qed.

(** ** Registration patterns *)

Lemma substring_all (s : string) : String.substring 0 (String.length s) s = s.
Proof. induction s as [|a s IH]; simpl; [done|]. by rewrite IH. Qed.

Lemma substring_append_r (pre suf : string) :
  String.substring (String.length pre) (String.length suf) (pre +:+ suf) = suf.
Proof. induction pre as [|a pre IH]; simpl; [apply substring_all|done]. Qed.

Lemma length_append (s t : string) :
  String.length (s +:+ t) = String.length s + String.length t.
Proof. induction s as [|a s IH]; simpl; [done|]. by rewrite IH. Qed.

Lemma substring_split (s : string) (n : nat) :
  n ≤ String.length s →
  s = String.substring 0 n s +:+ String.substring n (String.length s - n) s.
Proof.
  revert n. induction s as [|a s IH]; intros [|n] Hn; simpl in *; try done.
  - by rewrite substring_all.
  - change (String a s = String a (String.substring 0 n s +:+
                               String.substring n (String.length s - n) s)).
    f_equal. apply IH. lia.
Qed.

(** [strings.HasSuffix] holds exactly of the texts that end with the suffix. *)
Lemma HasSuffix_spec (s suffix : string) :
  HasSuffix s suffix = true ↔ ∃ pre, s = pre +:+ suffix.
Proof.
  unfold HasSuffix. rewrite andb_true_iff, Nat.leb_le, String.eqb_eq. split.
  - intros [Hle Hsub]. exists (String.substring 0 (String.length s - String.length suffix) s).
    pose proof (substring_split s (String.length s - String.length suffix)) as Hsp.
    replace (String.length s - (String.length s - String.length suffix))
      with (String.length suffix) in Hsp by lia.
    rewrite Hsub in Hsp. apply Hsp. lia.
  - intros [pre ->]. rewrite length_append. split; [lia|].
    replace (String.length pre + String.length suffix - String.length suffix)
      with (String.length pre) by lia.
    apply substring_append_r.
Qed.

(** C8: [Handle] gives the mux the method, a space, the router's scope and
    the path, with the marker [{$}] after it exactly when the path ends in
    [/]; the call fails only where the Go code panics (a router without
    engine, a pattern the mux refuses), and otherwise adds that one
    registration, whose handler is the given one wrapped in the router's
    middleware. *)
Theorem Handle_registers_pattern `{Platform} (w : World) (r : nat) (R : Router)
  (method route : string) (handler : HandlerFunc) :
  routers w !! r = Some R →
  ∃ pattern,
    ((∃ pre, route = pre +:+ "/") →
     pattern = method +:+ " " +:+ scope R +:+ route +:+ "{$}")
    ∧ ((¬ ∃ pre, route = pre +:+ "/") →
       pattern = method +:+ " " +:+ scope R +:+ route)
    ∧ Handle w r method route handler
      = match Router_engine R with
        | None => None
        | Some _ =>
            if mux_accepts (mux w).*1 pattern then
              Some {| routers := routers w; mstore := mstore w;
                      mux := mux w ++ [(pattern,
                                        {| rh_h := withMiddlewares w R handler;
                                           rh_engine := Router_engine R |})];
                      pool := pool w;
                      stdout := stdout w ++ [pattern] |}
            else None
        end.
Proof.
  intros HR. exists (Handle_pattern R method route). split_and!.
  - intros Hs. apply HasSuffix_spec in Hs. unfold Handle_pattern. by rewrite Hs.
  - intros Hs. unfold Handle_pattern.
    destruct (HasSuffix route "/") eqn:Hsuf; [|done].
    destruct Hs. by apply HasSuffix_spec.
  - unfold Handle. rewrite HR. simpl. by destruct (Router_engine R).
Qed.

(** C8 on the root router of a new server: a path with and a path without
    the final separator. *)
Lemma Handle_registers_pattern_witness :
  (∃ R, routers plum0 !! 0 = Some R ∧ scope R = "")
  ∧ (∃ w', Handle (H := literal_platform) plum0 0 "GET" "/files/" (say "list") = Some w'
           ∧ last (mux w').*1 = Some "GET /files/{$}")
  ∧ (∃ w', Handle (H := literal_platform) plum0 0 "GET" "/files" (say "list") = Some w'
           ∧ last (mux w').*1 = Some "GET /files").
Proof.
  split; [eexists; split; reflexivity|].
  split.
  - destruct (Handle_registers_pattern (H := literal_platform) plum0 0 _
                "GET" "/files/" (say "list") eq_refl) as (pattern & Hend & _ & Heq).
    rewrite Hend in Heq by (by exists "/files").
    eexists. split; [exact Heq|]. reflexivity.
  - destruct (Handle_registers_pattern (H := literal_platform) plum0 0 _
                "GET" "/files" (say "list") eq_refl) as (pattern & _ & Hno & Heq).
    rewrite Hno in Heq.
    + eexists. split; [exact Heq|]. reflexivity.
    + intros Hpre. apply HasSuffix_spec in Hpre. done.
Defined.

(** ** Middleware slices of routers *)

Section SliceOwnership.
Context {A : Type}.
Implicit Types (st : list (list A)) (m t u : slice).

Lemma Reverse_frame st m u :
  apart m u →
  slice_elems (slices_Reverse st m) u = slice_elems st u
  ∧ (slice_ok st u → slice_ok (slices_Reverse st m) u).
Proof.
  intros [Hnil|Hne]; unfold slices_Reverse.
  - unfold slice_store. by rewrite Hnil.
  - split; [by apply slice_elems_store_other|by apply slice_ok_store_other].
Qed.

Lemma Reverse_self_ok st m : slice_ok st m → slice_ok (slices_Reverse st m) m.
Proof. apply slice_ok_store. Qed.

(** [slices.Reverse(m)] followed by [slices.Concat(m, t)]. *)
Lemma Reverse_Concat st m t :
  slice_ok st m → slice_ok st t → apart m t →
  ∃ st2 s,
    slices_Concat (slices_Reverse st m) m t = (st2, s)
    ∧ slice_elems st2 s = reverse (slice_elems st m) ++ slice_elems st t
    ∧ slice_ok st2 s
    ∧ (sbase s = None ∨ sbase s = Some (length st))
    ∧ length st ≤ length st2
    ∧ (∀ u, slice_ok st u → apart m u →
            slice_elems st2 u = slice_elems st u ∧ slice_ok st2 u)
    ∧ slice_ok st2 m
    ∧ slice_elems st2 m = reverse (slice_elems st m).
Proof.
  intros Hm Ht Hap. unfold slices_Concat.
  destruct (Reverse_frame st m t Hap) as [Het Hokt].
  rewrite (slices_Reverse_elems st m Hm), Het.
  set (st1 := slices_Reverse st m).
  assert (Hlen : length st1 = length st) by apply length_slice_store.
  assert (Hfr : ∀ u, slice_ok st u → apart m u →
                     slice_elems st1 u = slice_elems st u ∧ slice_ok st1 u).
  { intros u Hu Hau. destruct (Reverse_frame st m u Hau). auto. }
  destruct (reverse (slice_elems st m) ++ slice_elems st t) as [|x xs] eqn:Hxs.
  - exists st1, nil_slice. split_and!; try done.
    + by left.
    + lia.
    + by apply Reverse_self_ok.
    + by apply slices_Reverse_elems.
  - eexists _, _. split; [reflexivity|]. split_and!.
    + apply slice_elems_fresh. done.
    + unfold slice_ok. simpl. eexists. split; [apply list_lookup_middle; done|]. done.
    + right. simpl. by rewrite Hlen.
    + rewrite length_app. lia.
    + intros u Hu Hau. destruct (Hfr u Hu Hau) as [He Ho]. split.
      * by rewrite slice_elems_alloc.
      * by apply slice_ok_alloc.
    + apply slice_ok_alloc. by apply Reverse_self_ok.
    + rewrite slice_elems_alloc by by apply Reverse_self_ok.
      by apply slices_Reverse_elems.
Qed.

End SliceOwnership.

Lemma world_ok_lookup w r R : world_ok w → routers w !! r = Some R →
  slice_ok (mstore w) (middlewares R).
Proof. intros Hw HR. apply Hw. by eapply list_elem_of_lookup_2. Qed.

Lemma caller_owned_apart w m r R :
  caller_owned w m → routers w !! r = Some R → apart m (middlewares R).
Proof. intros Hc HR. apply Hc. by eapply list_elem_of_lookup_2. Qed.

(** The slice of a variadic call is well formed and shares no array with
    a router of a well-formed world. *)
Lemma variadic_spec xs w :
  world_ok w →
  ∃ w1 m,
    variadic xs w = (w1, m)
    ∧ routers w1 = routers w ∧ mux w1 = mux w
    ∧ slice_ok (mstore w1) m
    ∧ slice_elems (mstore w1) m = xs
    ∧ caller_owned w1 m
    ∧ world_ok w1
    ∧ (∀ u, slice_ok (mstore w) u → slice_elems (mstore w1) u = slice_elems (mstore w) u).
Proof.
  intros Hw. destruct xs as [|x xs].
  - exists w, nil_slice. split_and!; try done. intros Q HQ. by left.
  - eexists _, _. split; [reflexivity|]. simpl. split_and!; try done.
    + eexists. split; [by apply list_lookup_middle|]. done.
    + by apply slice_elems_fresh.
    + intros Q HQ. right. simpl. intros Heq.
      pose proof (slice_ok_base _ _ _ (Hw Q HQ) Heq). lia.
    + intros Q HQ. apply slice_ok_alloc. by apply Hw.
    + intros u Hu. by apply slice_elems_alloc.
Qed.

Section RouterFacts.
Context `{Platform}.

(** What [Use] does, for a slice that is the caller's. *)
Lemma Use_spec (w : World) (r : nat) (R : Router) (m : slice) :
  world_ok w → slice_ok (mstore w) m → caller_owned w m →
  routers w !! r = Some R →
  ∃ w1 s,
    Use w r m = Some w1
    ∧ routers w1 = <[r := set_middlewares s R]> (routers w)
    ∧ mux w1 = mux w
    ∧ slice_elems (mstore w1) s
      = reverse (slice_elems (mstore w) m) ++ slice_elems (mstore w) (middlewares R)
    ∧ slice_ok (mstore w1) s
    ∧ (∀ u, slice_ok (mstore w) u → apart m u →
            slice_elems (mstore w1) u = slice_elems (mstore w) u
            ∧ slice_ok (mstore w1) u)
    ∧ slice_elems (mstore w1) m = reverse (slice_elems (mstore w) m).
Proof.
  intros Hw Hm Hc HR. unfold Use. rewrite HR. simpl.
  destruct (Reverse_Concat (mstore w) m (middlewares R) Hm)
    as (st2 & s & Hcat & Hel & Hok & _ & _ & Hfr & _ & Hrev).
  { by eapply world_ok_lookup. }
  { by eapply caller_owned_apart. }
  rewrite Hcat. eexists _, s. split; [reflexivity|]. done.
Qed.

(** What [Group] does, for a slice that is the caller's. *)
Lemma Group_spec (w : World) (r : nat) (R : Router) (relativePath : string) (m : slice) :
  world_ok w → slice_ok (mstore w) m → caller_owned w m →
  routers w !! r = Some R →
  ∃ w1 G,
    Group w r relativePath m = Some (w1, length (routers w))
    ∧ routers w1 = routers w ++ [G]
    ∧ mux w1 = mux w
    ∧ scope G = scope R +:+ relativePath
    ∧ Router_engine G = Router_engine R
    ∧ slice_elems (mstore w1) (middlewares G)
      = reverse (slice_elems (mstore w) m) ++ slice_elems (mstore w) (middlewares R)
    ∧ slice_ok (mstore w1) (middlewares G)
    ∧ (∀ u, slice_ok (mstore w) u → apart m u →
            slice_elems (mstore w1) u = slice_elems (mstore w) u
            ∧ slice_ok (mstore w1) u)
    ∧ (slen m = 0 → middlewares G = middlewares R).
Proof.
  intros Hw Hm Hc HR. unfold Group. rewrite HR. simpl.
  pose proof (world_ok_lookup _ _ _ Hw HR) as HokR.
  destruct (0 <? slen m) eqn:Hlen.
  - destruct (Reverse_Concat (mstore w) m (middlewares R) Hm HokR)
      as (st2 & s & Hcat & Hel & Hok & _ & _ & Hfr & _ & _).
    { by eapply caller_owned_apart. }
    rewrite Hcat. eexists _, _. split; [reflexivity|]. simpl.
    apply Nat.ltb_lt in Hlen. split_and!; try done. lia.
  - eexists _, _. split; [reflexivity|]. simpl. split_and!; try done.
    apply Nat.ltb_ge in Hlen.
    pose proof (slice_ok_length _ _ Hm) as Hl.
    destruct (slice_elems (mstore w) m); [done|simpl in Hl; lia].
Qed.

End RouterFacts.

(** ** What every reachable world satisfies *)

Section Invariants.
Context `{Platform}.

Lemma elem_of_insert_inv {B} (l : list B) (i : nat) (x y : B) :
  y ∈ <[i := x]> l → y = x ∨ y ∈ l.
Proof.
  intros Hy. apply list_elem_of_lookup in Hy as [j Hj].
  apply list_lookup_insert_Some in Hj as [(_ & -> & _)|(_ & Hj)]; [by left|right].
  by eapply list_elem_of_lookup_2.
Qed.

Lemma Use_sound w r m w' :
  sound w → slice_ok (mstore w) m → caller_owned w m →
  Use w r m = Some w' → sound w'.
Proof.
  intros [Hok [Hrec Hmux]] Hm Hc HU.
  destruct (routers w !! r) as [R|] eqn:HR; [|by unfold Use in HU; rewrite HR in HU].
  destruct (Use_spec w r R m Hok Hm Hc HR)
    as (w1 & s & HU' & Hrs & Hmx & Hel & Hoks & Hfr & _).
  rewrite HU in HU'. injection HU' as <-.
  assert (HRin : R ∈ routers w) by by eapply list_elem_of_lookup_2.
  split; [|split].
  - intros Q HQ. rewrite Hrs in HQ. apply elem_of_insert_inv in HQ as [->|HQ]; [done|].
    apply Hfr; [by apply Hok|by apply Hc].
  - intros Q HQ He. rewrite Hrs in HQ. apply elem_of_insert_inv in HQ as [->|HQ].
    + simpl in *. destruct (Hrec R HRin He) as [l Hl].
      exists (reverse (slice_elems (mstore w) m) ++ l).
      by rewrite Hel, Hl, (assoc_L (++)).
    + destruct (Hfr (middlewares Q)) as [-> _]; [by apply Hok|by apply Hc|].
      by apply Hrec.
  - by rewrite Hmx.
Qed.

Lemma Group_sound w r relativePath m w' g :
  sound w → slice_ok (mstore w) m → caller_owned w m →
  Group w r relativePath m = Some (w', g) → sound w'.
Proof.
  intros [Hok [Hrec Hmux]] Hm Hc HG.
  destruct (routers w !! r) as [R|] eqn:HR; [|by unfold Group in HG; rewrite HR in HG].
  destruct (Group_spec w r R relativePath m Hok Hm Hc HR)
    as (w1 & G & HG' & Hrs & Hmx & _ & Heng & Hel & HokG & Hfr & _).
  rewrite HG in HG'. injection HG' as <- ->.
  assert (HRin : R ∈ routers w) by by eapply list_elem_of_lookup_2.
  split; [|split].
  - intros Q HQ. rewrite Hrs in HQ. apply elem_of_app in HQ as [HQ|HQ].
    + apply Hfr; [by apply Hok|by apply Hc].
    + apply list_elem_of_singleton in HQ as ->. done.
  - intros Q HQ He. rewrite Hrs in HQ. apply elem_of_app in HQ as [HQ|HQ].
    + destruct (Hfr (middlewares Q)) as [-> _]; [by apply Hok|by apply Hc|].
      by apply Hrec.
    + apply list_elem_of_singleton in HQ as ->. rewrite Heng in He.
      destruct (Hrec R HRin He) as [l Hl].
      exists (reverse (slice_elems (mstore w) m) ++ l).
      by rewrite Hel, Hl, (assoc_L (++)).
  - by rewrite Hmx.
Qed.

Lemma Use_args_sound w r xs w' : sound w → Use_args w r xs = Some w' → sound w'.
Proof.
  intros [Hok [Hrec Hmux]] HU. unfold Use_args in HU.
  destruct (variadic_spec xs w Hok) as (w1 & m & Hv & Hrs & Hmx & Hm & Hel & Hc & Hok1 & Hfr).
  rewrite Hv in HU. eapply Use_sound; [|done..].
  split; [done|]. split.
  - intros Q HQ He. rewrite Hrs in HQ. rewrite Hfr by by apply Hok. by apply Hrec.
  - by rewrite Hmx.
Qed.

Lemma Group_args_sound w r relativePath xs w' g :
  sound w → Group_args w r relativePath xs = Some (w', g) → sound w'.
Proof.
  intros [Hok [Hrec Hmux]] HG. unfold Group_args in HG.
  destruct (variadic_spec xs w Hok) as (w1 & m & Hv & Hrs & Hmx & Hm & Hel & Hc & Hok1 & Hfr).
  rewrite Hv in HG. eapply Group_sound; [|done..].
  split; [done|]. split.
  - intros Q HQ He. rewrite Hrs in HQ. rewrite Hfr by by apply Hok. by apply Hrec.
  - by rewrite Hmx.
Qed.

(** What [Handle] registers on a router whose list ends with [Recover]. *)
Lemma withMiddlewares_snoc w R l (mw : Middleware) handler :
  slice_elems (mstore w) (middlewares R) = l ++ [mw] →
  withMiddlewares w R handler
  = mw (foldl (λ handler middleware, middleware handler) handler l).
Proof. intros Hl. unfold withMiddlewares. by rewrite Hl, foldl_snoc. Qed.

Lemma Handle_sound w r method route handler w' :
  sound w → Handle w r method route handler = Some w' → sound w'.
Proof.
  intros [Hok [Hrec Hmux]] HH. unfold Handle in HH.
  destruct (routers w !! r) as [R|] eqn:HR; [|done]. simpl in HH.
  destruct (Router_engine R) as [[]|] eqn:He; [|done].
  unfold mux_Handle in HH. destruct (mux_accepts _ _); [|done].
  injection HH as <-.
  assert (HRin : R ∈ routers w) by by eapply list_elem_of_lookup_2.
  split; [done|]. split; [done|]. simpl.
  intros pat rh Hin. apply elem_of_app in Hin as [Hin|Hin]; [by eapply Hmux|].
  apply list_elem_of_singleton in Hin as [= -> ->]. simpl. split; [done|].
  destruct (Hrec R HRin) as [l Hl]; [by rewrite He|].
  eexists. by apply withMiddlewares_snoc.
Qed.

Lemma step_sound w w' : sound w → step w w' → sound w'.
Proof.
  intros Hs Hst.
  destruct Hst as [w r p xs w' g HG|w r xs w' HU|w r p m w' g Hm Hc HG|w r m w' Hm Hc HU
                   |w r method route handler w' HH|w a arr Ha Hfree|w|w q Q0 HQ0|w pl].
  - by eapply Group_args_sound.
  - by eapply Use_args_sound.
  - by eapply Group_sound.
  - by eapply Use_sound.
  - by eapply Handle_sound.
  - destruct Hs as [Hok [Hrec Hmux]].
    assert (Hfr : ∀ Q, Q ∈ routers w →
              slice_elems (store_put a arr (mstore w)) (middlewares Q)
              = slice_elems (mstore w) (middlewares Q)
              ∧ slice_ok (store_put a arr (mstore w)) (middlewares Q)).
    { intros Q HQ. pose proof (Hok Q HQ) as HokQ. pose proof (Hfree Q HQ) as Hne.
      unfold store_put. case_decide.
      - split; [by apply slice_elems_alloc|by apply slice_ok_alloc].
      - unfold slice_elems, slice_ok in *.
        destruct (sbase (middlewares Q)) as [b|]; [|done].
        rewrite list_lookup_insert_ne by congruence. done. }
    split; [|split]; simpl.
    + intros Q HQ. by apply Hfr.
    + intros Q HQ He. destruct (Hfr Q HQ) as [-> _]. by apply Hrec.
    + done.
  - destruct Hs as [Hok [Hrec Hmux]]. split; [|split]; simpl.
    + intros Q HQ. apply elem_of_app in HQ as [HQ|HQ]; [by apply Hok|].
      apply list_elem_of_singleton in HQ as ->. done.
    + intros Q HQ He. apply elem_of_app in HQ as [HQ|HQ]; [by apply Hrec|].
      apply list_elem_of_singleton in HQ as ->. simpl in He. by destruct He.
    + done.
  - destruct Hs as [Hok [Hrec Hmux]].
    assert (HQin : Q0 ∈ routers w) by by eapply list_elem_of_lookup_2.
    split; [|split]; simpl.
    + intros Q HQ. apply elem_of_app in HQ as [HQ|HQ]; [by apply Hok|].
      apply list_elem_of_singleton in HQ as ->. by apply Hok.
    + intros Q HQ He. apply elem_of_app in HQ as [HQ|HQ]; [by apply Hrec|].
      apply list_elem_of_singleton in HQ as ->. by apply Hrec.
    + done.
  - done.
Qed.

Lemma rtc_step_sound w w' : sound w → rtc step w w' → sound w'.
Proof.
  intros Hs. revert w'. apply rtc_ind_r; [done|].
  intros w1 w2 _ Hst IH. by eapply step_sound.
Qed.

Lemma RoutePerf_sound w rg prefixOptions w' :
  sound w → RoutePerf w rg prefixOptions = Some w' → sound w'.
Proof.
  intros Hs HR. unfold RoutePerf, GET, POST in HR.
  apply bind_Some in HR as ([w1 g] & HG & HR).
  assert (Hs1 : sound w1).
  { eapply Group_sound; [done| | |done]; [done|intros Q HQ; by left]. }
  clear Hs HG.
  repeat match type of HR with
  | mbind _ _ = Some _ =>
      let w2 := fresh "w" in let HH := fresh "HH" in
      apply bind_Some in HR as (w2 & HH & HR);
      apply (Handle_sound _ _ _ _ _ _ Hs1) in HH; clear Hs1; rename HH into Hs1
  end.
  by eapply Handle_sound.
Qed.

Lemma New_sound w : New = Some w → sound w.
Proof.
  unfold New, Use_args. simpl. unfold Use. simpl.
  intros HN. eapply RoutePerf_sound; [|exact HN]. clear HN.
  split; [|split]; simpl.
  - intros Q HQ. apply list_elem_of_singleton in HQ as ->. simpl.
    eexists. split; [reflexivity|]. simpl. lia.
  - intros Q HQ _. apply list_elem_of_singleton in HQ as ->. simpl.
    by exists [].
  - intros pat rh Hin. by apply elem_of_nil in Hin.
Qed.

Lemma reachable_sound w : reachable w → sound w.
Proof.
  intros (w0 & HN & Hst). eapply rtc_step_sound; [|done]. by apply New_sound.
Qed.

End Invariants.

(** ** Use and Group *)

Section GroupFacts.
Context `{Platform}.

Lemma Use_args_spec (w : World) (r : nat) (R : Router) (xs : list Middleware) :
  world_ok w → routers w !! r = Some R →
  ∃ w1 s,
    Use_args w r xs = Some w1
    ∧ routers w1 = <[r := set_middlewares s R]> (routers w)
    ∧ mux w1 = mux w
    ∧ slice_elems (mstore w1) s = reverse xs ++ slice_elems (mstore w) (middlewares R)
    ∧ (∀ q Q, q ≠ r → routers w !! q = Some Q →
              routers w1 !! q = Some Q
              ∧ slice_elems (mstore w1) (middlewares Q)
                = slice_elems (mstore w) (middlewares Q)).
Proof.
  intros Hok HR. unfold Use_args.
  destruct (variadic_spec xs w Hok) as (wv & m & Hv & Hrs & Hmx & Hm & Hel & Hc & Hokv & Hfr).
  rewrite Hv. rewrite <-Hrs in HR.
  destruct (Use_spec wv r R m Hokv Hm Hc HR)
    as (w1 & s & HU & Hrs1 & Hmx1 & Hel1 & _ & Hfr1 & _).
  exists w1, s. rewrite Hrs in *. split_and!; try done.
  - congruence.
  - rewrite Hel1, Hel, Hfr; [done|]. by eapply world_ok_lookup.
  - intros q Q Hq HQ. split.
    + by rewrite Hrs1, list_lookup_insert_ne.
    + assert (HQin : Q ∈ routers wv) by (rewrite Hrs; by eapply list_elem_of_lookup_2).
      destruct (Hfr1 (middlewares Q)) as [-> _]; [by apply Hokv|by apply Hc|].
      apply Hfr. by eapply world_ok_lookup.
Qed.

Lemma Group_args_spec (w : World) (r : nat) (R : Router) (relativePath : string)
  (xs : list Middleware) :
  world_ok w → routers w !! r = Some R →
  ∃ w1 G,
    Group_args w r relativePath xs = Some (w1, length (routers w))
    ∧ routers w1 = routers w ++ [G]
    ∧ mux w1 = mux w
    ∧ scope G = scope R +:+ relativePath
    ∧ Router_engine G = Router_engine R
    ∧ slice_elems (mstore w1) (middlewares G)
      = reverse xs ++ slice_elems (mstore w) (middlewares R)
    ∧ (∀ Q, Q ∈ routers w →
            slice_elems (mstore w1) (middlewares Q)
            = slice_elems (mstore w) (middlewares Q))
    ∧ (xs = [] → middlewares G = middlewares R).
Proof.
  intros Hok HR. unfold Group_args.
  destruct (variadic_spec xs w Hok) as (wv & m & Hv & Hrs & Hmx & Hm & Hel & Hc & Hokv & Hfr).
  rewrite Hv. rewrite <-Hrs in HR.
  destruct (Group_spec wv r R relativePath m Hokv Hm Hc HR)
    as (w1 & G & HG & Hrs1 & Hmx1 & Hsc & Heng & Hel1 & _ & Hfr1 & Hal).
  exists w1, G. rewrite Hrs in *. split_and!; try done.
  - congruence.
  - rewrite Hel1, Hel, Hfr; [done|]. by eapply world_ok_lookup.
  - intros Q HQ.
    destruct (Hfr1 (middlewares Q)) as [-> _].
    + apply Hokv. by rewrite Hrs.
    + apply Hc. by rewrite Hrs.
    + apply Hfr. by apply Hok.
  - intros ->. apply Hal. by rewrite <-(slice_ok_length _ _ Hm), Hel.
Qed.

(** A call [r.Use(...)] leaves the mux and the other routers alone. *)
Lemma Use_call_frame (w : World) (r : nat) (w' : World) :
  world_ok w → Use_call w r w' →
  mux w' = mux w
  ∧ ∀ q Q, q ≠ r → routers w !! q = Some Q →
      routers w' !! q = Some Q
      ∧ slice_elems (mstore w') (middlewares Q) = slice_elems (mstore w) (middlewares Q).
Proof.
  intros Hok [[ys HU]|(m & Hm & Hc & HU)].
  - assert (is_Some (routers w !! r)) as [R HR].
    { revert HU. unfold Use_args, variadic, Use. destruct ys; simpl;
        destruct (routers w !! r); simpl; eauto; done. }
    destruct (Use_args_spec w r R ys Hok HR) as (w1 & s & HU' & _ & Hmx & _ & Hfr).
    rewrite HU in HU'. injection HU' as <-. done.
  - assert (is_Some (routers w !! r)) as [R HR].
    { revert HU. unfold Use. destruct (routers w !! r); simpl; eauto; done. }
    destruct (Use_spec w r R m Hok Hm Hc HR) as (w1 & s & HU' & Hrs & Hmx & _ & _ & Hfr & _).
    rewrite HU in HU'. injection HU' as <-. split; [done|].
    intros q Q Hq HQ. split.
    + by rewrite Hrs, list_lookup_insert_ne.
    + assert (HQin : Q ∈ routers w) by by eapply list_elem_of_lookup_2.
      by destruct (Hfr (middlewares Q)) as [-> _]; [apply Hok|apply Hc|].
Qed.

End GroupFacts.

(** C3: after [r.Use(A, B)] the router's list starts with B, A; the
    handler composed for a route registered afterwards is what the router
    composed before around [A (B handler)], so A is the outer of the two
    and B wraps the handler itself.  The same holds when the two are
    passed as a slice of the caller's, which is left reversed.  Where A
    and B each print a line before calling what they wrap, A's line comes
    first, then B's, then the handler runs. *)
Theorem Use_first_supplied_outermost `{Platform} (w : World) (r : nat) (R : Router)
  (A B : Middleware) :
  reachable w → routers w !! r = Some R →
  ∃ w1 R1,
    Use_args w r [A; B] = Some w1
    ∧ routers w1 !! r = Some R1
    ∧ slice_elems (mstore w1) (middlewares R1)
      = [B; A] ++ slice_elems (mstore w) (middlewares R)
    ∧ (∀ handler,
         withMiddlewares w1 R1 handler = withMiddlewares w R (A (B handler)))
    ∧ (∀ method route handler w2,
         Handle w1 r method route handler = Some w2 →
         mux w2 = mux w1 ++ [(Handle_pattern R method route,
                              {| rh_h := withMiddlewares w R (A (B handler));
                                 rh_engine := Router_engine R |})])
    ∧ (∀ m,
         slice_ok (mstore w) m → caller_owned w m →
         slice_elems (mstore w) m = [A; B] →
         ∃ w1' R1',
           Use w r m = Some w1'
           ∧ routers w1' !! r = Some R1'
           ∧ (∀ handler,
                withMiddlewares w1' R1' handler = withMiddlewares w R (A (B handler)))
           ∧ slice_elems (mstore w1') m = [B; A])
    ∧ (∀ a b handler fuel s,
         A = announce a → B = announce b →
         run (S (S fuel)) (A (B handler)) s
         = run fuel handler (emit (EvPrint Stdout b) (emit (EvPrint Stdout a) s))).
Proof.
  intros Hre HR. apply reachable_sound in Hre as [Hok _].
  destruct (Use_args_spec w r R [A; B] Hok HR) as (w1 & s & HU & Hrs & Hmx & Hel & _).
  exists w1, (set_middlewares s R).
  assert (HR1 : routers w1 !! r = Some (set_middlewares s R)).
  { rewrite Hrs. apply list_lookup_insert_eq. by eapply lookup_lt_Some. }
  assert (Hwm : ∀ handler, withMiddlewares w1 (set_middlewares s R) handler
                           = withMiddlewares w R (A (B handler))).
  { intros handler. unfold withMiddlewares. simpl. by rewrite Hel. }
  split_and!; try done.
  - intros method route handler w2 HH. unfold Handle in HH. rewrite HR1 in HH.
    simpl in HH. destruct (Router_engine R); [|done].
    unfold mux_Handle in HH. destruct (mux_accepts _ _); [|done].
    injection HH as <-. simpl. by rewrite Hwm.
  - intros m Hm Hc Hab.
    destruct (Use_spec w r R m Hok Hm Hc HR)
      as (w1' & s' & HU' & Hrs' & _ & Hel' & _ & _ & Hrev).
    exists w1', (set_middlewares s' R). split_and!; [done| | |].
    + rewrite Hrs'. apply list_lookup_insert_eq. by eapply lookup_lt_Some.
    + intros handler. unfold withMiddlewares. simpl. by rewrite Hel', Hab.
    + by rewrite Hrev, Hab.
  - by intros a b handler fuel st -> ->.
Qed.

Lemma New_plum0 : New (H := literal_platform) = Some plum0.
Proof. by vm_compute. Qed.

Lemma reachable_plum0 : reachable (H := literal_platform) plum0.
Proof. exists plum0. split; [apply New_plum0|done]. Qed.

(** C3 on the root router of a new server, whose list holds [Recover]:
    after [Use(A, B)] a handler is composed as Recover around A around B. *)
Lemma Use_first_supplied_outermost_witness :
  reachable (H := literal_platform) plum0
  ∧ (∃ R, routers plum0 !! 0 = Some R
          ∧ ∀ handler, withMiddlewares plum0 R handler
                       = Recover (H := literal_platform) handler)
  ∧ ∃ w1 R1,
      Use_args plum0 0 [announce "A"; announce "B"] = Some w1
      ∧ routers w1 !! 0 = Some R1
      ∧ ∀ handler,
          withMiddlewares w1 R1 handler
          = Recover (H := literal_platform) (announce "A" (announce "B" handler)).
Proof.
  split; [apply reachable_plum0|].
  split; [eexists; split; reflexivity|].
  destruct (Use_first_supplied_outermost (H := literal_platform) plum0 0 _
              (announce "A") (announce "B") reachable_plum0 eq_refl)
    as (w1 & R1 & HU & HR1 & _ & Hwm & _).
  exists w1, R1. split; [exact HU|]. split; [exact HR1|].
  intros handler. rewrite Hwm. reflexivity.
Defined.

(** The order in a served request: the route is registered after
    [Use(A, B)] on the root router, and the request prints A, B, handler. *)
Example announce_order_served :
  (w1 ← Use_args plum0 0 [announce "A"; announce "B"];
   w2 ← Handle (H := literal_platform) w1 0 "GET" "/x" (say "handler");
   '(_, rh) ← last (mux w2);
   match sv_outcome (RouterHandler_ServeHTTP (H := literal_platform) 20 rh [] empty_Heap fresh_response
                       (get_request "/x")) with
   | Finished s => Some (trace s)
   | _ => None
   end)
  = Some [EvPrint Stdout "A"; EvPrint Stdout "B"; EvPrint Stdout "handler"].
Proof. by vm_compute. Qed.

Section LaterUse.
Context `{Platform}.

Lemma reachable_step w w' : reachable w → rtc step w w' → reachable w'.
Proof. intros (w0 & HN & Hst) Hst'. exists w0. split; [done|]. by etrans. Qed.

End LaterUse.

(** C4: [r.Group(path, xs...)] makes a new router [g], distinct from [r],
    whose middleware list holds [xs] reversed followed by the elements of
    [r]'s list at that moment (with no [xs] it is the very slice of [r]),
    and leaves [r] as it was.  Whatever happens afterwards, a call of
    [r.Use] changes neither what is registered on the mux nor any router
    other than [r]: [g] keeps its list and composes the same handlers. *)
Theorem Group_snapshots_middlewares `{Platform} (w : World) (r : nat) (R : Router)
  (relativePath : string) (xs : list Middleware) :
  reachable w → routers w !! r = Some R →
  ∃ w1 g G,
    Group_args w r relativePath xs = Some (w1, g)
    ∧ g ≠ r
    ∧ routers w1 !! g = Some G
    ∧ routers w1 !! r = Some R
    ∧ slice_elems (mstore w1) (middlewares G)
      = reverse xs ++ slice_elems (mstore w) (middlewares R)
    ∧ (xs = [] → middlewares G = middlewares R)
    ∧ slice_elems (mstore w1) (middlewares R) = slice_elems (mstore w) (middlewares R)
    ∧ (∀ w2 w3,
         rtc step w1 w2 → Use_call w2 r w3 →
         mux w3 = mux w2
         ∧ ∀ q Q, q ≠ r → routers w2 !! q = Some Q →
             routers w3 !! q = Some Q
             ∧ slice_elems (mstore w3) (middlewares Q)
               = slice_elems (mstore w2) (middlewares Q)
             ∧ ∀ handler, withMiddlewares w3 Q handler = withMiddlewares w2 Q handler).
Proof.
  intros Hre HR. pose proof (reachable_sound w Hre) as [Hok _].
  destruct (Group_args_spec w r R relativePath xs Hok HR)
    as (w1 & G & HG & Hrs & Hmx & _ & _ & Hel & Hfr & Hal).
  exists w1, (length (routers w)), G.
  pose proof (lookup_lt_Some _ _ _ HR) as Hlt.
  split_and!; try done.
  - lia.
  - rewrite Hrs. by apply list_lookup_middle.
  - rewrite Hrs. by apply lookup_app_l_Some.
  - apply Hfr. by eapply list_elem_of_lookup_2.
  - intros w2 w3 Hst HU.
    assert (Hre2 : reachable w2).
    { eapply reachable_step; [|exact Hst]. eapply reachable_step; [exact Hre|].
      eapply rtc_once, step_Group, HG. }
    pose proof (reachable_sound w2 Hre2) as [Hok2 _].
    destruct (Use_call_frame w2 r w3 Hok2 HU) as [Hmx3 Hfr3].
    split; [done|]. intros q Q Hq HQ.
    destruct (Hfr3 q Q Hq HQ) as [HQ3 Hel3]. split_and!; try done.
    intros handler. unfold withMiddlewares. by rewrite Hel3.
Qed.

(** C4 on a new server: the group [/api] is created with one middleware,
    then the root router gets another one; the group still composes its
    own middleware and [Recover] only. *)
Lemma Group_snapshots_middlewares_witness :
  reachable (H := literal_platform) plum0
  ∧ (∃ R, routers plum0 !! 0 = Some R)
  ∧ ∃ w1 g G w3,
      Group_args (H := literal_platform) plum0 0 "/api" [announce "auth"] = Some (w1, g)
      ∧ routers w1 !! g = Some G
      ∧ Use_args w1 0 [announce "late"] = Some w3
      ∧ routers w3 !! g = Some G
      ∧ ∀ handler,
          withMiddlewares w3 G handler
          = Recover (H := literal_platform) (announce "auth" handler).
Proof.
  split; [apply reachable_plum0|]. split; [by eexists|].
  destruct (Group_snapshots_middlewares (H := literal_platform) plum0 0 _ "/api"
              [announce "auth"] reachable_plum0 eq_refl)
    as (w1 & g & G & HG & Hne & HGl & HRl & Hel & _ & _ & Hlater).
  assert (Hre1 : reachable (H := literal_platform) w1).
  { eapply reachable_step; [apply reachable_plum0|]. eapply rtc_once, step_Group, HG. }
  destruct (reachable_sound w1 Hre1) as [Hok1 _].
  destruct (Use_args_spec w1 0 _ [announce "late"] Hok1 HRl) as (w3 & s & HU & _).
  destruct (Hlater w1 w3 (rtc_refl _ _)) as [_ Hfr]; [left; by eexists|].
  destruct (Hfr g G Hne HGl) as (HG3 & Hel3 & Hwm).
  exists w1, g, G, w3.
  split; [exact HG|]. split; [exact HGl|]. split; [exact HU|]. split; [exact HG3|].
  intros handler. rewrite Hwm. unfold withMiddlewares. rewrite Hel. reflexivity.
Defined.

(** ** Recovery *)


Section RecoverFacts.
Context `{Platform}.

Lemma run_DeferRecover n body onpanic k s :
  run (S n) (PDeferRecover body onpanic k) s
  = match run n body s with
    | Finished s' => run n k s'
    | Panicked err s' => bind (run n (onpanic err) s') (run n k)
    | OutOfFuel s' => OutOfFuel s'
    end.
Proof. done. Qed.



(** The deferred function panics only where it dumps the request or
    writes the status: on a request whose dump panics, or on a context
    without writer. *)
Lemma Recover_deferred_panics n err s e s2 :
  bind (run n (Recover_deferred err) s) (run n PDone) = Panicked e s2 →
  e = nil_deref
  ∧ (Writer (ctx s) = None ∨ dump_of (Request (ctx s)) = None).
Proof.
  unfold Recover_deferred, PAbortWithStatus.
  do 3 (destruct n as [|n]; [done|]).
  simpl. destruct (dump_of (Request (ctx s))) as [rawReq|]; simpl.
  - destruct n as [|n]; [done|].
    simpl. unfold Status. simpl.
    destruct (Writer (ctx s)) as [w1|] eqn:Hw; simpl.
    + change (checkWriteHeaderCode StatusInternalServerError) with true.
      rewrite orb_true_r.
      do 2 (destruct n as [|n]; [done|]). simpl. done.
    + unfold Status_panic. simpl. rewrite Hw. intros [= <- _]. auto.
  - intros [= <- _]. auto.
Qed.

(** A panic leaves [Recover] only when the handler it wraps panicked and
    left a context without writer, or with a request whose dump panics. *)
Lemma run_Recover_panics n inner s e s2 :
  run n (Recover inner) s = Panicked e s2 →
  e = nil_deref
  ∧ ∃ err s1,
      run (pred n) inner s = Panicked err s1
      ∧ (Writer (ctx s1) = None ∨ dump_of (Request (ctx s1)) = None).
Proof.
  destruct n as [|n]; [done|].
  unfold Recover. rewrite run_DeferRecover. simpl.
  destruct (run n inner s) as [s'|err s'|s'] eqn:Hin.
  - destruct n; simpl; done.
  - intros Hp. apply Recover_deferred_panics in Hp as [-> Hw]. eauto.
  - done.
Qed.


End RecoverFacts.




(** ** Requests that match no route *)

Section Miss.
Context `{Platform}.

(** When the mux reports no pattern, [ServeHTTP] prints a line on standard
    output and returns; the response is as it was handed in. *)
Lemma ServeHTTP_miss fuel p hp res req :
  RequestURI req ≠ "*" → (mux_Handler (mux p) req).2 = "" →
  ServeHTTP fuel p hp res req
  = {| reply_res := res; reply_stdout := ["not found "]; reply_panic := None;
       reply_pool := pool p |}.
Proof.
  intros Huri Hpt. unfold ServeHTTP.
  destruct (String.eqb_spec (RequestURI req) "*") as [|_]; [done|].
  destruct (mux_Handler (mux p) req) as [h pt]. simpl in Hpt. by subst pt.
Qed.

End Miss.

(** C1 at the request of the README that matches no route: [/hello] is
    answered through its handler, while for [/2/hello] nothing is written
    to the response, neither a 404 status nor a body; the only effect is a
    line on standard output. *)
Theorem ServeHTTP_miss_writes_nothing :
  (mux readme_World).*1 !! 12 = Some "GET /hello"
  ∧ rw_calls (reply_res (ServeHTTP (H := literal_platform) 10 readme_World empty_Heap
                           fresh_response (get_request "/hello")))
    = [WriteHeader 200]
  ∧ literal_Handler (mux readme_World) (get_request "/2/hello") = (HNotFound, "")
  ∧ ServeHTTP (H := literal_platform) 10 readme_World empty_Heap fresh_response
              (get_request "/2/hello")
    = {| reply_res := fresh_response; reply_stdout := ["not found "];
         reply_panic := None; reply_pool := [] |}
  ∧ rw_calls (http_Error StatusNotFound ("404 page not found" +:+ nl) fresh_response)
    = [WriteHeader 404; Write ("404 page not found" +:+ nl)].
Proof. split_and!; by vm_compute. Qed.

(** * Further properties of the package *)

(** ** The bag, the parameters and copies *)

Lemma keys_of_Set key value h c :
  keys_ok h c →
  keys_of (Set_ key value h c).1 (Keys (Set_ key value h c).2)
  = <[key := value]> (keys_of h (Keys c)).
Proof.
  unfold keys_ok, Set_, Keys_init. destruct (Keys c) as [a|] eqn:Hk; simpl.
  - intros Ha. rewrite Hk. simpl.
    destruct (lookup_lt_is_Some_2 _ _ Ha) as [m Hm]. unfold keys_of. simpl.
    rewrite list_lookup_alter, Hm. by rewrite decide_True.
  - intros _. rewrite alter_end. unfold keys_of. simpl.
    by rewrite list_lookup_middle.
Qed.

Lemma Set_other_maps key value h c a :
  keys_ok h c → Keys (Set_ key value h c).2 ≠ Some a → a < length (hmaps h) →
  hmaps (Set_ key value h c).1 !! a = hmaps h !! a.
Proof.
  unfold keys_ok, Set_, Keys_init. destruct (Keys c) as [b|] eqn:Hk; simpl.
  - intros Hb Hne Ha. rewrite Hk. simpl. rewrite Hk in Hne.
    apply list_lookup_alter_ne. congruence.
  - intros _ Hne Ha. rewrite alter_end. by apply lookup_app_l.
Qed.

Lemma keys_ok_Set key value h c :
  keys_ok h c → keys_ok (Set_ key value h c).1 (Set_ key value h c).2.
Proof.
  unfold keys_ok, Set_, Keys_init. destruct (Keys c) as [b|] eqn:Hk; simpl.
  - intros Hb. rewrite Hk. simpl. by rewrite length_alter.
  - intros _. rewrite length_alter, length_app. simpl. lia.
Qed.

Lemma Set_then_Get_aux (h : Heap) (c : Context) (key : string) (value : any) :
  keys_ok h c →
  Get key (Set_ key value h c).1 (Set_ key value h c).2 = Some value
  ∧ (∀ a, Keys c ≠ Some a → a < length (hmaps h) →
       hmaps (Set_ key value h c).1 !! a = hmaps h !! a).
Proof.
  intros Hok. unfold Get. rewrite (keys_of_Set key value h c Hok). split.
  - by rewrite lookup_insert_eq.
  - intros a Hne Ha. apply Set_other_maps; [done| |done].
    unfold Set_, Keys_init. destruct (Keys c) eqn:Hk; simpl; [congruence|].
    intros [= Heq]. lia.
Qed.

(** X1: on a context whose bag reference is valid (nil included), after
    [Set(key, value)] a [Get] of that key finds the value, a [Get] of any
    other key finds what it found before, and nothing but the bag of this
    context changed: the fields of the context other than [Keys], the
    parameter arrays and every other map of the store are as they
    were. *)
Theorem Set_then_Get (h : Heap) (c : Context) (key : string) (value : any) :
  keys_ok h c →
  Get key (Set_ key value h c).1 (Set_ key value h c).2 = Some value
  ∧ (∀ k, k ≠ key →
       Get k (Set_ key value h c).1 (Set_ key value h c).2 = Get k h c)
  ∧ keys_ok (Set_ key value h c).1 (Set_ key value h c).2
  ∧ set_Keys (Keys c) (Set_ key value h c).2 = c
  ∧ hparams (Set_ key value h c).1 = hparams h
  ∧ (∀ a, Keys c ≠ Some a → a < length (hmaps h) →
       hmaps (Set_ key value h c).1 !! a = hmaps h !! a).
Proof.
  intros Hok. unfold Get. rewrite (keys_of_Set key value h c Hok). split_and!.
  - by rewrite lookup_insert_eq.
  - intros k Hk. by rewrite lookup_insert_ne.
  - by apply keys_ok_Set.
  - unfold Set_, Keys_init. destruct c as [? ? ? ? ? ? [a|] ?]; reflexivity.
  - unfold Set_, Keys_init. destruct (Keys c) eqn:Hk; simpl; [by rewrite Hk|done].
  - intros a Hne Ha. apply Set_other_maps; [done| |done].
    unfold Set_, Keys_init. destruct (Keys c) eqn:Hk; simpl; [congruence|].
    intros [= Heq]. lia.
Qed.

(** X1 on the context of a running request whose bag holds one entry. *)
Lemma Set_then_Get_witness :
  keys_ok busy_Heap busy_Context
  ∧ Get "role" (Set_ "role" (AnyString "admin") busy_Heap busy_Context).1
        (Set_ "role" (AnyString "admin") busy_Heap busy_Context).2
    = Some (AnyString "admin")
  ∧ Get "user" (Set_ "role" (AnyString "admin") busy_Heap busy_Context).1
        (Set_ "role" (AnyString "admin") busy_Heap busy_Context).2
    = Some (AnyString "ada").
Proof.
  assert (Hok : keys_ok busy_Heap busy_Context) by (unfold keys_ok; simpl; lia).
  split; [exact Hok|].
  destruct (Set_then_Get busy_Heap busy_Context "role" (AnyString "admin") Hok)
    as (Hget & Hother & _).
  split; [exact Hget|]. rewrite Hother; [reflexivity|done].
Defined.

Section AppendFacts.
Context {A : Type}.
Implicit Types (h : list (list A)) (s t : slice).

Lemma slice_room_ok h s : slice_room h s → slice_ok h s.
Proof.
  intros [Hle Hb]. unfold slice_ok. destruct (sbase s); [|lia].
  destruct Hb as (arr & Ha & Hc). exists arr. split; [done|lia].
Qed.

Lemma slice_room_reslice0 h s : slice_room h s → slice_room h (reslice0 s).
Proof. intros [Hle Hb]. split; [simpl; lia|done]. Qed.

(** Within the capacity, [append] writes one cell of the array of [s]. *)
Lemma append_slice_in_place newcap zero h s x :
  slice_room h s → slen s < scap s →
  ∃ a arr, sbase s = Some a ∧ h !! a = Some arr
    ∧ soff s + slen s < length arr
    ∧ append_slice newcap zero h s x
      = (<[a := <[soff s + slen s := x]> arr]> h,
         Slice (Some a) (soff s) (S (slen s)) (scap s)).
Proof.
  intros [Hle Hb] Hlt. unfold append_slice.
  destruct (Nat.ltb_spec (slen s) (scap s)) as [_|]; [|lia].
  destruct (sbase s) as [a|]; [|lia].
  destruct Hb as (arr & Ha & Hc). exists a, arr. split_and!; [done|done|lia|].
  f_equal. apply list_eq. intros i. rewrite list_lookup_alter.
  case_decide as Hi; subst.
  - rewrite Ha. simpl. symmetry. apply list_lookup_insert_eq. by eapply lookup_lt_Some.
  - symmetry. apply list_lookup_insert_ne. congruence.
Qed.

(** At full capacity, [append] allocates and leaves every array alone. *)
Lemma append_slice_full newcap zero h s x :
  scap s ≤ slen s →
  ∃ c, S (slen s) ≤ c
    ∧ append_slice newcap zero h s x
      = (h ++ [slice_elems h s ++ x :: replicate (c - S (slen s)) zero],
         Slice (Some (length h)) 0 (S (slen s)) c).
Proof.
  intros Hle. unfold append_slice.
  destruct (Nat.ltb_spec (slen s) (scap s)) as [|_]; [lia|].
  eexists. split; [|reflexivity]. lia.
Qed.

Lemma append_slice_elems newcap zero h s x :
  slice_room h s →
  slice_elems (append_slice newcap zero h s x).1 (append_slice newcap zero h s x).2
  = slice_elems h s ++ [x].
Proof.
  intros Hroom. destruct (decide (slen s < scap s)) as [Hlt|Hge].
  - destruct (append_slice_in_place newcap zero h s x Hroom Hlt)
      as (a & arr & Hb & Ha & Hi & ->).
    unfold slice_elems. simpl. rewrite Hb, Ha.
    rewrite list_lookup_insert_eq by by eapply lookup_lt_Some. simpl.
    rewrite drop_insert_ge by lia.
    replace (soff s + slen s - soff s) with (slen s) by lia.
    erewrite take_S_r.
    + by rewrite take_insert_ge by lia.
    + apply list_lookup_insert_eq. rewrite length_drop. lia.
  - destruct (append_slice_full newcap zero h s x ltac:(lia)) as (c & Hc & ->).
    pose proof (slice_ok_length h s (slice_room_ok h s Hroom)) as Hlen.
    unfold slice_elems at 1. simpl. rewrite list_lookup_middle by done. simpl.
    rewrite drop_0. rewrite cons_middle, app_assoc, take_app_length'; [done|].
    rewrite length_app. simpl. lia.
Qed.

Lemma append_slice_room newcap zero h s x :
  slice_room h s →
  slice_room (append_slice newcap zero h s x).1 (append_slice newcap zero h s x).2.
Proof.
  intros Hroom. destruct (decide (slen s < scap s)) as [Hlt|Hge].
  - destruct (append_slice_in_place newcap zero h s x Hroom Hlt)
      as (a & arr & Hb & Ha & Hi & ->).
    destruct Hroom as [Hle Hr]. rewrite Hb in Hr. destruct Hr as (arr' & Ha' & Hc).
    assert (arr' = arr) as -> by congruence.
    split; simpl; [lia|]. eexists. split.
    + apply list_lookup_insert_eq. by eapply lookup_lt_Some.
    + rewrite length_insert. lia.
  - destruct (append_slice_full newcap zero h s x ltac:(lia)) as (c & Hc & ->).
    pose proof (slice_ok_length h s (slice_room_ok h s Hroom)) as Hlen.
    split; simpl; [lia|]. eexists. split; [by apply list_lookup_middle|].
    rewrite length_app. simpl. rewrite length_replicate. lia.
Qed.

(** A slice on another array does not see the [append]. *)
Lemma append_slice_apart newcap zero h s x t :
  slice_room h s → slice_ok h t → sbase t ≠ sbase s →
  slice_elems (append_slice newcap zero h s x).1 t = slice_elems h t.
Proof.
  intros Hroom Ht Hne. destruct (decide (slen s < scap s)) as [Hlt|Hge].
  - destruct (append_slice_in_place newcap zero h s x Hroom Hlt)
      as (a & arr & Hb & Ha & Hi & ->).
    unfold slice_elems. simpl. destruct (sbase t) as [b|]; [|done].
    rewrite list_lookup_insert_ne; [done|]. congruence.
  - destruct (append_slice_full newcap zero h s x ltac:(lia)) as (c & Hc & ->).
    simpl. by apply slice_elems_alloc.
Qed.

End AppendFacts.

Lemma AddParam_unfold `{Library} key value h c :
  AddParam key value h c
  = ({| hmaps := hmaps h;
        hparams := (append_slice append_cap zero_Param (hparams h) (Params c)
                      {| Key := key; Value := value |}).1 |},
     set_Params (append_slice append_cap zero_Param (hparams h) (Params c)
                   {| Key := key; Value := value |}).2 c).
Proof. unfold AddParam. by destruct (append_slice _ _ _ _ _). Qed.

Lemma AddParam_spec `{Library} (h : Heap) (c : Context) (key value : string) :
  slice_room (hparams h) (Params c) →
  slice_elems (hparams (AddParam key value h c).1) (Params (AddParam key value h c).2)
  = slice_elems (hparams h) (Params c) ++ [{| Key := key; Value := value |}]
  ∧ (∀ t, slice_ok (hparams h) t → sbase t ≠ sbase (Params c) →
       slice_elems (hparams (AddParam key value h c).1) t = slice_elems (hparams h) t)
  ∧ (slen (Params c) < scap (Params c) →
       length (hparams (AddParam key value h c).1) = length (hparams h)
       ∧ sbase (Params (AddParam key value h c).2) = sbase (Params c)).
Proof.
  intros Hroom. rewrite AddParam_unfold. simpl. split_and!.
  - by apply append_slice_elems.
  - intros t Ht Hne. by apply append_slice_apart.
  - intros Hlt.
    destruct (append_slice_in_place append_cap zero_Param (hparams h) (Params c)
                {| Key := key; Value := value |} Hroom Hlt)
      as (a & arr & Hb & Ha & Hi & ->).
    simpl. by rewrite length_insert.
Qed.

(** X2: on a context whose parameter slice lies within its array,
    [AddParam] leaves the context showing the parameters it showed
    followed by the new one, and changes nothing else of the context or
    of the bag.  Slices on other arrays show what they showed.  While the
    length is below the capacity no array is allocated: the parameter is
    written into the array the slice already has.  At full capacity a
    new array is allocated and no existing slice changes. *)
Theorem AddParam_appends `{Library} (h : Heap) (c : Context) (key value : string) :
  slice_room (hparams h) (Params c) →
  slice_elems (hparams (AddParam key value h c).1) (Params (AddParam key value h c).2)
  = slice_elems (hparams h) (Params c) ++ [{| Key := key; Value := value |}]
  ∧ slice_room (hparams (AddParam key value h c).1) (Params (AddParam key value h c).2)
  ∧ hmaps (AddParam key value h c).1 = hmaps h
  ∧ set_Params (Params c) (AddParam key value h c).2 = c
  ∧ (∀ t, slice_ok (hparams h) t → sbase t ≠ sbase (Params c) →
       slice_elems (hparams (AddParam key value h c).1) t = slice_elems (hparams h) t)
  ∧ (slen (Params c) < scap (Params c) →
       length (hparams (AddParam key value h c).1) = length (hparams h)
       ∧ sbase (Params (AddParam key value h c).2) = sbase (Params c))
  ∧ (scap (Params c) ≤ slen (Params c) →
       sbase (Params (AddParam key value h c).2) = Some (length (hparams h))
       ∧ ∀ t, slice_ok (hparams h) t →
           slice_elems (hparams (AddParam key value h c).1) t = slice_elems (hparams h) t).
Proof.
  intros Hroom. destruct (AddParam_spec h c key value Hroom) as (Hel & Hfr & Hin).
  split_and!; [done| | | |done|done|]; rewrite AddParam_unfold; simpl.
  - by apply append_slice_room.
  - done.
  - by destruct c.
  - intros Hge.
    destruct (append_slice_full append_cap zero_Param (hparams h) (Params c)
                {| Key := key; Value := value |} Hge) as (n & Hn & ->).
    simpl. split; [done|]. intros t Ht. by apply slice_elems_alloc.
Qed.

(** X2 on the context of a running request: two parameters in an array of
    four, so the third is written in place. *)
Lemma AddParam_appends_witness :
  slice_room (hparams busy_Heap) (Params busy_Context)
  ∧ slice_elems (hparams (AddParam (H := literal_library) "q" "1" busy_Heap busy_Context).1)
                (Params (AddParam (H := literal_library) "q" "1" busy_Heap busy_Context).2)
    = [ {| Key := "id"; Value := "7" |}; {| Key := "tab"; Value := "x" |};
        {| Key := "q"; Value := "1" |} ]
  ∧ length (hparams (AddParam (H := literal_library) "q" "1" busy_Heap busy_Context).1) = 1.
Proof.
  assert (Hroom : slice_room (hparams busy_Heap) (Params busy_Context)).
  { split; [simpl; lia|]. eexists. split; [reflexivity|]. simpl. lia. }
  split; [exact Hroom|].
  destruct (AddParam_appends (H := literal_library) busy_Heap busy_Context "q" "1" Hroom)
    as (Hel & _ & _ & _ & _ & Hin & _).
  split; [exact Hel|]. apply Hin. simpl. lia.
Defined.

(** X3: a context that comes back from [reset] with an array of capacity
    above zero gets its first parameter written into that same array:
    the context then shows exactly the new parameter, no array is
    allocated, and a slice header that was read from [c.Params] before the
    [reset] and kept now shows the new parameter in its first position. *)
Theorem reset_AddParam_reuses_array `{Library} (h : Heap) (c : Context)
    (key value : string) :
  slice_room (hparams h) (Params c) → 0 < scap (Params c) →
  slice_elems (hparams (AddParam key value h (reset c)).1)
              (Params (AddParam key value h (reset c)).2)
  = [{| Key := key; Value := value |}]
  ∧ length (hparams (AddParam key value h (reset c)).1) = length (hparams h)
  ∧ sbase (Params (AddParam key value h (reset c)).2) = sbase (Params c)
  ∧ (0 < slen (Params c) →
       slice_elems (hparams (AddParam key value h (reset c)).1) (Params c)
       = {| Key := key; Value := value |} :: drop 1 (slice_elems (hparams h) (Params c))).
Proof.
  intros Hroom Hcap.
  assert (Hroom0 : slice_room (hparams h) (Params (reset c)))
    by by apply slice_room_reslice0.
  destruct (AddParam_spec h (reset c) key value Hroom0) as (Hel & _ & Hin).
  specialize (Hin Hcap). destruct Hin as [Hlen Hbase].
  split_and!; [|done|done|].
  - rewrite Hel. unfold slice_elems. simpl. by destruct (sbase (Params c)).
  - intros Hpos. rewrite AddParam_unfold. simpl.
    destruct (append_slice_in_place append_cap zero_Param (hparams h) (reslice0 (Params c))
                {| Key := key; Value := value |} Hroom0 Hcap)
      as (a & arr & Hb & Ha & Hi & ->).
    simpl in *. unfold slice_elems. rewrite Hb, Ha. simpl.
    rewrite list_lookup_insert_eq by by eapply lookup_lt_Some. simpl.
    rewrite Nat.add_0_r in *. rewrite drop_insert_ge by lia.
    rewrite Nat.sub_diag. rewrite take_insert_lt by lia.
    destruct Hroom as [Hle Hr]. rewrite Hb in Hr. destruct Hr as (arr' & Ha' & Hc).
    assert (arr' = arr) as -> by congruence.
    destruct (drop (soff (Params c)) arr) as [|p rest] eqn:Hd.
    { apply (f_equal length) in Hd. rewrite length_drop in Hd. simpl in Hd. lia. }
    destruct (slen (Params c)) as [|n]; [lia|]. simpl. by rewrite drop_0.
Qed.

(** X3 on the context of a running request that is reset and given the
    parameter of the next request. *)
Lemma reset_AddParam_reuses_array_witness :
  slice_room (hparams busy_Heap) (Params busy_Context)
  ∧ 0 < scap (Params busy_Context)
  ∧ slice_elems (hparams (AddParam (H := literal_library) "id" "8" busy_Heap
                            (reset busy_Context)).1)
                (Params busy_Context)
    = [ {| Key := "id"; Value := "8" |}; {| Key := "tab"; Value := "x" |} ].
Proof.
  assert (Hroom : slice_room (hparams busy_Heap) (Params busy_Context)).
  { split; [simpl; lia|]. eexists. split; [reflexivity|]. simpl. lia. }
  assert (Hcap : 0 < scap (Params busy_Context)) by (simpl; lia).
  split; [exact Hroom|]. split; [exact Hcap|].
  destruct (reset_AddParam_reuses_array (H := literal_library) busy_Heap busy_Context
              "id" "8" Hroom Hcap) as (_ & _ & _ & Hstale).
  apply Hstale. simpl. lia.
Defined.

(** X4: a copy and its original do not share what [Set] and [AddParam]
    write.  After [Copy], a [Set] or an [AddParam] on the copy leaves the
    bag and the parameters the original shows as they were, and a [Set] or
    an [AddParam] on the original leaves the copy showing the bag and the
    parameters the original had when it was copied; so does a [Set] or an
    [AddParam] on the original after its [reset], which is what the next
    request does to a pooled context. *)
Theorem Copy_is_independent `{Library} (h : Heap) (c : Context)
    (key : string) (value : any) (pk pv : string) :
  keys_ok h c → slice_room (hparams h) (Params c) →
  (keys_of (Set_ key value (Copy h c).1 (Copy h c).2).1 (Keys c) = keys_of h (Keys c)
   ∧ Get key (Set_ key value (Copy h c).1 (Copy h c).2).1
         (Set_ key value (Copy h c).1 (Copy h c).2).2 = Some value)
  ∧ (slice_elems (hparams (AddParam pk pv (Copy h c).1 (Copy h c).2).1) (Params c)
     = slice_elems (hparams h) (Params c)
     ∧ slice_elems (hparams (AddParam pk pv (Copy h c).1 (Copy h c).2).1)
                   (Params (AddParam pk pv (Copy h c).1 (Copy h c).2).2)
       = slice_elems (hparams h) (Params c) ++ [{| Key := pk; Value := pv |}])
  ∧ keys_of (Set_ key value (Copy h c).1 c).1 (Keys (Copy h c).2) = keys_of h (Keys c)
  ∧ slice_elems (hparams (AddParam pk pv (Copy h c).1 c).1) (Params (Copy h c).2)
    = slice_elems (hparams h) (Params c)
  ∧ keys_of (Set_ key value (Copy h c).1 (reset c)).1 (Keys (Copy h c).2)
    = keys_of h (Keys c)
  ∧ slice_elems (hparams (AddParam pk pv (Copy h c).1 (reset c)).1) (Params (Copy h c).2)
    = slice_elems (hparams h) (Params c).
Proof.
  intros Hkeys Hroom.
  pose proof (slice_room_ok _ _ Hroom) as Hok.
  pose proof (slice_ok_length _ _ Hok) as Hlen.
  rewrite (Copy_unfold h c Hok).
  set (h1 := {| hmaps := hmaps h ++ [keys_of h (Keys c)];
                hparams := hparams h ++ [slice_elems (hparams h) (Params c)] |}).
  set (cp := {| Request := Request c; Writer := None;
                Params := Slice (Some (length (hparams h))) 0 (slen (Params c))
                                (slen (Params c));
                handlers := []; index := abortIndex; engine := engine c;
                Keys := Some (length (hmaps h)); sameSite := 0 |}).
  cbn [fst snd].
  assert (Hk1 : keys_ok h1 cp).
  { unfold keys_ok. simpl. rewrite length_app. simpl. lia. }
  assert (Hkc : keys_ok h1 c).
  { unfold keys_ok in *. destruct (Keys c); [|done]. simpl. rewrite length_app. lia. }
  assert (Hcp : keys_of h1 (Keys cp) = keys_of h (Keys c)).
  { unfold keys_of. simpl. by rewrite list_lookup_middle. }
  assert (Hc1 : keys_of h1 (Keys c) = keys_of h (Keys c)).
  { unfold keys_of, keys_ok in *. destruct (Keys c) as [a|]; [|done]. simpl.
    by rewrite lookup_app_l. }
  assert (Hr1 : slice_room (hparams h1) (Params cp)).
  { split; [simpl; lia|]. simpl. eexists. split; [by apply list_lookup_middle|].
    simpl. lia. }
  assert (Hrc : slice_room (hparams h1) (Params c)).
  { destruct Hroom as [Hle Hr]. split; [done|]. destruct (sbase (Params c)); [|done].
    destruct Hr as (arr & Ha & Hc). exists arr. split; [|done]. simpl.
    by apply lookup_app_l_Some. }
  assert (He1 : slice_elems (hparams h1) (Params c) = slice_elems (hparams h) (Params c)).
  { simpl. by apply slice_elems_alloc. }
  assert (Hep : slice_elems (hparams h1) (Params cp) = slice_elems (hparams h) (Params c)).
  { simpl. apply slice_elems_fresh. by rewrite Hlen. }
  assert (Hbase : sbase (Params c) ≠ sbase (Params cp)).
  { simpl. intros Hb. pose proof (slice_ok_base _ _ _ Hok Hb). lia. }
  destruct (Set_then_Get_aux h1 cp key value Hk1) as (Hg1 & Ho1).
  destruct (Set_then_Get_aux h1 c key value Hkc) as (Hg2 & Ho2).
  destruct (AddParam_spec h1 cp pk pv Hr1) as (Ha1 & Hfr1 & _).
  destruct (AddParam_spec h1 c pk pv Hrc) as (Ha2 & Hfr2 & _).
  destruct (Set_then_Get_aux h1 (reset c) key value I) as (_ & Ho3).
  destruct (AddParam_spec h1 (reset c) pk pv (slice_room_reslice0 _ _ Hrc))
    as (_ & Hfr3 & _).
  split_and!.
  - rewrite <- Hc1. unfold keys_of. destruct (Keys c) as [a|] eqn:Hka; [|done].
    rewrite Ho1; [done| |].
    + simpl. intros [= Heq]. unfold keys_ok in Hkeys. rewrite Hka in Hkeys. lia.
    + unfold keys_ok in Hkc. by rewrite Hka in Hkc.
  - done.
  - rewrite Hfr1; [done| |done]. by apply slice_room_ok.
  - by rewrite Ha1, Hep.
  - rewrite <- Hcp. unfold keys_of. simpl.
    rewrite Ho2; [done| |].
    + intros Heq. unfold keys_ok in Hkeys. rewrite Heq in Hkeys. lia.
    + simpl. rewrite length_app. simpl. lia.
  - rewrite Hfr2; [done| |by apply not_eq_sym]. by apply slice_room_ok.
  - rewrite <- Hcp. unfold keys_of. simpl.
    rewrite Ho3; [done|done|]. simpl. rewrite length_app. simpl. lia.
  - rewrite Hfr3; [done| |by apply not_eq_sym]. by apply slice_room_ok.
Qed.

(** X4 on the context of a running request. *)
Lemma Copy_is_independent_witness :
  keys_ok busy_Heap busy_Context
  ∧ slice_room (hparams busy_Heap) (Params busy_Context)
  ∧ keys_of (Set_ "user" (AnyString "eve") (Copy busy_Heap busy_Context).1
                  (Copy busy_Heap busy_Context).2).1 (Keys busy_Context)
    = keys_of busy_Heap (Keys busy_Context)
  ∧ slice_elems (hparams (AddParam (H := literal_library) "q" "1"
                            (Copy busy_Heap busy_Context).1 busy_Context).1)
                (Params (Copy busy_Heap busy_Context).2)
    = slice_elems (hparams busy_Heap) (Params busy_Context).
Proof.
  assert (Hok : keys_ok busy_Heap busy_Context) by (unfold keys_ok; simpl; lia).
  assert (Hroom : slice_room (hparams busy_Heap) (Params busy_Context)).
  { split; [simpl; lia|]. eexists. split; [reflexivity|]. simpl. lia. }
  split; [exact Hok|]. split; [exact Hroom|].
  destruct (Copy_is_independent (H := literal_library) busy_Heap busy_Context
              "user" (AnyString "eve") "q" "1" Hok Hroom)
    as ((Hset & _) & _ & _ & Hadd & _).
  split; [exact Hset|exact Hadd].
Defined.

(** ** Texts: content types and bracketed keys *)

Lemma filterFlags_prefix (content : string) :
  ∃ rest, content = filterFlags content +:+ rest
    ∧ (rest = "" ∨ ∃ r, rest = String " " r ∨ rest = String ";" r).
Proof.
  induction content as [|a s IH]; simpl.
  - exists "". by split; [|left].
  - destruct (Ascii.eqb_spec a " ") as [->|Hsp]; simpl.
    { exists (String " " s). split; [done|]. right. exists s. by left. }
    destruct (Ascii.eqb_spec a ";") as [->|Hsc]; simpl.
    { exists (String ";" s). split; [done|]. right. exists s. by right. }
    destruct IH as (rest & Heq & Hrest). exists rest. split; [|done].
    change (String a s = String a (filterFlags s +:+ rest)). congruence.
Qed.

Lemma filterFlags_clean (content : string) :
  (" "%char ∉ String.list_ascii_of_string (filterFlags content))
  ∧ (";"%char ∉ String.list_ascii_of_string (filterFlags content)).
Proof.
  induction content as [|a s [IH1 IH2]]; simpl.
  - split; apply not_elem_of_nil.
  - destruct (Ascii.eqb_spec a " ") as [->|Hsp]; simpl.
    { split; apply not_elem_of_nil. }
    destruct (Ascii.eqb_spec a ";") as [->|Hsc]; simpl.
    { split; apply not_elem_of_nil. }
    split; apply not_elem_of_cons; split; congruence || done.
Qed.

Lemma filterFlags_fixed (s : string) :
  (" "%char ∉ String.list_ascii_of_string s) → (";"%char ∉ String.list_ascii_of_string s) →
  filterFlags s = s.
Proof.
  induction s as [|a s IH]; simpl; [done|].
  intros [Ha1 Hs1]%not_elem_of_cons [Ha2 Hs2]%not_elem_of_cons.
  destruct (Ascii.eqb_spec a " ") as [->|_]; [done|].
  destruct (Ascii.eqb_spec a ";") as [->|_]; [done|]. simpl.
  by rewrite IH.
Qed.

(** X5: [filterFlags] returns the part of the text before its first space
    or semicolon: the result is a prefix of the text, what follows it is
    nothing or starts with one of the two, and the result holds neither.
    A text that holds neither is returned whole, so filtering twice is
    filtering once.  [ContentType] therefore never returns a parameter of
    the header, and it is the nil dereference on a context without
    request. *)
Theorem filterFlags_cuts_at_first_flag `{Library} (content : string) :
  (∃ rest, content = filterFlags content +:+ rest
     ∧ (rest = "" ∨ ∃ r, rest = String " " r ∨ rest = String ";" r))
  ∧ (" "%char ∉ String.list_ascii_of_string (filterFlags content))
  ∧ (";"%char ∉ String.list_ascii_of_string (filterFlags content))
  ∧ filterFlags (filterFlags content) = filterFlags content
  ∧ (∀ c, ContentType c = None ↔ Request c = None)
  ∧ (∀ c v, ContentType c = Some v →
       (" "%char ∉ String.list_ascii_of_string v) ∧ (";"%char ∉ String.list_ascii_of_string v)
       ∧ ∃ r rest, Request c = Some r ∧ req_Header_Get r "Content-Type" = v +:+ rest).
Proof.
  pose proof (filterFlags_clean content) as [Hc1 Hc2].
  split_and!; [apply filterFlags_prefix|done|done|by apply filterFlags_fixed| |].
  - intros c. unfold ContentType, requestHeader. by destruct (Request c).
  - intros c v. unfold ContentType, requestHeader.
    destruct (Request c) as [r|]; simpl; [|done]. intros [= <-].
    pose proof (filterFlags_clean (req_Header_Get r "Content-Type")) as [? ?].
    destruct (filterFlags_prefix (req_Header_Get r "Content-Type")) as (rest & Heq & _).
    split_and!; [done|done|]. by exists r, rest.
Qed.

Lemma IndexByte_ge (s : string) (c : ascii) : (-1 ≤ IndexByte s c)%Z.
Proof.
  induction s as [|a s IH]; simpl; [lia|].
  destruct (Ascii.eqb a c); [lia|]. destruct (Z.ltb_spec (IndexByte s c) 0); lia.
Qed.

Lemma IndexByte_found (s : string) (c : ascii) (i : Z) :
  (0 ≤ i)%Z → IndexByte s c = i →
  ∃ pre post, s = pre +:+ String c post
    ∧ (c ∉ String.list_ascii_of_string pre) ∧ i = Z.of_nat (String.length pre).
Proof.
  revert i. induction s as [|a s IH]; simpl; intros i Hi Heq; [lia|].
  destruct (Ascii.eqb_spec a c) as [->|Hne].
  - exists "", s. subst i. split_and!; [done|apply not_elem_of_nil|done].
  - destruct (Z.ltb_spec (IndexByte s c) 0) as [|Hge]; [lia|].
    destruct (IH (IndexByte s c) Hge eq_refl) as (pre & post & -> & Hnot & Hlen).
    exists (String a pre), post. split_and!; [done| |].
    + simpl. apply not_elem_of_cons. split; [congruence|done].
    + simpl. lia.
Qed.

Lemma IndexByte_app (pre post : string) (c : ascii) :
  (c ∉ String.list_ascii_of_string pre) →
  IndexByte (pre +:+ String c post) c = Z.of_nat (String.length pre).
Proof.
  induction pre as [|a pre IH]; simpl.
  - intros _. by rewrite Ascii.eqb_refl.
  - intros [Hne Hnot]%not_elem_of_cons.
    destruct (Ascii.eqb_spec a c) as [->|_]; [done|].
    rewrite (IH Hnot). destruct (Z.ltb_spec (Z.of_nat (String.length pre)) 0); lia.
Qed.

Lemma substring_prefix (pre suf : string) :
  String.substring 0 (String.length pre) (pre +:+ suf) = pre.
Proof.
  induction pre as [|a pre IH]; simpl; [by destruct suf|]. by rewrite IH.
Qed.

Lemma str_slice_prefix (pre suf : string) :
  str_slice (pre +:+ suf) 0 (Z.of_nat (String.length pre)) = pre.
Proof.
  unfold str_slice. rewrite Z.sub_0_r, Nat2Z.id. apply substring_prefix.
Qed.

Lemma str_from_suffix (pre suf : string) (c : ascii) :
  str_from (pre +:+ String c suf) (Z.of_nat (String.length pre) + 1) = suf.
Proof.
  unfold str_from.
  replace (Z.to_nat (Z.of_nat (String.length pre) + 1)) with (String.length (pre +:+ String c ""))
    by (rewrite length_append; simpl; lia).
  replace (pre +:+ String c suf) with ((pre +:+ String c "") +:+ suf).
  - rewrite (length_append (pre +:+ String c "") suf).
    replace (String.length (pre +:+ String c "") + String.length suf
             - String.length (pre +:+ String c "")) with (String.length suf) by lia.
    apply substring_append_r.
  - clear. induction pre as [|a pre IH]; [done|].
    change (String a ((pre +:+ String c "") +:+ suf) = String a (pre +:+ String c suf)).
    by f_equal.
Qed.

Lemma key_sub_Some (k key sub : string) :
  key_sub k key = Some sub →
  key ≠ "" ∧ sub ≠ ""
  ∧ ("["%char ∉ String.list_ascii_of_string key)
  ∧ ("]"%char ∉ String.list_ascii_of_string sub)
  ∧ ∃ rest, k = key +:+ String "[" (sub +:+ String "]" rest).
Proof.
  unfold key_sub.
  destruct (Z.leb_spec 1 (IndexByte k "[")) as [Hi|]; [|done]. simpl.
  destruct (IndexByte_found k "[" (IndexByte k "[") ltac:(lia) eq_refl)
    as (pre & post & -> & Hpre & Hlen).
  rewrite Hlen, str_slice_prefix, str_from_suffix.
  destruct (String.eqb_spec pre key) as [->|]; [|done].
  destruct (Z.leb_spec 1 (IndexByte post "]")) as [Hj|]; [|done].
  destruct (IndexByte_found post "]" (IndexByte post "]") ltac:(lia) eq_refl)
    as (name & rest & -> & Hname & Hlen').
  rewrite Hlen', str_slice_prefix. intros [= <-].
  split_and!; [| |done|done|by exists rest].
  - intros ->. simpl in *. lia.
  - intros ->. simpl in *. lia.
Qed.

Lemma key_sub_build (key sub rest : string) :
  key ≠ "" → sub ≠ "" →
  ("["%char ∉ String.list_ascii_of_string key) →
  ("]"%char ∉ String.list_ascii_of_string sub) →
  key_sub (key +:+ String "[" (sub +:+ String "]" rest)) key = Some sub.
Proof.
  intros Hkey Hsub Hnot Hnot'. unfold key_sub.
  rewrite (IndexByte_app key _ "[" Hnot).
  assert (1 ≤ String.length key).
  { destruct key; [done|simpl; lia]. }
  assert (1 ≤ String.length sub).
  { destruct sub; [done|simpl; lia]. }
  destruct (Z.leb_spec 1 (Z.of_nat (String.length key))) as [_|]; [|lia]. simpl.
  rewrite str_slice_prefix, str_from_suffix, String.eqb_refl.
  rewrite (IndexByte_app sub _ "]" Hnot').
  destruct (Z.leb_spec 1 (Z.of_nat (String.length sub))) as [_|]; [|lia].
  by rewrite str_slice_prefix.
Qed.

(** X6: the loop body of [get] takes a name out of the map key [k]
    exactly when [k] is the requested key, an opening bracket, the name, a
    closing bracket and anything after it, where the requested key is not
    empty and holds no opening bracket, and the name is not empty and
    holds no closing bracket.  So an empty requested key matches nothing,
    and neither does a key with empty brackets. *)
Theorem key_sub_spec (k key sub : string) :
  key_sub k key = Some sub
  ↔ key ≠ "" ∧ sub ≠ ""
    ∧ ("["%char ∉ String.list_ascii_of_string key)
    ∧ ("]"%char ∉ String.list_ascii_of_string sub)
    ∧ ∃ rest, k = key +:+ String "[" (sub +:+ String "]" rest).
Proof.
  split; [apply key_sub_Some|].
  intros (Hkey & Hsub & Hnot & Hnot' & rest & ->). by apply key_sub_build.
Qed.

Lemma get_loop_spec (m : list (string * list string)) (key : string)
    (d : gmap string string) (e : bool) :
  match get_loop m key d e with
  | Some (dicts, found) =>
      (found = true ↔ e = true ∨ ∃ k v, (k, v) ∈ m ∧ is_Some (key_sub k key))
      ∧ (∀ sub x, dicts !! sub = Some x →
           d !! sub = Some x
           ∨ ∃ k v, (k, v) ∈ m ∧ key_sub k key = Some sub ∧ head v = Some x)
      ∧ (∀ sub, is_Some (d !! sub) → is_Some (dicts !! sub))
      ∧ (∀ k v sub, (k, v) ∈ m → key_sub k key = Some sub → is_Some (dicts !! sub))
  | None => ∃ k v, (k, v) ∈ m ∧ is_Some (key_sub k key) ∧ v = []
  end.
Proof.
  revert d e. induction m as [|[k v] m IH]; intros d e; simpl.
  - split_and!.
    + split; [by left|]. intros [?|(k & v & []%elem_of_nil & _)]. done.
    + intros sub x Hx. by left.
    + done.
    + intros k v sub []%elem_of_nil.
  - destruct (key_sub k key) as [sub0|] eqn:Hsub.
    + destruct v as [|v0 vs].
      { exists k, []. split_and!; [left|by rewrite Hsub|done]. }
      specialize (IH (<[sub0 := v0]> d) true).
      destruct (get_loop m key (<[sub0:=v0]> d) true) as [[dicts found]|].
      * destruct IH as (Hex & Hsound & Hkeep & Hcompl). split_and!.
        -- split; [|intros _; apply Hex; by left].
           intros _. right. exists k, (v0 :: vs). split; [left|by rewrite Hsub].
        -- intros sub x Hx. destruct (Hsound sub x Hx) as [Hd|(k' & v' & Hin & Hk' & Hv')].
           ++ destruct (decide (sub = sub0)) as [->|Hne].
              ** rewrite lookup_insert_eq in Hd. injection Hd as ->.
                 right. exists k, (x :: vs). split_and!; [left|done|done].
              ** rewrite lookup_insert_ne in Hd by done. by left.
           ++ right. exists k', v'. split_and!; [by right|done|done].
        -- intros sub Hd. apply Hkeep. destruct (decide (sub = sub0)) as [->|Hne].
           ++ by rewrite lookup_insert_eq.
           ++ by rewrite lookup_insert_ne.
        -- intros k' v' sub [[= -> ->]|Hin]%elem_of_cons Hk'.
           ++ apply Hkeep. assert (sub = sub0) as -> by congruence.
              by rewrite lookup_insert_eq.
           ++ by eapply Hcompl.
      * destruct IH as (k' & v' & Hin & Hk' & Hv'). exists k', v'.
        split_and!; [by right|done|done].
    + specialize (IH d e). destruct (get_loop m key d e) as [[dicts found]|].
      * destruct IH as (Hex & Hsound & Hkeep & Hcompl). split_and!.
        -- rewrite Hex. split; (intros [?|(k' & v' & Hin & Hk')]; [by left|right]).
           ++ exists k', v'. split; [by right|done].
           ++ apply elem_of_cons in Hin as [[= -> ->]|Hin].
              ** rewrite Hsub in Hk'. by destruct Hk'.
              ** by exists k', v'.
        -- intros sub x Hx. destruct (Hsound sub x Hx) as [Hd|(k' & v' & Hin & Hk' & Hv')].
           ++ by left.
           ++ right. exists k', v'. split_and!; [by right|done|done].
        -- done.
        -- intros k' v' sub [[= -> ->]|Hin]%elem_of_cons Hk'; [congruence|].
           by eapply Hcompl.
      * destruct IH as (k' & v' & Hin & Hk' & Hv'). exists k', v'.
        split_and!; [by right|done|done].
Qed.

(** X7: [get] over the pairs of a map.  When it returns, the flag tells
    whether some map key is the requested key followed by a bracketed
    name; every entry of the result is such a name with the first value of
    its map key, and every such name is in the result.  It panics only
    when a matching map key has an empty list of values.  With the empty
    string as the requested key it returns the empty map and false,
    whatever the map holds. *)
Theorem get_collects_bracketed_keys (m : list (string * list string)) (key : string) :
  match Context_get m key with
  | Some (dicts, found) =>
      (found = true ↔ ∃ k v, (k, v) ∈ m ∧ is_Some (key_sub k key))
      ∧ (∀ sub x, dicts !! sub = Some x →
           ∃ k v, (k, v) ∈ m ∧ key_sub k key = Some sub ∧ head v = Some x)
      ∧ (∀ k v sub, (k, v) ∈ m → key_sub k key = Some sub → is_Some (dicts !! sub))
  | None => ∃ k v, (k, v) ∈ m ∧ is_Some (key_sub k key) ∧ v = []
  end
  ∧ Context_get m "" = Some (∅, false).
Proof.
  split.
  - unfold Context_get. pose proof (get_loop_spec m key ∅ false) as Hspec.
    destruct (get_loop m key ∅ false) as [[dicts found]|]; [|done].
    destruct Hspec as (Hex & Hsound & _ & Hcompl). split_and!.
    + rewrite Hex. split; [by intros [?|?]|by right].
    + intros sub x Hx. destruct (Hsound sub x Hx) as [Hd|?]; [|done].
      by rewrite lookup_empty in Hd.
    + done.
  - unfold Context_get. induction m as [|[k v] m IH]; simpl; [done|].
    destruct (key_sub k "") as [sub|] eqn:Hsub; [|done].
    apply key_sub_Some in Hsub as (Hkey & _). done.
Qed.

(** ** The query of the request *)

(** X8: the query getters.  On a context without request every key is
    absent and nothing panics.  For an absent key [Query] returns the
    empty string and [DefaultQuery] the default; for a key with values
    both return the first value, the empty string included, and
    [QueryArray] returns them all; a key present with no value at all is
    the index panic of [values[0]].  [Query] is [DefaultQuery] with the
    empty string as default. *)
Theorem Query_family `{Library} (c : Context) (key defaultValue : string) :
  (Request c = None → urlQuery c !! key = None)
  ∧ (urlQuery c !! key = None →
       GetQuery c key = Some ("", false) ∧ Query c key = Some ""
       ∧ DefaultQuery c key defaultValue = Some defaultValue
       ∧ QueryArray c key = [] ∧ GetQueryArray c key = ([], false))
  ∧ (∀ v vs, urlQuery c !! key = Some (v :: vs) →
       GetQuery c key = Some (v, true) ∧ Query c key = Some v
       ∧ DefaultQuery c key defaultValue = Some v
       ∧ QueryArray c key = v :: vs)
  ∧ (urlQuery c !! key = Some [] →
       GetQuery c key = None ∧ Query c key = None
       ∧ DefaultQuery c key defaultValue = None)
  ∧ Query c key = DefaultQuery c key "".
Proof.
  unfold Query, DefaultQuery, QueryArray, GetQuery, GetQueryArray. split_and!.
  - unfold urlQuery. by intros ->.
  - by intros ->.
  - by intros v vs ->.
  - by intros ->.
  - destruct (urlQuery c !! key) as [[|v vs]|]; done.
Qed.

(** X9: [Value].  The key 0 gives the request pointer.  A string key that
    is in the bag gives the bag's value, whatever the context of the
    request holds for it; so after [Set(k, v)] the value of [k] is [v].
    Any other key gives what the context of the request gives, and nil
    when there is no request. *)
Theorem Value_prefers_the_bag `{Library} (h : Heap) (c : Context) :
  Context_Value h c (AnyInt 0) = Value_Request (Request c)
  ∧ (∀ k v, Get k h c = Some v → Context_Value h c (AnyString k) = Value_any v)
  ∧ (∀ k v, keys_ok h c →
       Context_Value (Set_ k v h c).1 (Set_ k v h c).2 (AnyString k) = Value_any v)
  ∧ (∀ key, key ≠ AnyInt 0 →
       (∀ k, key = AnyString k → Get k h c = None) →
       Context_Value h c key
       = match Request c with
         | Some r => from_option Value_any Value_nil (req_Context_Value r key)
         | None => Value_nil
         end).
Proof.
  split_and!.
  - done.
  - intros k v Hget. unfold Context_Value. by rewrite Hget.
  - intros k v Hok. unfold Context_Value.
    by rewrite (proj1 (Set_then_Get_aux h c k v Hok)).
  - intros key Hne Hbag. unfold Context_Value, hasRequestContext.
    destruct key as [k|z|b].
    + rewrite (Hbag k eq_refl). destruct (Request c) as [r|]; simpl; [|done].
      by destruct (req_Context_Value r (AnyString k)).
    + destruct z as [|p|p]; [done| |];
        (destruct (Request c) as [r|]; simpl; [|done];
         by destruct (req_Context_Value r _)).
    + destruct (Request c) as [r|]; simpl; [|done].
      by destruct (req_Context_Value r (AnyBool b)).
Qed.

(** ** Rendering *)

Lemma bodyAllowedForStatus_spec (status : Z) :
  bodyAllowedForStatus status = false
  ↔ (100 ≤ status ≤ 199 ∨ status = 204 ∨ status = 304)%Z.
Proof.
  unfold bodyAllowedForStatus.
  destruct (Z.leb_spec 100 status), (Z.leb_spec status 199),
    (Z.eqb_spec status 204), (Z.eqb_spec status 304); simpl; split; (done || lia || auto).
  all: intros [?|[?|?]]; lia.
Qed.

(** [Render] with a status the writer takes, on a context with a writer
    and an engine, step by step. *)
Lemma Context_Render_unfold `{Library} (code : Z) (r : render_Render) (s : State)
    (w : http_ResponseWriter) (e : unit) :
  Writer (ctx s) = Some w → engine (ctx s) = Some e →
  wroteHeader w || checkWriteHeaderCode code = true →
  let w1 := {| rw_header := rw_header w; rw_calls := rw_calls w ++ [WriteHeader code] |} in
  Context_Render code r s
  = if bodyAllowedForStatus code then
      match (r_Render r w1).2 with
      | None => Finished (with_ctx (set_Writer (Some (r_Render r w1).1) (ctx s)) s)
      | Some err =>
          Finished
            {| ctx := set_index abortIndex (set_Writer (Some (r_Render r w1).1) (ctx s));
               heap := heap s;
               trace := (trace s ++ Log_Error "Render error %+v" err) ++ [EvAbort] |}
      end
    else Finished (with_ctx (set_Writer (Some (r_WriteContentType r w1)) (ctx s)) s).
Proof.
  intros Hw He Hok. unfold Context_Render, Status. rewrite Hw, Hok. simpl.
  destruct (bodyAllowedForStatus code); simpl; [|done].
  destruct (r_Render r _) as [w2 [err|]]; simpl; [|done].
  by rewrite He.
Qed.

(** [Render] with a status the writer refuses: the panic of [WriteHeader],
    before anything else is done. *)
Lemma Context_Render_refused `{Library} (code : Z) (r : render_Render) (s : State)
    (w : http_ResponseWriter) :
  Writer (ctx s) = Some w →
  wroteHeader w || checkWriteHeaderCode code = false →
  Context_Render code r s = Panicked (invalid_WriteHeader_code code) s.
Proof.
  intros Hw Hno. unfold Context_Render, Status, Status_panic. by rewrite Hw, Hno.
Qed.

(** The writer takes a status when its header is out already or the code
    is in 100..999, and refuses it otherwise. *)
Lemma writer_takes (w : http_ResponseWriter) (code : Z) :
  wroteHeader w = true ∨ (100 ≤ code ≤ 999)%Z →
  wroteHeader w || checkWriteHeaderCode code = true.
Proof.
  intros [->|Hc]; [done|]. unfold checkWriteHeaderCode.
  destruct (Z.leb_spec 100 code), (Z.leb_spec code 999); simpl; (apply orb_true_r || lia).
Qed.

Lemma writer_refuses (w : http_ResponseWriter) (code : Z) :
  wroteHeader w = false → ¬ (100 ≤ code ≤ 999)%Z →
  wroteHeader w || checkWriteHeaderCode code = false.
Proof.
  intros -> Hc. unfold checkWriteHeaderCode.
  destruct (Z.leb_spec 100 code), (Z.leb_spec code 999); simpl; (done || lia).
Qed.

(** X10: [Render] on a context that has a writer and an engine.  The
    status is handed to [WriteHeader] first.  When the writer refuses it
    (a code outside 100..999 while the header is not out yet) that call
    panics: nothing is written, the renderer is not called, and the
    context is as it was.  Otherwise [Render] returns and changes of the
    context only the writer and the index: for a status from 100 to 199,
    204 or 304 the renderer's [Render] is not called, the writer is what
    [WriteContentType] leaves, and nothing is logged; for every other
    status [Render] is called, and when it returns an error the error is
    logged and the context aborted, and otherwise the index is as it
    was. *)
Theorem Render_gates_the_body `{Library} (code : Z) (r : render_Render) (s : State)
    (w : http_ResponseWriter) :
  Writer (ctx s) = Some w → engine (ctx s) ≠ None →
  let w1 := {| rw_header := rw_header w; rw_calls := rw_calls w ++ [WriteHeader code] |} in
  (wroteHeader w = false → ¬ (100 ≤ code ≤ 999)%Z →
     Context_Render code r s = Panicked ("invalid WriteHeader code " +:+ pretty code) s)
  ∧ (wroteHeader w = true ∨ (100 ≤ code ≤ 999)%Z →
     ∃ s', Context_Render code r s = Finished s'
       ∧ heap s' = heap s
       ∧ set_Writer (Writer (ctx s)) (set_index (index (ctx s)) (ctx s')) = ctx s
       ∧ ((100 ≤ code ≤ 199 ∨ code = 204 ∨ code = 304)%Z →
            Writer (ctx s') = Some (r_WriteContentType r w1)
            ∧ index (ctx s') = index (ctx s) ∧ trace s' = trace s)
       ∧ (¬ (100 ≤ code ≤ 199 ∨ code = 204 ∨ code = 304)%Z →
            Writer (ctx s') = Some (r_Render r w1).1
            ∧ match (r_Render r w1).2 with
              | Some err =>
                  index (ctx s') = abortIndex
                  ∧ trace s' = trace s ++ Log_Error "Render error %+v" err ++ [EvAbort]
              | None => index (ctx s') = index (ctx s) ∧ trace s' = trace s
              end)).
Proof.
  intros Hw He w1.
  assert (Hcheck : checkWriteHeaderCode code = true ↔ (100 ≤ code ≤ 999)%Z).
  { unfold checkWriteHeaderCode. rewrite andb_true_iff, Z.leb_le, Z.leb_le. done. }
  split.
  - intros Hwrote Hcode. apply (Context_Render_refused code r s w Hw).
    rewrite Hwrote. simpl. destruct (checkWriteHeaderCode code); [|done].
    destruct Hcode. by apply Hcheck.
  - intros Hok.
    assert (Hok' : wroteHeader w || checkWriteHeaderCode code = true).
    { destruct Hok as [->|Hc]; [done|]. apply Hcheck in Hc. rewrite Hc. apply orb_true_r. }
    destruct (engine (ctx s)) as [e|] eqn:Heng; [|done].
    rewrite (Context_Render_unfold code r s w e Hw Heng Hok'). fold w1.
    pose proof (bodyAllowedForStatus_spec code) as Hspec.
    destruct (bodyAllowedForStatus code).
    + assert (Hno : ¬ (100 ≤ code ≤ 199 ∨ code = 204 ∨ code = 304)%Z).
      { intros Hc. apply Hspec in Hc. done. }
      destruct (r_Render r w1) as [w2 [err|]] eqn:Hr; simpl; eexists;
        (split; [reflexivity|]);
        simpl; (split_and!; [done|by destruct s as [[] ? ?]|done|]); intros _.
      * split_and!; [done|done|by rewrite app_assoc].
      * done.
    + eexists. split; [reflexivity|]. simpl.
      split_and!; [done|by destruct s as [[] ? ?]|done|].
      intros Hno. destruct Hno. by apply Hspec.
Qed.

(** X10 on an answer with status 204, where the JSON body is not written,
    and on the status 0, which the writer refuses. *)
Lemma Render_gates_the_body_witness :
  Writer (ctx busy_State) = Some fresh_response
  ∧ engine (ctx busy_State) ≠ None
  ∧ (∃ s', Context_Render (H := literal_library) 204
             (render_JSON (H := literal_library) (JSON_any (AnyString "ok")))
             busy_State = Finished s'
       ∧ index (ctx s') = 3%Z
       ∧ (rw_calls <$> Writer (ctx s')) = Some [WriteHeader 204])
  ∧ Context_Render (H := literal_library) 0
      (render_JSON (H := literal_library) (JSON_any (AnyString "ok"))) busy_State
    = Panicked "invalid WriteHeader code 0" busy_State.
Proof.
  assert (Hw : Writer (ctx busy_State) = Some fresh_response) by reflexivity.
  assert (He : engine (ctx busy_State) ≠ None) by done.
  split; [exact Hw|]. split; [exact He|]. split.
  - destruct (Render_gates_the_body (H := literal_library) 204
                (render_JSON (H := literal_library) (JSON_any (AnyString "ok")))
                busy_State fresh_response Hw He)
      as (_ & Hrun).
    destruct Hrun as (s' & Hrun & _ & _ & Hgate & _); [right; lia|].
    exists s'. split; [exact Hrun|].
    destruct Hgate as (Hwr & Hidx & _); [lia|].
    split; [exact Hidx|]. rewrite Hwr. reflexivity.
  - destruct (Render_gates_the_body (H := literal_library) 0
                (render_JSON (H := literal_library) (JSON_any (AnyString "ok")))
                busy_State fresh_response Hw He)
      as (Hrefused & _).
    apply Hrefused; [reflexivity|lia].
Defined.

(** X11: [JSON] on a context with a writer and an engine.  A status the
    writer refuses is the panic of [WriteHeader], before the content type
    is set.  With a status the writer takes and that allows a body, the
    status is written first and the JSON content type set next, whatever
    happens after: when the value cannot be marshalled nothing is written
    to the body and the context is aborted; otherwise the marshalled bytes
    are written once, and the context is aborted exactly when that write
    fails. *)
Theorem JSON_writes_status_then_body `{Library} (code : Z) (obj : json_arg) (s : State)
    (w : http_ResponseWriter) :
  Writer (ctx s) = Some w → engine (ctx s) ≠ None →
  let w2 := writeContentType
              {| rw_header := rw_header w; rw_calls := rw_calls w ++ [WriteHeader code] |}
              jsonContentType in
  (wroteHeader w = false → ¬ (100 ≤ code ≤ 999)%Z →
     Context_JSON code obj s = Panicked ("invalid WriteHeader code " +:+ pretty code) s)
  ∧ (wroteHeader w = true ∨ (100 ≤ code ≤ 999)%Z →
     ¬ (100 ≤ code ≤ 199 ∨ code = 204 ∨ code = 304)%Z →
     ∃ s', Context_JSON code obj s = Finished s'
       ∧ match json_Marshal obj with
         | inr err =>
             Writer (ctx s') = Some w2 ∧ index (ctx s') = abortIndex
             ∧ trace s' = trace s ++ Log_Error "Render error %+v" err ++ [EvAbort]
         | inl jsonBytes =>
             Writer (ctx s')
             = Some {| rw_header := rw_header w2;
                       rw_calls := rw_calls w2 ++ [Write jsonBytes] |}
             ∧ index (ctx s')
               = (if Write_error w2 jsonBytes is Some _ then abortIndex
                  else index (ctx s))
         end).
Proof.
  intros Hw He w2. split.
  - intros Hwrote Hcode. apply Context_Render_refused with w; [done|].
    by apply writer_refuses.
  - intros Hok Hbody. apply writer_takes in Hok.
    assert (Hallowed : bodyAllowedForStatus code = true).
    { pose proof (bodyAllowedForStatus_spec code) as Hspec.
      destruct (bodyAllowedForStatus code); [done|]. destruct Hbody. by apply Hspec. }
    clear Hbody. rename Hallowed into Hbody.
    destruct (engine (ctx s)) as [e|] eqn:Heng; [|done].
    unfold Context_JSON. rewrite (Context_Render_unfold code _ s w e Hw Heng Hok), Hbody.
    simpl. unfold WriteJSON. fold w2.
    destruct (json_Marshal obj) as [jsonBytes|err]; simpl.
    + destruct (Write_error w2 jsonBytes); eexists; (split; [reflexivity|]); done.
    + eexists. split; [reflexivity|]. simpl. by rewrite app_assoc.
Qed.

(** X11 on the value 7: the status, then the body in one write. *)
Lemma JSON_writes_status_then_body_witness :
  Writer (ctx busy_State) = Some fresh_response
  ∧ engine (ctx busy_State) ≠ None
  ∧ ∃ s', Context_JSON (H := literal_library) 200 (JSON_any (AnyInt 7)) busy_State
          = Finished s'
      ∧ (rw_calls <$> Writer (ctx s')) = Some [WriteHeader 200; Write "7"]
      ∧ index (ctx s') = 3%Z.
Proof.
  assert (Hw : Writer (ctx busy_State) = Some fresh_response) by reflexivity.
  assert (He : engine (ctx busy_State) ≠ None) by done.
  split; [exact Hw|]. split; [exact He|].
  destruct (JSON_writes_status_then_body (H := literal_library) 200 (JSON_any (AnyInt 7))
              busy_State fresh_response Hw He) as (_ & Hrun).
  destruct Hrun as (s' & Hrun' & Hres); [right; lia|lia|].
  exists s'. split; [exact Hrun'|]. simpl in Hres. destruct Hres as (Hwr & Hidx).
  split; [by rewrite Hwr|exact Hidx].
Defined.

(** X12: [JSONP] with a status the writer takes and that allows a body, on
    a context with a writer and an engine.  Without a [callback] in the
    query, or with an empty one, it does what [JSON] does, content type
    included.  With a [callback] key that has no value it panics before
    anything is written.  With a callback, a value that marshals and a
    writer that accepts every write, the body is written in four pieces
    (the escaped callback, an opening parenthesis, the bytes, a closing
    parenthesis and a semicolon) after the status and the JavaScript
    content type, and the context is not aborted. *)
Theorem JSONP_wraps_in_callback `{Library} (code : Z) (obj : json_arg) (s : State)
    (w : http_ResponseWriter) :
  Writer (ctx s) = Some w → engine (ctx s) ≠ None →
  wroteHeader w = true ∨ (100 ≤ code ≤ 999)%Z →
  ¬ (100 ≤ code ≤ 199 ∨ code = 204 ∨ code = 304)%Z →
  let w2 := writeContentType
              {| rw_header := rw_header w; rw_calls := rw_calls w ++ [WriteHeader code] |}
              jsonpContentType in
  (urlQuery (ctx s) !! "callback" = None → Context_JSONP code obj s = Context_JSON code obj s)
  ∧ (∀ vs, urlQuery (ctx s) !! "callback" = Some ("" :: vs) →
       Context_JSONP code obj s = Context_JSON code obj s)
  ∧ (urlQuery (ctx s) !! "callback" = Some [] →
       Context_JSONP code obj s = Panicked index_out_of_range s)
  ∧ (∀ cb vs jsonBytes,
       urlQuery (ctx s) !! "callback" = Some (cb :: vs) → cb ≠ "" →
       json_Marshal obj = inl jsonBytes →
       (∀ w' data, Write_error w' data = None) →
       Context_JSONP code obj s
       = Finished (with_ctx
           (set_Writer
              (Some {| rw_header := rw_header w2;
                       rw_calls := rw_calls w2
                         ++ [Write (JSEscapeString cb); Write "("; Write jsonBytes;
                             Write ");"] |})
              (ctx s)) s)).
Proof.
  intros Hw He Hok Hbody w2. apply writer_takes in Hok.
  assert (Hallowed : bodyAllowedForStatus code = true).
  { pose proof (bodyAllowedForStatus_spec code) as Hspec.
    destruct (bodyAllowedForStatus code); [done|]. destruct Hbody. by apply Hspec. }
  clear Hbody. rename Hallowed into Hbody.
  destruct (engine (ctx s)) as [e|] eqn:Heng; [|done].
  unfold Context_JSONP, Context_JSON, DefaultQuery, GetQuery, GetQueryArray.
  split_and!.
  - by intros ->.
  - by intros vs ->.
  - by intros ->.
  - intros cb vs jsonBytes -> Hcb Hm Hwrite. simpl.
    rewrite decide_False by done.
    rewrite (Context_Render_unfold code _ s w e Hw Heng Hok), Hbody. simpl.
    unfold JsonpJSON_Render. fold w2. rewrite Hm, decide_False by done.
    unfold w_Write. rewrite !Hwrite. simpl. rewrite <- !app_assoc. done.
Qed.

(** X12 on a request whose query names the callback [show]. *)
Lemma JSONP_wraps_in_callback_witness :
  Writer (ctx busy_State) = Some fresh_response
  ∧ engine (ctx busy_State) ≠ None
  ∧ (wroteHeader fresh_response = true ∨ (100 ≤ 200 ≤ 999)%Z)
  ∧ ¬ (100 ≤ 200 ≤ 199 ∨ 200 = 204 ∨ 200 = 304)%Z
  ∧ ∃ s', Context_JSONP (H := literal_library) 200 (JSON_any (AnyInt 7)) busy_State
          = Finished s'
      ∧ (rw_calls <$> Writer (ctx s'))
        = Some [WriteHeader 200; Write "show"; Write "("; Write "7"; Write ");"].
Proof.
  assert (Hw : Writer (ctx busy_State) = Some fresh_response) by reflexivity.
  assert (He : engine (ctx busy_State) ≠ None) by done.
  assert (Hok : wroteHeader fresh_response = true ∨ (100 ≤ 200 ≤ 999)%Z) by (right; lia).
  assert (Hbody : ¬ (100 ≤ 200 ≤ 199 ∨ 200 = 204 ∨ 200 = 304)%Z) by lia.
  split; [exact Hw|]. split; [exact He|]. split; [exact Hok|]. split; [exact Hbody|].
  destruct (JSONP_wraps_in_callback (H := literal_library) 200 (JSON_any (AnyInt 7))
              busy_State fresh_response Hw He Hok Hbody) as (_ & _ & _ & Hcb).
  eexists. split.
  - apply (Hcb "show" [] "7"); [reflexivity|done|reflexivity|done].
  - reflexivity.
Defined.

(** X13: [Redirect] hands -1, not the redirect code, to [WriteHeader].
    On a writer whose header is not out yet that call panics with
    [invalid WriteHeader code -1]: nothing is written, the redirect
    renderer is not called, and the context is as it was, whatever the
    code and the location.  Only when the header is out already does the
    call pass, as a superfluous one, and the redirect renderer run; the
    context is then aborted exactly when the renderer returns an error. *)
Theorem Redirect_passes_status_minus_one `{Library}
    (r : Z → string → option http_Request → render_Render)
    (code : Z) (location : string) (s : State) (w : http_ResponseWriter) :
  Writer (ctx s) = Some w →
  let w1 := {| rw_header := rw_header w; rw_calls := rw_calls w ++ [WriteHeader (-1)] |} in
  let rd := r code location (Request (ctx s)) in
  (wroteHeader w = false →
     Context_Redirect r code location s = Panicked "invalid WriteHeader code -1" s)
  ∧ (wroteHeader w = true → engine (ctx s) ≠ None →
     ∃ s', Context_Redirect r code location s = Finished s'
       ∧ Writer (ctx s') = Some (r_Render rd w1).1
       ∧ index (ctx s')
         = (if (r_Render rd w1).2 is Some _ then abortIndex else index (ctx s))).
Proof.
  intros Hw w1 rd. unfold Context_Redirect. split.
  - intros Hwrote.
    rewrite (Context_Render_refused (-1) _ s w Hw); [done|]. by rewrite Hwrote.
  - intros Hwrote He. destruct (engine (ctx s)) as [e|] eqn:Heng; [|done].
    rewrite (Context_Render_unfold (-1) _ s w e Hw Heng); [|by rewrite Hwrote].
    simpl. fold w1 rd. destruct (r_Render rd w1) as [w2 [err|]]; simpl; by eexists.
Qed.

(** X13 on a response that nothing was written to yet, with the JSON
    renderer in the place of the redirect renderer. *)
Lemma Redirect_passes_status_minus_one_witness :
  Writer (ctx busy_State) = Some fresh_response
  ∧ Context_Redirect (H := literal_library)
      (λ _ location _, render_JSON (H := literal_library) (JSON_any (AnyString location)))
      302 "/login" busy_State
    = Panicked "invalid WriteHeader code -1" busy_State.
Proof.
  assert (Hw : Writer (ctx busy_State) = Some fresh_response) by reflexivity.
  split; [exact Hw|].
  destruct (Redirect_passes_status_minus_one (H := literal_library)
              (λ _ location _, render_JSON (H := literal_library) (JSON_any (AnyString location)))
              302 "/login" busy_State fresh_response Hw) as (Hpanic & _).
  by apply Hpanic.
Defined.

(** X14: [MustBindWith].  When the binding accepts, the call returns nil
    and touches nothing.  When the binding fails, its error is returned
    and the context is aborted however the call ends, the nil dereference
    of a context without writer included, because the abort comes before
    the answer; with a writer and an engine the call returns, and the
    first thing the writer is given is the status 400. *)
Theorem MustBindWith_aborts_on_error `{Library} (b : binding_Binding) (s : State) :
  (b_Bind b (Request (ctx s)) = None → MustBindWith b s = (Finished s, None))
  ∧ (∀ err, b_Bind b (Request (ctx s)) = Some err →
       (MustBindWith b s).2 = Some err
       ∧ ends (MustBindWith b s).1
              (λ s', index (ctx s') = abortIndex ∧ EvAbort ∈ trace s')
       ∧ (Writer (ctx s) = None → panicked (MustBindWith b s).1)
       ∧ (∀ w, Writer (ctx s) = Some w → engine (ctx s) ≠ None →
            ∃ s', (MustBindWith b s).1 = Finished s'
              ∧ Writer (ctx s')
                = Some (r_Render (render_JSON (JSON_error err))
                          {| rw_header := rw_header w;
                             rw_calls := rw_calls w ++ [WriteHeader StatusBadRequest] |}).1)).
Proof.
  unfold MustBindWith, ShouldBindWith. split.
  - by intros ->.
  - intros err ->. simpl. split; [done|].
    set (s1 := emit EvAbort (with_ctx (Abort (ctx s)) s)).
    assert (Hin : EvAbort ∈ trace s1).
    { simpl. apply elem_of_app. right. by left. }
    unfold AbortWithStatusJSON, Context_JSON. fold s1. split_and!.
    + unfold Context_Render, Status.
      destruct (Writer (ctx s1)) as [w|] eqn:Hw; [|done].
      change (checkWriteHeaderCode StatusBadRequest) with true.
      rewrite orb_true_r. simpl.
      destruct (WriteJSON _ _) as [w2 [e|]]; simpl; [|done].
      destruct (engine (ctx s)); simpl; [|done].
      split; [done|]. apply elem_of_app. by right; left.
    + intros Hw. unfold Context_Render, Status.
      change (Writer (ctx s1)) with (Writer (ctx s)). by rewrite Hw.
    + intros w Hw He. destruct (engine (ctx s)) as [e|] eqn:Heng; [|done].
      rewrite (Context_Render_unfold StatusBadRequest _ s1 w e Hw Heng)
        by apply orb_true_r.
      simpl. destruct (WriteJSON _ _) as [w2 [e'|]]; simpl; by eexists.
Qed.

(** X24: [JsonpJSON.Render] sets the JavaScript content type and then
    writes nothing when the value cannot be marshalled, returning that
    error.  Otherwise it writes the pieces of the body in order (the bytes
    alone for an empty callback; else the escaped callback, an opening
    parenthesis, the bytes, and a closing parenthesis with a semicolon),
    one call of [Write] each, and stops at the first write that fails:
    when [n] writes were made, the first [n - 1] of them succeeded, what
    is returned is the result of the last one, and that one failed when
    pieces are left.  The header map is not touched after the content
    type. *)
Theorem JsonpJSON_stops_at_failed_write `{Library} (Callback : string) (Data : json_arg)
    (w : http_ResponseWriter) :
  let w2 := writeContentType w jsonpContentType in
  let after (ds : list string) :=
    {| rw_header := rw_header w2; rw_calls := rw_calls w2 ++ (Write <$> ds) |} in
  match json_Marshal Data with
  | inr err => JsonpJSON_Render Callback Data w = (w2, Some err)
  | inl ret =>
      let pieces :=
        if decide (Callback = "") then [ret]
        else [JSEscapeString Callback; "("; ret; ");"] in
      ∃ n d, pieces !! n = Some d
        ∧ JsonpJSON_Render Callback Data w
          = (after (take (S n) pieces), Write_error (after (take n pieces)) d)
        ∧ (∀ i di, i < n → pieces !! i = Some di →
             Write_error (after (take i pieces)) di = None)
        ∧ (S n < length pieces → is_Some (Write_error (after (take n pieces)) d))
  end.
Proof.
  intros w2 after. unfold JsonpJSON_Render. fold w2.
  destruct (json_Marshal Data) as [ret|err]; [|done].
  assert (Hafter0 : after [] = w2).
  { unfold after. simpl. rewrite app_nil_r. by destruct w2. }
  destruct (decide (Callback = "")) as [Hcb|Hcb].
  { exists 0, ret. simpl. rewrite Hafter0. split_and!; [done|done| |lia].
    intros i di Hi. lia. }
  assert (Hearlier : ∀ n : nat,
    (∀ i di, i < n → [JSEscapeString Callback; "("; ret; ");"] !! i = Some di →
       i = 0 ∧ di = JSEscapeString Callback ∨ i = 1 ∧ di = "(" ∨ i = 2 ∧ di = ret
       ∨ i = 3 ∧ di = ");")).
  { intros n i di _ Hdi.
    do 4 (destruct i as [|i]; [simpl in Hdi; injection Hdi as <-; tauto|]). done. }
  unfold w_Write. simpl.
  set (d1 := JSEscapeString Callback).
  change {| rw_header := rw_header w2; rw_calls := rw_calls w2 ++ [Write d1] |}
    with (after [d1]).
  destruct (Write_error w2 d1) as [e1|] eqn:H1; simpl.
  { exists 0, d1. simpl. rewrite Hafter0, H1. split_and!; [done|done| |by eexists].
    intros i di Hi. lia. }
  rewrite <- Hafter0 in H1.
  change {| rw_header := rw_header (after [d1]);
            rw_calls := rw_calls (after [d1]) ++ [Write "("] |}
    with {| rw_header := rw_header w2;
            rw_calls := (rw_calls w2 ++ [Write d1]) ++ [Write "("] |}.
  rewrite <- (app_assoc (rw_calls w2)). simpl.
  change {| rw_header := rw_header w2; rw_calls := rw_calls w2 ++ [Write d1; Write "("] |}
    with (after [d1; "("]).
  destruct (Write_error (after [d1]) "(") as [e2|] eqn:H2; simpl.
  { exists 1, "(". simpl. rewrite H2. split_and!; [done|done| |by eexists].
    intros i di Hi Hdi.
    destruct (Hearlier 1 i di Hi Hdi) as [[-> ->]|[[-> ->]|[[-> ->]|[-> ->]]]];
      done || lia. }
  change {| rw_header := rw_header (after [d1; "("]);
            rw_calls := rw_calls (after [d1; "("]) ++ [Write ret] |}
    with {| rw_header := rw_header w2;
            rw_calls := (rw_calls w2 ++ [Write d1; Write "("]) ++ [Write ret] |}.
  rewrite <- (app_assoc (rw_calls w2)). simpl.
  change {| rw_header := rw_header w2;
            rw_calls := rw_calls w2 ++ [Write d1; Write "("; Write ret] |}
    with (after [d1; "("; ret]).
  destruct (Write_error (after [d1; "("]) ret) as [e3|] eqn:H3; simpl.
  { exists 2, ret. simpl. rewrite H3. split_and!; [done|done| |by eexists].
    intros i di Hi Hdi.
    destruct (Hearlier 2 i di Hi Hdi) as [[-> ->]|[[-> ->]|[[-> ->]|[-> ->]]]];
      done || lia. }
  change {| rw_header := rw_header (after [d1; "("; ret]);
            rw_calls := rw_calls (after [d1; "("; ret]) ++ [Write ");"] |}
    with {| rw_header := rw_header w2;
            rw_calls := (rw_calls w2 ++ [Write d1; Write "("; Write ret]) ++ [Write ");"] |}.
  rewrite <- (app_assoc (rw_calls w2)). simpl.
  change {| rw_header := rw_header w2;
            rw_calls := rw_calls w2 ++ [Write d1; Write "("; Write ret; Write ");"] |}
    with (after [d1; "("; ret; ");"]).
  exists 3, ");". simpl.
  split_and!; [done| | |lia].
  - by destruct (Write_error (after [d1; "("; ret]) ");").
  - intros i di Hi Hdi.
    destruct (Hearlier 3 i di Hi Hdi) as [[-> ->]|[[-> ->]|[[-> ->]|[-> ->]]]];
      done || lia.
Qed.

(** ** Options and life cycle *)

Lemma New_opts_snoc (opt : list ServerOption) (o : ServerOption) :
  New_opts (opt ++ [o]) = o (New_opts opt).
Proof. unfold New_opts. by rewrite foldl_snoc. Qed.

Lemma exported_MaxMultipartMemory (o : ServerOption) (opts : serverOptions) :
  exported_option o → MaxMultipartMemory (o opts) = MaxMultipartMemory opts.
Proof. by intros []. Qed.

(** X15: the options of [New].  Without options they are the defaults: 45
    seconds to read the header, 32 MiB of multipart memory, no HTML
    renderer.  The options are applied in the order given, so of two
    options of one kind the later one decides, and an option of another
    kind given after it changes nothing of it.  No list of options a
    caller can build changes the multipart memory. *)
Theorem New_opts_last_option_wins (opt : list ServerOption) :
  Forall exported_option opt →
  MaxMultipartMemory (New_opts opt) = 33554432%Z
  ∧ (New_opts [] = defaultServerOptions
     ∧ readHeaderTimeout (New_opts []) = 45000000000%Z
     ∧ HTMLRender (New_opts []) = None)
  ∧ (∀ d rest,
       Forall (λ o, ∃ r l, o = HTMLRender_option r ∨ o = WithLogger l) rest →
       readHeaderTimeout (New_opts (opt ++ ReadHeaderTimeout d :: rest)) = d)
  ∧ (∀ log rest,
       Forall (λ o, ∃ r d, o = HTMLRender_option r ∨ o = ReadHeaderTimeout d) rest →
       Log (New_opts (opt ++ WithLogger log :: rest)) = log)
  ∧ (∀ r rest,
       Forall (λ o, ∃ l d, o = WithLogger l ∨ o = ReadHeaderTimeout d) rest →
       HTMLRender (New_opts (opt ++ HTMLRender_option r :: rest)) = Some r).
Proof.
  intros Hexp. split; [|split; [done|split_and!]].
  - induction opt as [|o opt IH] using rev_ind; [done|].
    apply Forall_app in Hexp as [Hopt Ho]. apply Forall_inv in Ho.
    rewrite New_opts_snoc, (exported_MaxMultipartMemory o (New_opts opt) Ho).
    by apply IH.
  - intros d rest Hrest. rewrite (cons_middle _ opt), app_assoc.
    induction rest as [|o rest IH] using rev_ind.
    + by rewrite app_nil_r, New_opts_snoc.
    + apply Forall_app in Hrest as [Hrest Ho]. apply Forall_inv in Ho.
      rewrite app_assoc, New_opts_snoc. specialize (IH Hrest).
      by destruct Ho as (? & ? & [-> | ->]).
  - intros log rest Hrest. rewrite (cons_middle _ opt), app_assoc.
    induction rest as [|o rest IH] using rev_ind.
    + by rewrite app_nil_r, New_opts_snoc.
    + apply Forall_app in Hrest as [Hrest Ho]. apply Forall_inv in Ho.
      rewrite app_assoc, New_opts_snoc. specialize (IH Hrest).
      by destruct Ho as (? & ? & [-> | ->]).
  - intros r rest Hrest. rewrite (cons_middle _ opt), app_assoc.
    induction rest as [|o rest IH] using rev_ind.
    + by rewrite app_nil_r, New_opts_snoc.
    + apply Forall_app in Hrest as [Hrest Ho]. apply Forall_inv in Ho.
      rewrite app_assoc, New_opts_snoc. specialize (IH Hrest).
      by destruct Ho as (? & ? & [-> | ->]).
Qed.

(** X15 for two timeouts with a logger after them. *)
Lemma New_opts_last_option_wins_witness :
  Forall exported_option [ReadHeaderTimeout 5]
  ∧ readHeaderTimeout (New_opts ([ReadHeaderTimeout 5] ++ ReadHeaderTimeout 9 :: [WithLogger 3]))
    = 9%Z
  ∧ MaxMultipartMemory (New_opts [ReadHeaderTimeout 5]) = 33554432%Z.
Proof.
  assert (Hexp : Forall exported_option [ReadHeaderTimeout 5]).
  { repeat constructor. }
  split; [exact Hexp|].
  destruct (New_opts_last_option_wins [ReadHeaderTimeout 5] Hexp) as (Hmem & _ & Ht & _).
  split; [|exact Hmem].
  apply Ht. repeat constructor. exists 0, 3. by right.
Defined.

(** X16: the server a Plum runs.  [Run] without a server builds one with
    the Plum as handler, the address and the header timeout of the
    options.  [Run] with a server uses the first one as it is: neither
    its handler nor its timeout is set and the address argument is not
    used; a nil server is a nil dereference.  [RunTLS] treats a server it
    is given the same way.  [RunServer] sets the
    server's handler to the Plum before serving, and with a nil server
    returns the error [plum: no server] and changes nothing.  [Shutdown]
    returns that error when no server was set, and otherwise hands over to
    the server that was run. *)
Theorem Run_serves_the_supplied_server `{Library} (p : Lifecycle) (addr : string) :
  (let built := {| srv_Handler := Some ThePlum; srv_Addr := addr;
                   srv_ReadHeaderTimeout := readHeaderTimeout (lc_opts p) |} in
   ∃ p', Run p addr [] = Some (p', ListenAndServe built)
     ∧ (a ← lc_srv p'; lc_servers p' !! a) = Some built
     ∧ Shutdown p' = Some (Shutdown_srv built))
  ∧ (∀ a S rest, lc_servers p !! a = Some S →
       ∃ p', Run p addr (Some a :: rest) = Some (p', ListenAndServe S)
         ∧ lc_srv p' = Some a ∧ lc_servers p' !! a = Some S
         ∧ Shutdown p' = Some (Shutdown_srv S))
  ∧ (∀ rest, Run p addr (None :: rest) = None)
  ∧ (∀ certFile keyFile a S rest, lc_servers p !! a = Some S →
       ∃ p', RunTLS p addr certFile keyFile (Some a :: rest)
             = Some (p', ListenAndServeTLS S certFile keyFile)
         ∧ lc_srv p' = Some a ∧ lc_servers p' !! a = Some S)
  ∧ (∀ lis a S, lc_servers p !! a = Some S →
       let S' := {| srv_Handler := Some ThePlum; srv_Addr := srv_Addr S;
                    srv_ReadHeaderTimeout := srv_ReadHeaderTimeout S |} in
       ∃ p', RunServer p lis (Some a) = Some (p', Serve S' lis)
         ∧ lc_srv p' = Some a ∧ lc_servers p' !! a = Some S'
         ∧ Shutdown p' = Some (Shutdown_srv S'))
  ∧ (∀ lis, RunServer p lis None = Some (p, Some no_server))
  ∧ (lc_srv p = None → Shutdown p = Some (Some no_server)).
Proof.
  split_and!.
  - eexists. unfold Run, Run_srv, Shutdown. simpl.
    rewrite list_lookup_middle by done. simpl. split; [reflexivity|]. simpl.
    by rewrite list_lookup_middle.
  - intros a S rest HS. eexists. unfold Run, Run_srv, Shutdown. simpl.
    rewrite (lookup_app_l_Some _ _ _ _ HS). simpl. split; [reflexivity|]. simpl.
    by rewrite (lookup_app_l_Some _ _ _ _ HS).
  - done.
  - intros certFile keyFile a S rest HS. eexists. unfold RunTLS, Run_srv. simpl.
    rewrite (lookup_app_l_Some _ _ _ _ HS). simpl. split; [reflexivity|]. simpl.
    split; [done|]. by apply lookup_app_l_Some.
  - intros lis a S HS S'. eexists. unfold RunServer, Shutdown. rewrite HS. simpl.
    assert (Ha : a < length (lc_servers p)) by by eapply lookup_lt_Some.
    split; [reflexivity|]. simpl. by rewrite list_lookup_insert_eq.
  - done.
  - unfold Shutdown. by intros ->.
Qed.

(** ** Composition of middleware, nesting of groups *)

Section ComposeFacts.
Context `{Platform}.

Lemma foldl_reverse_wrap (xs : list Middleware) (handler : HandlerFunc) :
  foldl (λ handler middleware, middleware handler) handler (reverse xs)
  = foldr (λ middleware handler, middleware handler) handler xs.
Proof.
  induction xs as [|x xs IH]; [done|].
  rewrite reverse_cons, foldl_snoc, IH. done.
Qed.

(** A list that is [xs] reversed in front of the list of [R] composes what
    [R] composes around [xs] applied first to last. *)
Lemma withMiddlewares_prepend w w1 R R1 (xs : list Middleware) handler :
  slice_elems (mstore w1) (middlewares R1)
  = reverse xs ++ slice_elems (mstore w) (middlewares R) →
  withMiddlewares w1 R1 handler
  = withMiddlewares w R (foldr (λ middleware handler, middleware handler) handler xs).
Proof.
  intros Hel. unfold withMiddlewares. by rewrite Hel, foldl_app, foldl_reverse_wrap.
Qed.

Lemma Use_args_lookup w r R xs :
  world_ok w → routers w !! r = Some R →
  ∃ w1 R1,
    Use_args w r xs = Some w1 ∧ routers w1 !! r = Some R1
    ∧ scope R1 = scope R ∧ Router_engine R1 = Router_engine R ∧ mux w1 = mux w
    ∧ slice_elems (mstore w1) (middlewares R1)
      = reverse xs ++ slice_elems (mstore w) (middlewares R).
Proof.
  intros Hok HR.
  destruct (Use_args_spec w r R xs Hok HR) as (w1 & s & HU & Hrs & Hmx & Hel & _).
  exists w1, (set_middlewares s R). split_and!; try done.
  rewrite Hrs. apply list_lookup_insert_eq. by eapply lookup_lt_Some.
Qed.

End ComposeFacts.

(** X17: in a world reached from [New()], [r.Use(xs...)] with any number
    of middleware makes the router compose, for every handler, what it
    composed before around the first of [xs] around the second and so on
    around the handler.  Two calls in a row compose as one call with both
    lists in order, so middleware added later sits closer to the
    handler.  The scope, the engine and the registered routes are not
    touched. *)
Theorem Use_accumulates_in_call_order `{Platform} (w : World) (r : nat) (R : Router)
    (xs ys : list Middleware) :
  reachable w → routers w !! r = Some R →
  ∃ w1 R1 w2 R2 w3 R3,
    (Use_args w r xs = Some w1 ∧ routers w1 !! r = Some R1)
    ∧ (Use_args w1 r ys = Some w2 ∧ routers w2 !! r = Some R2)
    ∧ (Use_args w r (xs ++ ys) = Some w3 ∧ routers w3 !! r = Some R3)
    ∧ (∀ handler,
         withMiddlewares w1 R1 handler
         = withMiddlewares w R (foldr (λ middleware handler, middleware handler) handler xs))
    ∧ (∀ handler,
         withMiddlewares w2 R2 handler
         = withMiddlewares w R
             (foldr (λ middleware handler, middleware handler) handler (xs ++ ys)))
    ∧ (∀ handler, withMiddlewares w3 R3 handler = withMiddlewares w2 R2 handler)
    ∧ scope R2 = scope R ∧ Router_engine R2 = Router_engine R ∧ mux w2 = mux w.
Proof.
  intros Hre HR. pose proof (reachable_sound w Hre) as Hs. pose proof Hs as [Hok _].
  destruct (Use_args_lookup w r R xs Hok HR)
    as (w1 & R1 & HU1 & HR1 & Hsc1 & He1 & Hmx1 & Hel1).
  pose proof (Use_args_sound w r xs w1 Hs HU1) as [Hok1 _].
  destruct (Use_args_lookup w1 r R1 ys Hok1 HR1)
    as (w2 & R2 & HU2 & HR2 & Hsc2 & He2 & Hmx2 & Hel2).
  destruct (Use_args_lookup w r R (xs ++ ys) Hok HR)
    as (w3 & R3 & HU3 & HR3 & _ & _ & _ & Hel3).
  assert (Hel2' : slice_elems (mstore w2) (middlewares R2)
                  = reverse (xs ++ ys) ++ slice_elems (mstore w) (middlewares R)).
  { by rewrite Hel2, Hel1, reverse_app, app_assoc. }
  exists w1, R1, w2, R2, w3, R3. split_and!; try done; try congruence.
  - intros handler. by apply withMiddlewares_prepend.
  - intros handler. by apply withMiddlewares_prepend.
  - intros handler. unfold withMiddlewares. by rewrite Hel3, Hel2'.
Qed.

(** X17 on the root router of a new server: after [Use(A)] and [Use(B)] a
    handler is composed as Recover around A around B. *)
Lemma Use_accumulates_in_call_order_witness :
  reachable (H := literal_platform) plum0
  ∧ (∃ R, routers plum0 !! 0 = Some R)
  ∧ ∃ w1 w2 R2,
      Use_args plum0 0 [announce "A"] = Some w1
      ∧ Use_args w1 0 [announce "B"] = Some w2
      ∧ routers w2 !! 0 = Some R2
      ∧ ∀ handler,
          withMiddlewares w2 R2 handler
          = Recover (H := literal_platform) (announce "A" (announce "B" handler)).
Proof.
  split; [exact reachable_plum0|]. split; [by eexists|].
  destruct (Use_accumulates_in_call_order (H := literal_platform) plum0 0 _
              [announce "A"] [announce "B"] reachable_plum0 eq_refl)
    as (w1 & R1 & w2 & R2 & w3 & R3 & (HU1 & _) & (HU2 & HR2) & _ & _ & Hc & _).
  exists w1, w2, R2. split; [exact HU1|]. split; [exact HU2|]. split; [exact HR2|].
  intros handler. rewrite Hc. reflexivity.
Defined.

(** X18: groups nest.  In a world reached from [New()], a group made on a
    group has as scope the scope of the first router followed by the two
    paths, keeps the engine, and composes for every handler what the first
    router composed around the middleware of the outer group, then that of
    the inner group, then the handler.  A route registered on it gets the
    pattern of method, space, that scope and the route, wrapped that way,
    and the two routers above it are as they were. *)
Theorem Group_nests `{Platform} (w : World) (r : nat) (R : Router)
    (a b : string) (xs ys : list Middleware) :
  reachable w → routers w !! r = Some R →
  ∃ w1 g G w2 g2 G2,
    (Group_args w r a xs = Some (w1, g) ∧ routers w1 !! g = Some G)
    ∧ (Group_args w1 g b ys = Some (w2, g2) ∧ routers w2 !! g2 = Some G2)
    ∧ scope G2 = (scope R +:+ a) +:+ b
    ∧ Router_engine G2 = Router_engine R
    ∧ (∀ handler,
         withMiddlewares w2 G2 handler
         = withMiddlewares w R
             (foldr (λ middleware handler, middleware handler) handler (xs ++ ys)))
    ∧ (routers w2 !! r = Some R ∧ routers w2 !! g = Some G ∧ mux w2 = mux w)
    ∧ (∀ method route handler w3,
         Handle w2 g2 method route handler = Some w3 →
         mux w3
         = mux w
           ++ [(method +:+ " " +:+ ((scope R +:+ a) +:+ b)
                  +:+ (if HasSuffix route "/" then route +:+ "{$}" else route),
                {| rh_engine := Router_engine R;
                   rh_h := withMiddlewares w R
                             (foldr (λ middleware handler, middleware handler)
                                    handler (xs ++ ys)) |})]).
Proof.
  intros Hre HR. pose proof (reachable_sound w Hre) as Hs. pose proof Hs as [Hok _].
  destruct (Group_args_spec w r R a xs Hok HR)
    as (w1 & G & HG1 & Hrs1 & Hmx1 & Hsc1 & He1 & Hel1 & _).
  pose proof (Group_args_sound w r a xs w1 _ Hs HG1) as [Hok1 _].
  assert (HG : routers w1 !! length (routers w) = Some G).
  { rewrite Hrs1. by apply list_lookup_middle. }
  destruct (Group_args_spec w1 (length (routers w)) G b ys Hok1 HG)
    as (w2 & G2 & HG2 & Hrs2 & Hmx2 & Hsc2 & He2 & Hel2 & _).
  assert (HG2' : routers w2 !! length (routers w1) = Some G2).
  { rewrite Hrs2. by apply list_lookup_middle. }
  assert (Hcomp : ∀ handler,
    withMiddlewares w2 G2 handler
    = withMiddlewares w R
        (foldr (λ middleware handler, middleware handler) handler (xs ++ ys))).
  { intros handler. apply withMiddlewares_prepend.
    by rewrite Hel2, Hel1, reverse_app, app_assoc. }
  exists w1, (length (routers w)), G, w2, (length (routers w1)), G2.
  split_and!; try done; try congruence.
  - rewrite Hrs2, Hrs1. apply lookup_app_l_Some. by apply lookup_app_l_Some.
  - rewrite Hrs2. by apply lookup_app_l_Some.
  - intros method route handler w3 HH. unfold Handle in HH. rewrite HG2' in HH.
    simpl in HH. destruct (Router_engine G2) as [e|] eqn:HeG; [|done].
    unfold mux_Handle in HH. destruct (mux_accepts _ _); [|done].
    injection HH as <-. simpl. unfold Handle_pattern.
    rewrite Hsc2, Hsc1, Hcomp, Hmx2, Hmx1. do 3 f_equal. congruence.
Qed.

(** X18 on the groups [/2] and [/3] of the README. *)
Lemma Group_nests_witness :
  reachable (H := literal_platform) plum0
  ∧ (∃ R, routers plum0 !! 0 = Some R)
  ∧ ∃ w1 g w2 g2 G2,
      Group_args (H := literal_platform) plum0 0 "/2" [] = Some (w1, g)
      ∧ Group_args (H := literal_platform) w1 g "/3" [announce "three"] = Some (w2, g2)
      ∧ routers w2 !! g2 = Some G2
      ∧ scope G2 = "/2/3"
      ∧ ∀ handler,
          withMiddlewares w2 G2 handler
          = Recover (H := literal_platform) (announce "three" handler).
Proof.
  split; [exact reachable_plum0|]. split; [by eexists|].
  destruct (Group_nests (H := literal_platform) plum0 0 _ "/2" "/3" [] [announce "three"]
              reachable_plum0 eq_refl)
    as (w1 & g & G & w2 & g2 & G2 & (HG1 & _) & (HG2 & HR2) & Hsc & _ & Hc & _).
  exists w1, g, w2, g2, G2.
  split; [exact HG1|]. split; [exact HG2|]. split; [exact HR2|]. split; [exact Hsc|].
  intros handler. rewrite Hc. reflexivity.
Defined.

(** ** Profiling routes *)

Section HandleFacts.
Context `{Platform}.

(** A call of [Handle] that returns adds one registration, composed from
    the middleware the router has. *)
Lemma Handle_registered_since w0 w g G es method route handler w' :
  routers w0 !! g = Some G → registered_since w0 w es →
  Handle w g method route handler = Some w' →
  is_Some (Router_engine G)
  ∧ registered_since w0 w'
      (es ++ [(Handle_pattern G method route,
               {| rh_engine := Router_engine G;
                  rh_h := withMiddlewares w0 G handler |})]).
Proof.
  intros HG (Hrs & Hst & Hpl & Hmx) HH. unfold Handle in HH.
  rewrite Hrs, HG in HH. simpl in HH.
  destruct (Router_engine G) as [e|] eqn:He; [|done].
  unfold mux_Handle in HH. destruct (mux_accepts _ _); [|done].
  injection HH as <-. split; [done|]. unfold registered_since. simpl.
  split_and!; [done|done|done|]. rewrite Hmx, <- app_assoc.
  unfold withMiddlewares. by rewrite Hst.
Qed.

End HandleFacts.

(** [RoutePerf] is the group followed by twelve calls of [Handle] on it. *)
Lemma RoutePerf_registered `{Platform} (w : World) (rg : nat) (R : Router)
    (prefixOptions : list string) (w' : World) :
  routers w !! rg = Some R → RoutePerf w rg prefixOptions = Some w' →
  let G := prefix_group R (getPrefix prefixOptions) in
  let w1 := set_routers (routers w ++ [G]) w in
  let entry (method route name : string) :=
    (Handle_pattern G method route,
     {| rh_engine := Router_engine G;
        rh_h := withMiddlewares w1 G (pprof_handler name) |}) in
  is_Some (Router_engine R)
  ∧ registered_since w1 w'
      [entry "GET" "/" "Index"; entry "GET" "/cmdline" "Cmdline";
       entry "GET" "/profile" "Profile"; entry "POST" "/symbol" "Symbol";
       entry "GET" "/symbol" "Symbol"; entry "GET" "/trace" "Trace";
       entry "GET" "/allocs" "allocs"; entry "GET" "/block" "block";
       entry "GET" "/goroutine" "goroutine"; entry "GET" "/heap" "heap";
       entry "GET" "/mutex" "mutex"; entry "GET" "/threadcreate" "threadcreate"].
Proof.
  intros HR HP G w1 entry. unfold RoutePerf, GET, POST in HP.
  unfold Group in HP. rewrite HR in HP. simpl in HP.
  change (set_routers _ (set_mstore (mstore w) w)) with w1 in HP.
  assert (HG : routers w1 !! length (routers w) = Some G) by by apply list_lookup_middle.
  assert (Hsince : registered_since w1 w1 []).
  { unfold registered_since. by rewrite app_nil_r. }
  repeat match type of HP with
  | mbind _ _ = Some _ =>
      let w2 := fresh "w" in let HH := fresh "HH" in
      apply bind_Some in HP as (w2 & HH & HP);
      apply (Handle_registered_since w1 _ _ G _ _ _ _ _ HG Hsince) in HH as [_ HH];
      clear Hsince; rename HH into Hsince
  end.
  by apply (Handle_registered_since w1 _ _ G _ _ _ _ _ HG Hsince) in HP as [He HP].
Qed.

(** X19: when [RoutePerf] returns, the mux holds twelve more
    registrations, in the order of the source: eleven GET routes and one
    POST route under the scope of the router followed by the prefix, the
    index route as [/{$}], each handler wrapped in the middleware the
    router has at that moment.  The prefix is the first of the options,
    [/debug/pprof] without options, and further options are not read.
    One router is added, the group of the prefix, which shares the
    middleware slice of the router it was made on. *)
Theorem RoutePerf_registers_twelve_routes `{Platform} (w : World) (rg : nat) (R : Router)
    (prefixOptions : list string) (w' : World) :
  routers w !! rg = Some R → RoutePerf w rg prefixOptions = Some w' →
  let prefix := match prefixOptions with p :: _ => p | [] => "/debug/pprof" end in
  let entry (method route name : string) :=
    (method +:+ " " +:+ (scope R +:+ prefix) +:+ route,
     {| rh_engine := Router_engine R;
        rh_h := withMiddlewares w R (pprof_handler name) |}) in
  mux w'
  = mux w ++ [entry "GET" "/{$}" "Index"; entry "GET" "/cmdline" "Cmdline";
              entry "GET" "/profile" "Profile"; entry "POST" "/symbol" "Symbol";
              entry "GET" "/symbol" "Symbol"; entry "GET" "/trace" "Trace";
              entry "GET" "/allocs" "allocs"; entry "GET" "/block" "block";
              entry "GET" "/goroutine" "goroutine"; entry "GET" "/heap" "heap";
              entry "GET" "/mutex" "mutex"; entry "GET" "/threadcreate" "threadcreate"]
  ∧ routers w'
    = routers w ++ [{| scope := scope R +:+ prefix;
                       basePath := joinPaths (basePath R) prefix;
                       Router_engine := Router_engine R;
                       middlewares := middlewares R |}]
  ∧ mstore w' = mstore w
  ∧ pool w' = pool w
  ∧ is_Some (Router_engine R).
Proof.
  intros HR HP prefix entry.
  destruct (RoutePerf_registered w rg R prefixOptions w' HR HP)
    as (He & Hrs & Hst & Hpl & Hmx).
  split_and!; done.
Qed.

(** X19 on a new server, with the routes registered again under [/perf]. *)
Lemma RoutePerf_registers_twelve_routes_witness :
  (∃ R, routers plum0 !! 0 = Some R)
  ∧ RoutePerf (H := literal_platform) plum0 0 ["/perf"] = Some perf_World
  ∧ (mux perf_World).*1 !! 12 = Some "GET /perf/{$}"
  ∧ length (mux perf_World) = 24.
Proof.
  assert (HP : RoutePerf (H := literal_platform) plum0 0 ["/perf"] = Some perf_World)
    by by vm_compute.
  split; [by eexists|]. split; [exact HP|].
  destruct (RoutePerf_registers_twelve_routes (H := literal_platform) plum0 0 _ ["/perf"]
              perf_World eq_refl HP) as (Hmux & _).
  rewrite Hmux. split; reflexivity.
Defined.

(** ** Dispatch *)

(** X20: a request that the mux of a world reached from [New()] gives to
    a registered route.  The handler starts on a context with the request
    and the writer of this call, the index at -1, an empty bag and no
    parameters, whatever the pooled context held.  A panic leaves
    [ServeHTTP] only when the handler wrapped in [Recover] panicked and
    left a context whose writer is nil, or whose request cannot be dumped
    without a panic; the panic is then the nil dereference, and the
    context is not put back into the pool.  When the
    run of the route's handler returns, the context it ended with is put
    back into the pool in the place of the one that was taken. *)
Theorem ServeHTTP_runs_route_on_clean_context `{Platform} (w : World)
    (pattern pt : string) (rh : RouterHandler) (fuel : nat) (hp : Heap)
    (res : http_ResponseWriter) (req : http_Request) :
  reachable w → (pattern, rh) ∈ mux w →
  RequestURI req ≠ "*" → mux_Handler (mux w) req = (HRoute rh, pt) → pt ≠ "" →
  let c0 := served_Context rh (pool_Get (pool w)).1 res req in
  let s0 := {| ctx := c0; heap := hp; trace := [] |} in
  let reply := ServeHTTP fuel w hp res req in
  (Request c0 = Some req ∧ Writer c0 = Some res ∧ index c0 = (-1)%Z
   ∧ (∀ key, Get key hp c0 = None)
   ∧ (∀ st : list (list Param), slice_elems st (Params c0) = []))
  ∧ (∃ inner,
       rh_h rh = Recover inner
       ∧ ∀ e, reply_panic reply = Some e →
           e = nil_deref
           ∧ reply_pool reply = (pool_Get (pool w)).2
           ∧ ∃ err s1,
               run (pred fuel) inner s0 = Panicked err s1
               ∧ (Writer (ctx s1) = None
                  ∨ ∃ r, Request (ctx s1) = Some r ∧ DumpRequest r false = None))
  ∧ (∀ s, run fuel (rh_h rh) s0 = Finished s →
       reply_panic reply = None
       ∧ reply_pool reply = ctx s :: (pool_Get (pool w)).2).
Proof.
  intros Hre Hin Huri Hmux Hpt c0 s0 reply.
  apply reachable_sound in Hre as [_ [_ Hreg]].
  destruct (Hreg pattern rh Hin) as [Heng [inner Hh]].
  assert (Hreply :
    reply_panic reply
    = match sv_outcome (RouterHandler_ServeHTTP fuel rh (pool w) hp res req) with
      | Panicked e _ => Some e
      | _ => None
      end
    ∧ reply_pool reply = sv_pool (RouterHandler_ServeHTTP fuel rh (pool w) hp res req)).
  { unfold reply, ServeHTTP.
    destruct (String.eqb_spec (RequestURI req) "*") as [|_]; [done|].
    rewrite Hmux. destruct (String.eqb_spec pt "") as [|_]; [done|]. done. }
  destruct Hreply as [Hpanic Hpool].
  assert (Hserved : RouterHandler_ServeHTTP fuel rh (pool w) hp res req
    = match run fuel (rh_h rh) s0 with
      | Finished s =>
          {| sv_outcome := Finished s; sv_pool := pool_Put (ctx s) (pool_Get (pool w)).2 |}
      | o => {| sv_outcome := o; sv_pool := (pool_Get (pool w)).2 |}
      end).
  { unfold RouterHandler_ServeHTTP. rewrite Heng.
    by destruct (pool_Get (pool w)) as [c pl1]. }
  split_and!.
  - done.
  - done.
  - done.
  - intros key. unfold Get, c0, served_Context. done.
  - intros st. unfold c0, served_Context, slice_elems. simpl.
    by destruct (sbase (Params (pool_Get (pool w)).1)).
  - exists inner. split; [done|]. intros e. rewrite Hpanic, Hpool, Hserved.
    destruct (run fuel (rh_h rh) s0) as [s|e' s|s] eqn:Hrun; simpl; [done| |done].
    intros [= ->]. rewrite Hh in Hrun.
    apply run_Recover_panics in Hrun as (-> & err & s1 & Hrun & Hwhy).
    split; [done|]. split; [done|]. exists err, s1. split; [done|].
    destruct Hwhy as [Hw|Hd]; [by left|right].
    unfold dump_of in Hd. destruct (Request (ctx s1)) as [r|]; [|done]. eauto.
  - intros s Hrun. rewrite Hpanic, Hpool, Hserved, Hrun. done.
Qed.

(** X20 on a route whose handler panics with its writer in place: the
    panic stays inside, and the context is back in the pool. *)
Lemma ServeHTTP_runs_route_on_clean_context_witness :
  reachable (H := literal_platform) boom_World
  ∧ ("GET /boom", rh_boom) ∈ mux boom_World
  ∧ RequestURI (get_request "/boom") ≠ "*"
  ∧ mux_Handler (Platform := literal_platform) (mux boom_World) (get_request "/boom")
    = (HRoute rh_boom, "GET /boom")
  ∧ reply_panic (ServeHTTP (H := literal_platform) 9 boom_World empty_Heap fresh_response
                   (get_request "/boom")) = None
  ∧ length (reply_pool (ServeHTTP (H := literal_platform) 9 boom_World empty_Heap
                          fresh_response (get_request "/boom"))) = 1.
Proof.
  assert (Hre : reachable (H := literal_platform) boom_World).
  { exists plum0. split; [apply New_plum0|].
    apply rtc_once. apply (step_Handle plum0 0 "GET" "/boom" boom). by vm_compute. }
  assert (Hin : ("GET /boom", rh_boom) ∈ mux boom_World).
  { apply list_elem_of_lookup. exists 12. by vm_compute. }
  assert (Huri : RequestURI (get_request "/boom") ≠ "*") by done.
  assert (Hmux : mux_Handler (Platform := literal_platform) (mux boom_World)
                   (get_request "/boom") = (HRoute rh_boom, "GET /boom")) by by vm_compute.
  split; [exact Hre|]. split; [exact Hin|]. split; [exact Huri|]. split; [exact Hmux|].
  destruct (ServeHTTP_runs_route_on_clean_context (H := literal_platform) boom_World
              "GET /boom" "GET /boom" rh_boom 9 empty_Heap fresh_response (get_request "/boom")
              Hre Hin Huri Hmux ltac:(done)) as (_ & _ & Hret).
  destruct (Hret _ eq_refl) as [Hnp Hpool].
  split; [exact Hnp|]. rewrite Hpool. reflexivity.
Defined.

(** X21: a request whose URI is [*] is answered by [ServeHTTP] itself
    with status 400 and nothing else written; the header [Connection:
    close] is set exactly for HTTP/1.1 and later.  The mux is not asked
    and no handler runs: the reply does not depend on the routes, the
    routers, the budget of steps or the stores, and the pool is left as
    it was. *)
Theorem ServeHTTP_star_is_bad_request `{Platform} (fuel : nat) (p : World) (hp : Heap)
    (res : http_ResponseWriter) (req : http_Request) :
  RequestURI req = "*" →
  rw_calls (reply_res (ServeHTTP fuel p hp res req)) = rw_calls res ++ [WriteHeader 400]
  ∧ rw_header (reply_res (ServeHTTP fuel p hp res req))
    = (if decide (1 < ProtoMajor req ∨ ProtoMajor req = 1 ∧ 1 ≤ ProtoMinor req)%Z
       then <[CanonicalMIMEHeaderKey "Connection" := ["close"]]> (rw_header res)
       else rw_header res)
  ∧ reply_pool (ServeHTTP fuel p hp res req) = pool p
  ∧ reply_stdout (ServeHTTP fuel p hp res req) = []
  ∧ reply_panic (ServeHTTP fuel p hp res req) = None
  ∧ (∀ fuel' p' hp', pool p' = pool p →
       ServeHTTP fuel' p' hp' res req = ServeHTTP fuel p hp res req).
Proof.
  intros Huri. unfold ServeHTTP. rewrite Huri. simpl.
  assert (Hproto : ProtoAtLeast req 1 1
                   = bool_decide (1 < ProtoMajor req ∨ ProtoMajor req = 1 ∧ 1 ≤ ProtoMinor req)%Z).
  { unfold ProtoAtLeast.
    destruct (Z.ltb_spec 1 (ProtoMajor req)), (Z.eqb_spec (ProtoMajor req) 1),
      (Z.leb_spec 1 (ProtoMinor req)); simpl; symmetry;
      (apply bool_decide_eq_true_2 || apply bool_decide_eq_false_2); lia. }
  destruct (decide (1 < ProtoMajor req ∨ ProtoMajor req = 1 ∧ 1 ≤ ProtoMinor req)%Z)
    as [Hp|Hp].
  - rewrite (bool_decide_eq_true_2 _ Hp) in Hproto. rewrite Hproto. simpl.
    split_and!; try done. by intros fuel' p' hp' ->.
  - rewrite (bool_decide_eq_false_2 _ Hp) in Hproto. rewrite Hproto. simpl.
    split_and!; try done. by intros fuel' p' hp' ->.
Qed.

(** X21 on an HTTP/1.1 request. *)
Lemma ServeHTTP_star_is_bad_request_witness :
  RequestURI (get_request "*") = "*"
  ∧ reply_res (ServeHTTP (H := literal_platform) 0 plum0 empty_Heap fresh_response
                 (get_request "*"))
    = {| rw_header := {["Connection" := ["close"]]}; rw_calls := [WriteHeader 400] |}.
Proof.
  split; [reflexivity|].
  destruct (ServeHTTP_star_is_bad_request (H := literal_platform) 0 plum0 empty_Heap
              fresh_response (get_request "*") eq_refl) as (Hcalls & Hhd & _).
  destruct (reply_res _) as [hd calls]. simpl in *. by rewrite Hcalls, Hhd.
Defined.

(** X22: [Recover] is transparent for a handler that returns: wrapped in
    [Recover], the handler ends in the same state, with the same context,
    stores and record of events, and nothing is printed or written on its
    behalf. *)
Theorem Recover_is_transparent `{Platform} (n : nat) (inner : HandlerFunc) (s s' : State) :
  run n inner s = Finished s' →
  ∀ m, n < m → run m (Recover inner) s = Finished s'.
Proof.
  intros Hrun m Hm. destruct n as [|n]; [done|].
  assert (Hrec : run (S (S n)) (Recover inner) s = Finished s').
  { unfold Recover. by rewrite run_DeferRecover, Hrun. }
  rewrite (run_more (S (S n)) m); [done| |lia]. by rewrite Hrec.
Qed.

(** X22 on the handler of the README. *)
Lemma Recover_is_transparent_witness :
  run (H := literal_platform) 3 hello busy_State
  = Finished {| ctx := set_Writer (Some {| rw_header := ∅; rw_calls := [WriteHeader 200] |})
                                  busy_Context;
                heap := busy_Heap; trace := [EvPrint Stdout "hello"] |}
  ∧ run (H := literal_platform) 4 (Recover (H := literal_platform) hello) busy_State
    = Finished {| ctx := set_Writer (Some {| rw_header := ∅; rw_calls := [WriteHeader 200] |})
                                    busy_Context;
                  heap := busy_Heap; trace := [EvPrint Stdout "hello"] |}.
Proof.
  assert (Hrun : run (H := literal_platform) 3 hello busy_State
    = Finished {| ctx := set_Writer (Some {| rw_header := ∅; rw_calls := [WriteHeader 200] |})
                                    busy_Context;
                  heap := busy_Heap; trace := [EvPrint Stdout "hello"] |}) by reflexivity.
  split; [exact Hrun|].
  apply (Recover_is_transparent (H := literal_platform) 3 hello busy_State _ Hrun 4). lia.
Defined.

(** ** The server [New] returns *)

(** X23: whatever the options, the server [New] returns has the twelve
    profiling routes registered under [/debug/pprof] and nothing else,
    each of them wrapped in [Recover] alone.  It has two routers, the
    root with the empty scope and the group of the profiling routes; both
    have the engine and wrap every handler in [Recover] alone.  Its pool
    is empty. *)
Theorem New_serves_pprof_under_Recover `{Platform} (w : World) :
  New = Some w →
  let entry (pattern name : string) :=
    (pattern, {| rh_engine := Some (); rh_h := Recover (pprof_handler name) |}) in
  mux w
  = [entry "GET /debug/pprof/{$}" "Index"; entry "GET /debug/pprof/cmdline" "Cmdline";
     entry "GET /debug/pprof/profile" "Profile"; entry "POST /debug/pprof/symbol" "Symbol";
     entry "GET /debug/pprof/symbol" "Symbol"; entry "GET /debug/pprof/trace" "Trace";
     entry "GET /debug/pprof/allocs" "allocs"; entry "GET /debug/pprof/block" "block";
     entry "GET /debug/pprof/goroutine" "goroutine"; entry "GET /debug/pprof/heap" "heap";
     entry "GET /debug/pprof/mutex" "mutex";
     entry "GET /debug/pprof/threadcreate" "threadcreate"]
  ∧ (∃ root G,
       routers w = [root; G]
       ∧ scope root = "" ∧ scope G = "/debug/pprof"
       ∧ Router_engine root = Some () ∧ Router_engine G = Some ()
       ∧ ∀ handler,
           withMiddlewares w root handler = Recover handler
           ∧ withMiddlewares w G handler = Recover handler)
  ∧ pool w = [].
Proof.
  intros HN entry. unfold New in HN.
  apply bind_Some in HN as (p1 & HU & HN).
  unfold Use_args, variadic, Use in HU. cbn -[Recover] in HU. injection HU as <-.
  cbn -[Recover RoutePerf] in HN.
  eapply RoutePerf_registered in HN as (_ & Hrs & Hst & Hpl & Hmx); [|reflexivity].
  cbn -[Recover] in Hrs, Hst, Hpl, Hmx. split_and!.
  - exact Hmx.
  - eexists _, _. split; [exact Hrs|]. split_and!; try reflexivity.
    intros handler. unfold withMiddlewares. rewrite Hst. by split.
  - exact Hpl.
Qed.

(** X23 on the literal platform. *)
Lemma New_serves_pprof_under_Recover_witness :
  New (H := literal_platform) = Some plum0
  ∧ (mux plum0).*1 !! 3 = Some "POST /debug/pprof/symbol"
  ∧ pool plum0 = [].
Proof.
  split; [exact New_plum0|].
  destruct (New_serves_pprof_under_Recover (H := literal_platform) plum0 New_plum0)
    as (Hmux & _ & Hpool).
  split; [|exact Hpool]. by rewrite Hmux.
Defined.
